(** * Radiance caching path tracer: shallow embedding and verified properties

    The embedding follows the CUDA/OptiX device programs (direct lighting,
    cubemap gather, hybrid and unbiased scatter) and the host side helpers of
    [Renderer] (weights dump, UV to world projection) of the repository.

    Conventions.
    - A [float] is an IEEE-754 binary32 value; arithmetic rounds to nearest
      even and is taken from the standard library's specification of
      floating point numbers instantiated at 24 bits of precision.
    - [int] and [uint32_t] values are integers of [Z] with the wrap-around
      written out ([int32], [uint32]).
    - Read-only device pointers are total functions of the element index;
      device buffers that a kernel writes are finite maps from the element
      index to the stored value.
    - The hardware ray tracer is modelled through the list of intersections
      of a ray with the scene; [optixTrace] selects the closest one inside
      the ray interval and runs the closest-hit or the miss program. *)

From Stdlib Require Import ZArith Lia Bool Ascii String.
From Stdlib Require Import Floats.SpecFloat.
From stdpp Require Import base option list gmap strings.

Local Open Scope Z_scope.

(* ===================================================================== *)
(** * Part I: definitions                                                 *)
(* ===================================================================== *)

(** ** Machine integers *)

Definition uint32 (z : Z) : Z := z mod 2 ^ 32.

Definition int32 (z : Z) : Z := (z + 2 ^ 31) mod 2 ^ 32 - 2 ^ 31.

(** ** binary32 arithmetic *)

Module F32.

Definition prec : Z := 24.
Definition emax : Z := 128.

Definition float : Type := spec_float.

Definition add : float -> float -> float := SFadd prec emax.
Definition sub : float -> float -> float := SFsub prec emax.
Definition mul : float -> float -> float := SFmul prec emax.
Definition div : float -> float -> float := SFdiv prec emax.
Definition opp : float -> float := SFopp.
Definition eqb : float -> float -> bool := SFeqb.
Definition ltb : float -> float -> bool := SFltb.
Definition leb : float -> float -> bool := SFleb.

(** [float(n)] for an integer [n]: the nearest binary32 value. *)
Definition of_int (n : Z) : float := binary_normalize prec emax n 0 false.

Definition zero : float := S754_zero false.
Definition one : float := of_int 1.
Definition two : float := of_int 2.

(** A decimal literal [n / 10^k], correctly rounded. *)
Definition decimal (n : Z) (k : Z) : float := div (of_int n) (of_int (10 ^ k)).

(** Truncation toward zero of a finite value, as an unbounded integer. *)
Definition trunc (f : float) : Z :=
  match f with
  | S754_finite s m e =>
      let v := if 0 <=? e then Z.pos m * 2 ^ e else Z.pos m / 2 ^ (- e) in
      if s then - v else v
  | _ => 0
  end.

Definition clamp (lo hi z : Z) : Z := Z.max lo (Z.min hi z).

(** [int(f)]: the device conversion truncates, saturates and sends NaN
    to 0. *)
Definition to_int (f : float) : Z :=
  match f with
  | S754_nan => 0
  | S754_infinity s => if s then - 2 ^ 31 else 2 ^ 31 - 1
  | _ => clamp (- 2 ^ 31) (2 ^ 31 - 1) (trunc f)
  end.

(** [uint32_t(f)]. *)
Definition to_uint (f : float) : Z :=
  match f with
  | S754_nan => 0
  | S754_infinity s => if s then 0 else 2 ^ 32 - 1
  | _ => clamp 0 (2 ^ 32 - 1) (trunc f)
  end.

(** [__float_as_uint]: the bit pattern of a value. *)
Definition float_as_uint (f : float) : Z :=
  match f with
  | S754_zero s => if s then 2 ^ 31 else 0
  | S754_infinity s => (if s then 2 ^ 31 else 0) + 255 * 2 ^ 23
  | S754_nan => 255 * 2 ^ 23 + 2 ^ 22
  | S754_finite s m e =>
      (if s then 2 ^ 31 else 0) +
      (if Z.pos m <? 2 ^ 23 then Z.pos m
       else (e + 150) * 2 ^ 23 + (Z.pos m - 2 ^ 23))
  end.

(** [__uint_as_float]: the value of a bit pattern. *)
Definition uint_as_float (u : Z) : float :=
  let s := Z.testbit u 31 in
  let ex := Z.land (Z.shiftr u 23) 255 in
  let fr := Z.land u (2 ^ 23 - 1) in
  if ex =? 255 then (if fr =? 0 then S754_infinity s else S754_nan)
  else if ex =? 0 then
    match fr with
    | Z.pos m => S754_finite s m (- 149)
    | _ => S754_zero s
    end
  else
    match fr + 2 ^ 23 with
    | Z.pos m => S754_finite s m (ex - 150)
    | _ => S754_zero s
    end.

Definition is_zero (f : float) : bool :=
  match f with S754_zero _ => true | _ => false end.

Definition is_finite (f : float) : bool :=
  match f with S754_zero _ | S754_finite _ _ _ => true | _ => false end.

(** The literal 3.14159265358979323846f. *)
Definition PI : float := S754_finite false 13176795 (- 22).

End F32.

Abbreviation float := F32.float.

(** ** glm and CUDA vector types *)

Record vec2 := mkVec2 { v2x : float; v2y : float }.
Record vec3 := mkVec3 { v3x : float; v3y : float; v3z : float }.
Record float4 := mkFloat4 { f4x : float; f4y : float; f4z : float; f4w : float }.
Record ivec3 := mkIVec3 { i3x : Z; i3y : Z; i3z : Z }.

Definition vec2_add (a b : vec2) : vec2 :=
  mkVec2 (F32.add (v2x a) (v2x b)) (F32.add (v2y a) (v2y b)).
Definition vec2_sub (a b : vec2) : vec2 :=
  mkVec2 (F32.sub (v2x a) (v2x b)) (F32.sub (v2y a) (v2y b)).
Definition vec2_scale (k : float) (a : vec2) : vec2 :=
  mkVec2 (F32.mul k (v2x a)) (F32.mul k (v2y a)).

Definition vec3_zero : vec3 := mkVec3 F32.zero F32.zero F32.zero.
Definition vec3_add (a b : vec3) : vec3 :=
  mkVec3 (F32.add (v3x a) (v3x b)) (F32.add (v3y a) (v3y b)) (F32.add (v3z a) (v3z b)).
Definition vec3_sub (a b : vec3) : vec3 :=
  mkVec3 (F32.sub (v3x a) (v3x b)) (F32.sub (v3y a) (v3y b)) (F32.sub (v3z a) (v3z b)).
Definition vec3_scale (k : float) (a : vec3) : vec3 :=
  mkVec3 (F32.mul k (v3x a)) (F32.mul k (v3y a)) (F32.mul k (v3z a)).
Definition vec3_mul (a b : vec3) : vec3 :=
  mkVec3 (F32.mul (v3x a) (v3x b)) (F32.mul (v3y a) (v3y b)) (F32.mul (v3z a) (v3z b)).
Definition vec3_neg (a : vec3) : vec3 :=
  mkVec3 (F32.opp (v3x a)) (F32.opp (v3y a)) (F32.opp (v3z a)).

(** ** The ray tracing facility *)

(** One intersection of a ray with the scene: the distance along the ray,
    the shader binding table record of the mesh that was hit, the triangle
    and the barycentric coordinates inside it. *)
Record Hit := mkHit {
  hit_t : float;
  hit_sbt : Z;
  hit_prim : Z;
  hit_u : float;
  hit_v : float
}.

(** A traversable handle gives, for an origin and a direction, every
    intersection of the ray with the geometry. *)
Definition Traversable : Type := vec3 -> vec3 -> list Hit.

(** The shader binding table record of a mesh ([MeshSBTData] and its
    variants): device pointers to the geometry and the object number. *)
Record MeshSBTData := mkMeshSBTData {
  sbt_vertex : Z -> vec3;
  sbt_index : Z -> ivec3;
  sbt_texcoord : Z -> vec2;
  sbt_objectNr : Z
}.

Definition in_ray_interval (tmin tmax : float) (h : Hit) : bool :=
  F32.leb tmin (hit_t h) && F32.leb (hit_t h) tmax.

Fixpoint closest_of (best : Hit) (hs : list Hit) : Hit :=
  match hs with
  | [] => best
  | h :: hs' => closest_of (if F32.ltb (hit_t h) (hit_t best) then h else best) hs'
  end.

Definition closest_hit (trav : Traversable) (o d : vec3) (tmin tmax : float)
  : option Hit :=
  match filter (fun h => in_ray_interval tmin tmax h = true) (trav o d) with
  | [] => None
  | h :: hs => Some (closest_of h hs)
  end.

(** [optixTrace] with any-hit disabled: the closest-hit program of the
    intersection nearest to the origin inside [tmin, tmax] runs on the
    payload, or the miss program when there is none. *)
Definition optixTrace {P : Type} (closesthit : Hit -> P -> P) (miss : P -> P)
    (trav : Traversable) (o d : vec3) (tmin tmax : float) (payload : P) : P :=
  match closest_hit trav o d tmin tmax with
  | Some h => closesthit h payload
  | None => miss payload
  end.

(** Texture coordinate of a hit, interpolated over the triangle:
    [(1 - u - v) * tc0 + u * tc1 + v * tc2]. *)
Definition barycentric_texcoord (sbtData : MeshSBTData) (h : Hit) : vec2 :=
  let index := sbt_index sbtData (hit_prim h) in
  let u := hit_u h in
  let v := hit_v h in
  vec2_add
    (vec2_add
       (vec2_scale (F32.sub (F32.sub F32.one u) v) (sbt_texcoord sbtData (i3x index)))
       (vec2_scale u (sbt_texcoord sbtData (i3y index))))
    (vec2_scale v (sbt_texcoord sbtData (i3z index))).

(** An intersection without its distance. *)
Definition forget_distance (h : Hit) : Z * Z * float * float :=
  (hit_sbt h, hit_prim h, hit_u h, hit_v h).

(** The tmax of the full-range traces, [1e20f]. *)
Definition tmax_far : float := F32.of_int (10 ^ 20).

(** Packing of a 64-bit pointer into two payload registers. *)
Definition packPointer (ptr : Z) : Z * Z :=
  (uint32 (Z.shiftr ptr 32), Z.land ptr 0x00000000ffffffff).
Definition unpackPointer (i0 i1 : Z) : Z :=
  Z.lor (Z.shiftl i0 32) i1.

(** A packed 32-bit colour with the alpha channel forced to 0xff. *)
Definition pack_rgba (r g b : Z) : Z :=
  Z.lor (Z.lor (Z.lor 0xff000000 (uint32 (Z.shiftl r 0))) (uint32 (Z.shiftl g 8)))
        (uint32 (Z.shiftl b 16)).

(** The packed colour of a texel without radiance. *)
Definition black : Z := 0xff000000.

(** ** Direct lighting pass *)

Module DirectLighting.

Definition NUM_SAMPLES_PER_STRATIFY_CELL : Z := 64.

Record LightData := mkLightData {
  origin : vec3;
  du : vec3;
  dv : vec3;
  normal : vec3;
  power : vec3;
  width : float;
  height : float
}.

(** [LaunchParamsDirectLighting] without the colour buffer, which is
    threaded through the kernel as the state it updates. *)
Record LaunchParams := mkLaunchParams {
  lights : Z -> LightData;
  stratifyResX : Z;
  stratifyResY : Z;
  directLightingTexture_size : Z;
  traversable : Traversable;
  sbt : Z -> MeshSBTData
}.

(** [__closesthit__radiance__direct__lighting]: the per-ray data receives
    the texture coordinate of the intersection. *)
Definition closesthit (p : LaunchParams) (h : Hit) (prd : vec2) : vec2 :=
  barycentric_texcoord (sbt p (hit_sbt h)) h.

(** [__miss__radiance__direct__lighting]: the sentinel (-1, -1). *)
Definition miss (prd : vec2) : vec2 :=
  mkVec2 (F32.opp F32.one) (F32.opp F32.one).

Definition light_rgba (l : LightData) : Z :=
  let c := F32.decimal 25599 2 in
  let r := F32.to_int (F32.mul c (v3x (power l))) in
  let g := F32.to_int (F32.mul c (v3y (power l))) in
  let b := F32.to_int (F32.mul c (v3z (power l))) in
  pack_rgba r g b.

Definition texel_index (p : LaunchParams) (tc : vec2) : Z :=
  F32.to_uint (F32.add (v2x tc)
                 (F32.mul (v2y tc) (F32.of_int (directLightingTexture_size p)))).

Definition is_hit (tc : vec2) : bool :=
  negb (F32.eqb (v2x tc) (F32.opp F32.one)) &&
  negb (F32.eqb (v2y tc) (F32.opp F32.one)).

Definition stratifyCellWidth (p : LaunchParams) (l : LightData) : float :=
  F32.div (width l) (F32.of_int (stratifyResX p)).
Definition stratifyCellHeigth (p : LaunchParams) (l : LightData) : float :=
  F32.div (height l) (F32.of_int (stratifyResY p)).

Definition cellOrigin (p : LaunchParams) (l : LightData) (sx sy : Z) : vec3 :=
  vec3_add
    (vec3_add (origin l)
       (vec3_scale (F32.mul (F32.of_int sx) (stratifyCellWidth p l)) (du l)))
    (vec3_scale (F32.mul (F32.of_int sy) (stratifyCellHeigth p l)) (dv l)).

Definition rayOrigin (p : LaunchParams) (l : LightData) (sx sy i : Z) : vec3 :=
  let cellXOffset := F32.of_int (Z.quot i NUM_SAMPLES_PER_STRATIFY_CELL) in
  let cellYOffset := F32.of_int (Z.quot i NUM_SAMPLES_PER_STRATIFY_CELL) in
  vec3_add
    (vec3_add (cellOrigin p l sx sy)
       (vec3_scale (F32.mul cellXOffset (stratifyCellWidth p l)) (du l)))
    (vec3_scale (F32.mul cellYOffset (stratifyCellHeigth p l)) (dv l)).

(** The per-ray data after the trace of sample [i]. *)
Definition trace_sample (p : LaunchParams) (l : LightData) (sx sy i : Z) : vec2 :=
  let rayTexCoordPRD := mkVec2 F32.zero F32.zero in
  optixTrace (closesthit p) miss (traversable p)
    (rayOrigin p l sx sy i) (normal l) F32.zero tmax_far rayTexCoordPRD.

(** One iteration of the sample loop on the colour buffer. *)
Definition sample (p : LaunchParams) (l : LightData) (sx sy i : Z)
    (colorBuffer : gmap Z Z) : gmap Z Z :=
  let rayTexCoordPRD := trace_sample p l sx sy i in
  if is_hit rayTexCoordPRD
  then <[texel_index p rayTexCoordPRD := light_rgba l]> colorBuffer
  else colorBuffer.

Fixpoint sample_loop (p : LaunchParams) (l : LightData) (sx sy : Z)
    (n : nat) (i : Z) (colorBuffer : gmap Z Z) : gmap Z Z :=
  match n with
  | O => colorBuffer
  | S n' => sample_loop p l sx sy n' (i + 1) (sample p l sx sy i colorBuffer)
  end.

(** [__raygen__renderFrame__direct__lighting] for the launch index
    [(lightIndex, stratifyIndexX, stratifyIndexY)]. *)
Definition raygen (p : LaunchParams) (lightIndex stratifyIndexX stratifyIndexY : Z)
    (colorBuffer : gmap Z Z) : gmap Z Z :=
  let lightProperties := lights p lightIndex in
  sample_loop p lightProperties stratifyIndexX stratifyIndexY
    (Z.to_nat NUM_SAMPLES_PER_STRATIFY_CELL) 0 colorBuffer.

End DirectLighting.

(** ** Device helpers that live in headers outside this development

    [random.hpp] ([tea], [rnd]), [vec_math.hpp] ([dot], [normalize]),
    [cube_mapping.cuh], the octree texture accessors and the trigonometric
    functions of the device are taken as an interface; every result below
    holds for all of its implementations. [rnd] returns the drawn number
    together with the updated generator state. *)

Class DeviceLibrary := {
  tea4 : Z -> Z -> Z;
  rnd : Z -> float * Z;
  sqrtf : float -> float;
  cosf : float -> float;
  sinf : float -> float;
  dot : vec3 -> vec3 -> float;
  normalize : vec3 -> vec3;
  convert_uv_to_cube_xyz : Z -> float -> float -> vec3;
  convert_xyz_to_cube_uv : float -> float -> float -> Z * float * float;
  OctreeTexture : Type;
  read_octree : vec3 -> OctreeTexture -> vec3;
  write_octree : vec3 -> vec3 -> OctreeTexture -> OctreeTexture
}.

(** A texture object sampled with [tex2D<float4>]. *)
Definition TextureObject : Type := float -> float -> float4.

Definition tex2D (t : TextureObject) (x y : float) : float4 := t x y.

(** ** Cubemap gather pass *)

Module CubeMapGather.

(** [LaunchParamsRadianceCellGatherCubeMap]; the cubemap buffer is the
    state the kernel updates. *)
Record LaunchParams := mkLaunchParams {
  probePosition : vec3;
  cubeMapResolution : Z;
  probeOffset : Z;
  sceneTraversable : Traversable;
  lightSourceTexture_size : Z;
  lightSourceTexture_colorBuffer : Z -> Z;
  sbt : Z -> MeshSBTData
}.

(** The three payload registers of a ray. *)
Record Payload := mkPayload { p0 : Z; p1 : Z; p2 : Z }.

Record RadianceCellGatherPRDAlt := mkPRD { resultColor : vec3 }.

Definition loadRadianceCellGatherPRD (pl : Payload) : RadianceCellGatherPRDAlt :=
  mkPRD (mkVec3 (F32.uint_as_float (p0 pl)) (F32.uint_as_float (p1 pl))
                (F32.uint_as_float (p2 pl))).

Definition storeRadianceCellGatherPRD (prd : RadianceCellGatherPRDAlt) : Payload :=
  mkPayload (F32.float_as_uint (v3x (resultColor prd)))
            (F32.float_as_uint (v3y (resultColor prd)))
            (F32.float_as_uint (v3z (resultColor prd))).

(** [__closesthit__radiance__cell__gathering__scene] *)
Definition closesthit (p : LaunchParams) (h : Hit) (pl : Payload) : Payload :=
  let tc := barycentric_texcoord (sbt p (hit_sbt h)) h in
  let size := lightSourceTexture_size p in
  let uTexelCoord := F32.to_int (F32.mul (v2x tc) (F32.of_int size)) in
  let vTexelCoord := F32.to_int (F32.mul (v2y tc) (F32.of_int size)) in
  let lightSrcColor :=
    lightSourceTexture_colorBuffer p (int32 (int32 (vTexelCoord * size) + uTexelCoord)) in
  let r := Z.land 0x000000ff lightSrcColor in
  let g := Z.shiftr (Z.land 0x0000ff00 lightSrcColor) 8 in
  let b := Z.shiftr (Z.land 0x00ff0000 lightSrcColor) 16 in
  let prd := loadRadianceCellGatherPRD pl in
  let prd := mkPRD (mkVec3 (F32.of_int r) (F32.of_int g) (F32.of_int b)) in
  storeRadianceCellGatherPRD prd.

(** [__miss__radiance__cell__gathering] *)
Definition miss (pl : Payload) : Payload :=
  let prd := loadRadianceCellGatherPRD pl in
  let prd := mkPRD (mkVec3 F32.zero F32.zero F32.zero) in
  storeRadianceCellGatherPRD prd.

Definition texel_index (p : LaunchParams) (uPixel vPixel faceIndex : Z) : Z :=
  let res := cubeMapResolution p in
  let uvIndex := int32 (int32 (vPixel * res) + uPixel) in
  int32 (int32 (probeOffset p + int32 (faceIndex * int32 (res * res))) + uvIndex).

Section Kernel.
Context `{DeviceLibrary}.

(** The payload registers after the trace of launch index
    [(uPixel, vPixel, faceIndex)]; [uninit] is the indeterminate content
    of the registers before the trace. *)
Definition trace_texel (p : LaunchParams) (uninit : Payload)
    (uPixel vPixel faceIndex : Z) : Payload :=
  let u := F32.div (F32.of_int uPixel) (F32.of_int (cubeMapResolution p)) in
  let v := F32.div (F32.of_int vPixel) (F32.of_int (cubeMapResolution p)) in
  let rayDir := convert_uv_to_cube_xyz faceIndex u v in
  let normalizedRayDir := normalize rayDir in
  optixTrace (closesthit p) miss (sceneTraversable p)
    (probePosition p) normalizedRayDir F32.zero tmax_far uninit.

Definition texel_rgba (pl : Payload) : Z :=
  let prd := mkPRD (mkVec3 (F32.uint_as_float (p0 pl)) (F32.uint_as_float (p1 pl))
                           (F32.uint_as_float (p2 pl))) in
  let r := F32.to_int (v3x (resultColor prd)) in
  let g := F32.to_int (v3y (resultColor prd)) in
  let b := F32.to_int (v3z (resultColor prd)) in
  pack_rgba r g b.

(** [__raygen__renderFrame__cell__gathering] *)
Definition raygen (p : LaunchParams) (uninit : Payload)
    (uPixel vPixel faceIndex : Z) (cubeMaps : gmap Z Z) : gmap Z Z :=
  let pl := trace_texel p uninit uPixel vPixel faceIndex in
  <[texel_index p uPixel vPixel faceIndex := texel_rgba pl]> cubeMaps.

(** [optixLaunch] with the dimensions [width], [height] and [depth] starts
    one thread per launch index [(u, v, f)] below them. *)
Definition launch_grid (width height depth : Z) : list (Z * Z * Z) :=
  f ← seqZ 0 depth; v ← seqZ 0 height; u ← seqZ 0 width; [(u, v, f)].

(** The threads of a launch run one after the other, in the order of a list
    of launch indices; [uninit] gives each its indeterminate registers. *)
Definition run_threads (p : LaunchParams) (uninit : Z * Z * Z -> Payload)
    (threads : list (Z * Z * Z)) (cubeMaps : gmap Z Z) : gmap Z Z :=
  foldl (fun buf '(u, v, f) => raygen p (uninit (u, v, f)) u v f buf) cubeMaps threads.

Definition launch (p : LaunchParams) (uninit : Z * Z * Z -> Payload)
    (width height depth : Z) (cubeMaps : gmap Z Z) : gmap Z Z :=
  run_threads p uninit (launch_grid width height depth) cubeMaps.
End Kernel.

End CubeMapGather.

(** ** Scatter passes *)

Section RandomDirection.
Context `{DeviceLibrary}.

(** Two draws of the generator mapped to a direction on the unit sphere
    (equal-area projection); returns the direction and the new seed. *)
Definition random_direction (seed : Z) : vec3 * Z :=
  let '(rx, seed1) := rnd seed in
  let '(ry, seed2) := rnd seed1 in
  let randomTheta := F32.mul (F32.mul rx F32.two) F32.PI in
  let randomZ := F32.sub (F32.mul ry F32.two) F32.one in
  let k := sqrtf (F32.sub F32.one (F32.mul randomZ randomZ)) in
  (mkVec3 (F32.mul k (cosf randomTheta)) (F32.mul k (sinf randomTheta)) randomZ, seed2).

(** The generator state after the two draws of one sample. *)
Definition next_seed (seed : Z) : Z := snd (rnd (snd (rnd seed))).

(** The generator states at the start of the first [n] samples of a
    thread, and the directions drawn from them. *)
Fixpoint seed_sequence (n : nat) (seed : Z) : list Z :=
  match n with
  | O => []
  | S n' => seed :: seed_sequence n' (next_seed seed)
  end.

End RandomDirection.

(** The hybrid kernel: traced contribution inside the tracing range, cubemap
    probe otherwise. *)
Module ScatterHybrid.

Definition NUM_SAMPLES_HEMISPHERE : Z := 10.
Definition TRACING_RANGE : float := F32.zero.

(** [LaunchParamsRadianceCellScatterCubeMap]; the surfaces of the current
    bounce are the state the kernel updates. *)
Record LaunchParams := mkLaunchParams {
  nonEmptyCellIndex : Z;
  cellCoords : ivec3;
  probeWidthRes : Z;
  probeHeightRes : Z;
  uvsInsideOffsets : Z -> Z;
  uvsInside : Z -> vec2;
  uvGameObjectNrs : Z -> Z;
  uvPositions : Z -> TextureObject;
  uvNormals : Z -> TextureObject;
  uvDiffuseColors : Z -> TextureObject;
  hasTexture : Z -> bool;
  diffuseTextureUVs : Z -> TextureObject;
  diffuseTextures : Z -> TextureObject;
  cellCenter : vec3;
  cubeMapResolution : Z;
  cubeMaps : Z -> TextureObject;
  prevBounceTextures : Z -> TextureObject;
  objectTextureResolutions : Z -> Z;
  sceneTraversable : Traversable;
  sbt : Z -> MeshSBTData
}.

(** The four payload registers: the hit-found flag and the colour. *)
Record Payload := mkPayload { p0 : Z; p1 : Z; p2 : Z; p3 : Z }.

Record RadianceCellScatterPRDHybrid := mkPRD { hitFound : Z; resultColor : vec3 }.

Definition loadRadianceCellScatterPRD (pl : Payload) : RadianceCellScatterPRDHybrid :=
  mkPRD (p0 pl)
    (mkVec3 (F32.uint_as_float (p1 pl)) (F32.uint_as_float (p2 pl))
            (F32.uint_as_float (p3 pl))).

Definition storeRadianceCellScatterPRD (prd : RadianceCellScatterPRDHybrid) : Payload :=
  mkPayload (hitFound prd)
    (F32.float_as_uint (v3x (resultColor prd)))
    (F32.float_as_uint (v3y (resultColor prd)))
    (F32.float_as_uint (v3z (resultColor prd))).

(** [__closesthit__radiance__cell__scattering__scene] *)
Definition closesthit (p : LaunchParams) (h : Hit) (pl : Payload) : Payload :=
  let sbtData := sbt p (hit_sbt h) in
  let tc := barycentric_texcoord sbtData h in
  let incomingRadiance :=
    tex2D (prevBounceTextures p (sbt_objectNr sbtData)) (v2x tc) (v2y tc) in
  let prd := loadRadianceCellScatterPRD pl in
  let prd := mkPRD 1 (resultColor prd) in
  let prd := mkPRD (hitFound prd)
               (mkVec3 (f4x incomingRadiance) (f4y incomingRadiance)
                       (f4z incomingRadiance)) in
  storeRadianceCellScatterPRD prd.

(** [__miss__radiance__cell__scattering]: does nothing. *)
Definition miss (pl : Payload) : Payload := pl.

(** What a thread reads before its sample loop. *)
Record ThreadContext := mkThreadContext {
  uv : vec2;
  gameObjectNr : Z;
  UVWorldPos : vec3;
  UVNormal : vec3;
  diffuseColor : vec3;
  probeOffset : Z
}.

Definition thread_context (p : LaunchParams) (uvIndex : Z) : ThreadContext :=
  let uvInsideOffset := uvsInsideOffsets p (nonEmptyCellIndex p) in
  let uv := uvsInside p (int32 (uvInsideOffset + uvIndex)) in
  let gameObjectNr := uvGameObjectNrs p (int32 (uvInsideOffset + uvIndex)) in
  let uvWorldPos3f := tex2D (uvPositions p gameObjectNr) (v2x uv) (v2y uv) in
  let uvWorldNormal3f := tex2D (uvNormals p gameObjectNr) (v2x uv) (v2y uv) in
  let uvDiffuseColor3f := tex2D (uvDiffuseColors p gameObjectNr) (v2x uv) (v2y uv) in
  let UVWorldPos := mkVec3 (f4x uvWorldPos3f) (f4y uvWorldPos3f) (f4z uvWorldPos3f) in
  let UVNormal :=
    mkVec3 (f4x uvWorldNormal3f) (f4y uvWorldNormal3f) (f4z uvWorldNormal3f) in
  let diffuseColor :=
    if hasTexture p gameObjectNr then
      let diffuseTextureUV :=
        tex2D (diffuseTextureUVs p gameObjectNr) (v2x uv) (v2y uv) in
      let diffuseTexColor :=
        tex2D (diffuseTextures p 0) (f4x diffuseTextureUV) (f4y diffuseTextureUV) in
      mkVec3 (f4x diffuseTexColor) (f4y diffuseTexColor) (f4z diffuseTexColor)
    else
      mkVec3 (f4x uvDiffuseColor3f) (f4y uvDiffuseColor3f) (f4z uvDiffuseColor3f) in
  let eps := F32.decimal 1 4 in
  let UVWorldPos :=
    mkVec3 (F32.add (v3x UVWorldPos) (F32.mul (v3x UVNormal) eps))
           (F32.add (v3y UVWorldPos) (F32.mul (v3y UVNormal) eps))
           (F32.add (v3z UVWorldPos) (F32.mul (v3z UVNormal) eps)) in
  let c := cellCoords p in
  let probeOffset :=
    int32 (int32 (int32 (int32 (int32 (i3z c * probeWidthRes p) * probeHeightRes p)
                         + int32 (i3y c * probeWidthRes p))
                  + i3x c) * 6) in
  mkThreadContext uv gameObjectNr UVWorldPos UVNormal diffuseColor probeOffset.

Section Kernel.
Context `{DeviceLibrary}.

Definition thread_seed (p : LaunchParams) (uvIndex : Z) : Z :=
  uint32 (tea4 (uint32 uvIndex) (uint32 (nonEmptyCellIndex p))).

(** Direction of a sample, normalised and flipped into the hemisphere of
    the normal, with the cosine computed before the flip. *)
Definition orient_direction (ctx : ThreadContext) (randomDir : vec3) : vec3 * float :=
  let randomDir := normalize randomDir in
  let cosContribution := dot randomDir (normalize (UVNormal ctx)) in
  (if F32.ltb cosContribution F32.zero then vec3_neg randomDir else randomDir,
   cosContribution).

(** The payload registers after the trace; [uninit] is the indeterminate
    content of the three colour registers before it. *)
Definition trace_sample (p : LaunchParams) (ctx : ThreadContext)
    (uninit : Z * Z * Z) (randomDir : vec3) : Payload :=
  let prd := mkPRD 0 vec3_zero in
  let u0 := hitFound prd in
  optixTrace (closesthit p) miss (sceneTraversable p)
    (UVWorldPos ctx) randomDir F32.zero TRACING_RANGE
    (mkPayload u0 uninit.1.1 uninit.1.2 uninit.2).

Definition traced_contribution (cosContribution : float) (pl : Payload) : vec3 :=
  let resultColor :=
    mkVec3 (F32.uint_as_float (p1 pl)) (F32.uint_as_float (p2 pl))
           (F32.uint_as_float (p3 pl)) in
  mkVec3 (F32.mul cosContribution (v3x resultColor))
         (F32.mul cosContribution (v3y resultColor))
         (F32.mul cosContribution (v3z resultColor)).

Definition probe_contribution (p : LaunchParams) (ctx : ThreadContext)
    (randomDir : vec3) (cosContribution : float) : vec3 :=
  let probeCoord := cellCenter p in
  let distantProjectedPoint :=
    vec3_add (UVWorldPos ctx)
      (mkVec3 (F32.mul (v3x randomDir) F32.one) (F32.mul (v3y randomDir) F32.one)
              (F32.mul (v3z randomDir) F32.one)) in
  let probeSampleDirection := vec3_sub distantProjectedPoint probeCoord in
  let '(cubeMapFaceIndex, faceU, faceV) :=
    convert_xyz_to_cube_uv (v3x probeSampleDirection) (v3y probeSampleDirection)
      (v3z probeSampleDirection) in
  let incomingRadiance :=
    tex2D (cubeMaps p (int32 (probeOffset ctx + cubeMapFaceIndex))) faceU faceV in
  let averageProbeContribution :=
    vec3_add vec3_zero
      (mkVec3 (f4x incomingRadiance) (f4y incomingRadiance) (f4z incomingRadiance)) in
  vec3_scale cosContribution averageProbeContribution.

(** The choice between the two contributions, on the payload registers
    that come back from the trace. *)
Definition select_contribution (p : LaunchParams) (ctx : ThreadContext)
    (randomDir : vec3) (cosContribution : float) (pl : Payload) : vec3 :=
  if p0 pl =? 1
  then traced_contribution cosContribution pl
  else probe_contribution p ctx randomDir cosContribution.

(** One iteration of the sample loop: the radiance it adds to the
    accumulator and the generator state it leaves. *)
Definition sample_step (p : LaunchParams) (ctx : ThreadContext)
    (uninit : Z * Z * Z) (seed : Z) : vec3 * Z :=
  let '(randomDir, seed') := random_direction seed in
  let '(randomDir, cosContribution) := orient_direction ctx randomDir in
  let pl := trace_sample p ctx uninit randomDir in
  (select_contribution p ctx randomDir cosContribution pl, seed').

(** The sample loop: [n] iterations left, [s] the loop counter. *)
Fixpoint sample_loop (p : LaunchParams) (ctx : ThreadContext)
    (uninit : Z -> Z * Z * Z) (n : nat) (s : Z) (seed : Z) (totalRadiance : vec3)
  : Z * vec3 :=
  match n with
  | O => (seed, totalRadiance)
  | S n' =>
      let '(contribution, seed') := sample_step p ctx (uninit s) seed in
      sample_loop p ctx uninit n' (s + 1) seed' (vec3_add totalRadiance contribution)
  end.

Definition monte_carlo_weight : float :=
  F32.mul (F32.mul (F32.of_int NUM_SAMPLES_HEMISPHERE) F32.two) F32.PI.

(** The value a thread writes. *)
Definition result_value (p : LaunchParams) (uninit : Z -> Z * Z * Z) (uvIndex : Z)
  : float4 :=
  let ctx := thread_context p uvIndex in
  let seed := thread_seed p uvIndex in
  let totalRadiance :=
    snd (sample_loop p ctx uninit (Z.to_nat NUM_SAMPLES_HEMISPHERE) 0 seed vec3_zero) in
  let totalRadiance := vec3_mul totalRadiance (diffuseColor ctx) in
  let r := F32.div (v3x totalRadiance) monte_carlo_weight in
  let g := F32.div (v3y totalRadiance) monte_carlo_weight in
  let b := F32.div (v3z totalRadiance) monte_carlo_weight in
  mkFloat4 r g b F32.zero.

(** Surface, byte offset in the row and row of the texel a thread
    writes. *)
Definition texel_address (p : LaunchParams) (uvIndex : Z) : Z * Z * Z :=
  let ctx := thread_context p uvIndex in
  let res := F32.of_int (objectTextureResolutions p (gameObjectNr ctx)) in
  (gameObjectNr ctx,
   int32 (F32.to_int (F32.div (F32.mul (v2x (uv ctx)) res) F32.two) * 16),
   F32.to_int (F32.div (F32.mul (v2y (uv ctx)) res) F32.two)).

(** [__raygen__renderFrame__cell__scattering] on the surfaces of the
    current bounce ([surf2Dwrite]). *)
Definition raygen (p : LaunchParams) (uninit : Z -> Z * Z * Z) (uvIndex : Z)
    (currentBounceTextures : gmap (Z * Z * Z) float4) : gmap (Z * Z * Z) float4 :=
  <[texel_address p uvIndex := result_value p uninit uvIndex]> currentBounceTextures.

(** The threads of a launch run one after the other, in the order of
    [threads], on the surfaces they share; [uninit i] gives thread [i] its
    indeterminate registers. *)
Definition run_threads (p : LaunchParams) (uninit : Z -> Z -> Z * Z * Z)
    (threads : list Z) (currentBounceTextures : gmap (Z * Z * Z) float4)
  : gmap (Z * Z * Z) float4 :=
  foldl (fun surfaces uvIndex => raygen p (uninit uvIndex) uvIndex surfaces)
        currentBounceTextures threads.

(** The same launch over another scene. *)
Definition with_scene (p : LaunchParams) (trav : Traversable) : LaunchParams :=
  mkLaunchParams (nonEmptyCellIndex p) (cellCoords p) (probeWidthRes p)
    (probeHeightRes p) (uvsInsideOffsets p) (uvsInside p) (uvGameObjectNrs p)
    (uvPositions p) (uvNormals p) (uvDiffuseColors p) (hasTexture p)
    (diffuseTextureUVs p) (diffuseTextures p) (cellCenter p) (cubeMapResolution p)
    (cubeMaps p) (prevBounceTextures p) (objectTextureResolutions p) trav (sbt p).

(** The radiance contributions of the samples [s], [s + 1], ... of a
    thread, one per generator state of the sequence. *)
Definition sample_contributions (p : LaunchParams) (ctx : ThreadContext)
    (uninit : Z -> Z * Z * Z) (n : nat) (s : Z) (seed : Z) : list vec3 :=
  zip_with (fun k sd => fst (sample_step p ctx (uninit k) sd))
           (seqZ s (Z.of_nat n)) (seed_sequence n seed).
End Kernel.

End ScatterHybrid.

(** The unbiased kernel on the octree texture: every sample is traced over
    the full range. *)
Module ScatterUnbiased.

Definition NUM_DIRECTION_SAMPLES : Z := 100.

Record UVWorldData := mkUVWorldData {
  worldPosition : vec3;
  worldNormal : vec3;
  diffuseColor : vec3
}.

Section Kernel.
Context `{DeviceLibrary}.

(** [LaunchParamsRadianceCellScatterUnbiasedOctree]; the octree texture
    of the current bounce is the state the kernel updates. *)
Record LaunchParams := mkLaunchParams {
  nonEmptyCellIndex : Z;
  uvsInsideOffsets : Z -> Z;
  uvsInside : Z -> vec2;
  uvWorldPositions_size : Z;
  uvWorldPositions_UVDataBuffer : Z -> UVWorldData;
  prevBounceOctreeTexture : OctreeTexture;
  sceneTraversable : Traversable;
  sbt : Z -> MeshSBTData
}.

Record Payload := mkPayload { p0 : Z; p1 : Z; p2 : Z }.

Record RadianceCellScatterUnbiasedPRD := mkPRD { resultColor : vec3 }.

Definition loadRadianceCellScatterUnbiasedPRD (pl : Payload)
  : RadianceCellScatterUnbiasedPRD :=
  mkPRD (mkVec3 (F32.uint_as_float (p0 pl)) (F32.uint_as_float (p1 pl))
                (F32.uint_as_float (p2 pl))).

Definition storeRadianceCellScatterUnbiasedPRD (prd : RadianceCellScatterUnbiasedPRD)
  : Payload :=
  mkPayload (F32.float_as_uint (v3x (resultColor prd)))
            (F32.float_as_uint (v3y (resultColor prd)))
            (F32.float_as_uint (v3z (resultColor prd))).

(** [__closesthit__radiance__cell__scattering__scene__unbiased] *)
Definition closesthit (p : LaunchParams) (h : Hit) (pl : Payload) : Payload :=
  let sbtData := sbt p (hit_sbt h) in
  let index := sbt_index sbtData (hit_prim h) in
  let u := hit_u h in
  let v := hit_v h in
  let worldPos :=
    vec3_add
      (vec3_add
         (vec3_scale (F32.sub (F32.sub F32.one u) v) (sbt_vertex sbtData (i3x index)))
         (vec3_scale u (sbt_vertex sbtData (i3y index))))
      (vec3_scale v (sbt_vertex sbtData (i3z index))) in
  let incomingRadiance := read_octree worldPos (prevBounceOctreeTexture p) in
  let prd := loadRadianceCellScatterUnbiasedPRD pl in
  let prd := mkPRD incomingRadiance in
  storeRadianceCellScatterUnbiasedPRD prd.

(** [__miss__radiance__cell__scattering__unbiased] *)
Definition miss (pl : Payload) : Payload :=
  let prd := loadRadianceCellScatterUnbiasedPRD pl in
  let prd := mkPRD (mkVec3 F32.zero F32.zero F32.zero) in
  storeRadianceCellScatterUnbiasedPRD prd.

Definition thread_seed (p : LaunchParams) (uvIndex : Z) : Z :=
  uint32 (tea4 (uint32 uvIndex) (uint32 (nonEmptyCellIndex p))).

Definition thread_data (p : LaunchParams) (uvIndex : Z) : UVWorldData :=
  let uvInsideOffset := uvsInsideOffsets p (nonEmptyCellIndex p) in
  let uv := uvsInside p (int32 (uvInsideOffset + uvIndex)) in
  let size := uvWorldPositions_size p in
  let u := F32.to_int (F32.mul (v2x uv) (F32.of_int size)) in
  let v := F32.to_int (F32.mul (v2y uv) (F32.of_int size)) in
  uvWorldPositions_UVDataBuffer p (int32 (int32 (v * size) + u)).

(** The world position of the texel, nudged along the normal. *)
Definition UVWorldPos (p : LaunchParams) (uvIndex : Z) : vec3 :=
  let d := thread_data p uvIndex in
  let eps := F32.decimal 1 5 in
  mkVec3 (F32.add (v3x (worldPosition d)) (F32.mul (v3x (worldNormal d)) eps))
         (F32.add (v3y (worldPosition d)) (F32.mul (v3y (worldNormal d)) eps))
         (F32.add (v3z (worldPosition d)) (F32.mul (v3z (worldNormal d)) eps)).

(** One iteration of the sample loop: the radiance it adds to the
    accumulator and the generator state it leaves. *)
Definition sample_step (p : LaunchParams) (uvIndex : Z) (uninit : Payload)
    (seed : Z) : vec3 * Z :=
  let uvNormal3f := worldNormal (thread_data p uvIndex) in
  let '(randomDir, seed') := random_direction seed in
  let randomDir :=
    if F32.ltb (dot randomDir uvNormal3f) F32.zero
    then vec3_neg randomDir else randomDir in
  let pl :=
    optixTrace (closesthit p) miss (sceneTraversable p)
      (UVWorldPos p uvIndex) randomDir F32.zero tmax_far uninit in
  let prd := loadRadianceCellScatterUnbiasedPRD pl in
  let cosContribution := dot (normalize randomDir) (normalize uvNormal3f) in
  (mkVec3 (F32.mul cosContribution (v3x (resultColor prd)))
          (F32.mul cosContribution (v3y (resultColor prd)))
          (F32.mul cosContribution (v3z (resultColor prd))),
   seed').

(** The sample loop: [n] iterations left, [i] the loop counter. *)
Fixpoint sample_loop (p : LaunchParams) (uvIndex : Z) (uninit : Z -> Payload)
    (n : nat) (i : Z) (seed : Z) (totalRadiance : vec3) (numSamples : Z)
  : Z * vec3 * Z :=
  match n with
  | O => (seed, totalRadiance, numSamples)
  | S n' =>
      let '(contribution, seed') := sample_step p uvIndex (uninit i) seed in
      sample_loop p uvIndex uninit n' (i + 1) seed'
        (vec3_add totalRadiance contribution) (int32 (numSamples + 1))
  end.

(** The value a thread writes. *)
Definition result_value (p : LaunchParams) (uninit : Z -> Payload) (uvIndex : Z)
  : vec3 :=
  let '(_, totalRadiance, numSamples) :=
    sample_loop p uvIndex uninit (Z.to_nat NUM_DIRECTION_SAMPLES) 0
      (thread_seed p uvIndex) vec3_zero 0 in
  let w := F32.mul (F32.of_int numSamples) F32.PI in
  mkVec3 (F32.div (v3x totalRadiance) w) (F32.div (v3y totalRadiance) w)
         (F32.div (v3z totalRadiance) w).

(** [__raygen__renderFrame__cell__scattering__unbiased] *)
Definition raygen (p : LaunchParams) (uninit : Z -> Payload) (uvIndex : Z)
    (currentBounceOctreeTexture : OctreeTexture) : OctreeTexture :=
  write_octree (UVWorldPos p uvIndex) (result_value p uninit uvIndex)
    currentBounceOctreeTexture.

(** The radiance contributions of the samples [i], [i + 1], ... of a
    thread, one per generator state of the sequence. *)
Definition sample_contributions (p : LaunchParams) (uvIndex : Z)
    (uninit : Z -> Payload) (n : nat) (i : Z) (seed : Z) : list vec3 :=
  zip_with (fun k sd => fst (sample_step p uvIndex (uninit k) sd))
           (seqZ i (Z.of_nat n)) (seed_sequence n seed).
End Kernel.

End ScatterUnbiased.

(** ** Host side: unchecked element access of [std::vector]

    [operator[]] outside the bounds has no defined behaviour; the host
    functions below return [None] when they would perform such an access. *)

Definition vector_at {A : Type} (v : list A) (i : Z) : option A :=
  if i <? 0 then None else v !! Z.to_nat i.

(** ** Dump of the spherical harmonics weights *)

Module Weights.

Definition SPHERICAL_HARMONIC_BASIS_FUNCTIONS : Z := 9.

Definition space : string := String " "%char EmptyString.
Definition newline : string := String "010"%char EmptyString.

(** The normalisation weight of a sub-probe with [n] samples:
    [1.0f / (n * 4 * glm::pi<float>())], and 0 without samples. *)
Definition probe_weight (n : Z) : float :=
  if 0 <? n
  then F32.div F32.one (F32.mul (F32.of_int (int32 (n * 4))) F32.PI)
  else F32.zero.

Section Writer.
(** The text [operator<<] gives a [float]. *)
Variable show_float : float -> string.

(** The loop over the basis functions of one sub-probe, appending to the
    content [out] of the stream. *)
Fixpoint basis_loop (weights : list float) (cellOffset shOffset : Z)
    (weight : float) (n : nat) (bf : Z) (out : string) : option string :=
  match n with
  | O => Some out
  | S n' =>
      w ← vector_at weights (int32 (int32 (cellOffset + shOffset) + bf));
      let out :=
        if bf <? 8
        then out +:+ show_float (F32.mul w weight) +:+ space
        else out +:+ show_float (F32.mul w weight) in
      basis_loop weights cellOffset shOffset weight n' (bf + 1) out
  end.

(** The loop over the eight sub-probes of cell [i]. *)
Fixpoint probe_loop (weights : list float) (numSamples : list Z) (i cellOffset : Z)
    (n : nat) (sh : Z) (out : string) : option string :=
  match n with
  | O => Some out
  | S n' =>
      count ← vector_at numSamples (int32 (int32 (i * 8) + sh));
      let weight := probe_weight count in
      let shOffset := int32 (sh * SPHERICAL_HARMONIC_BASIS_FUNCTIONS) in
      out ← basis_loop weights cellOffset shOffset weight 9 0 out;
      probe_loop weights numSamples i cellOffset n' (sh + 1) (out +:+ newline)
  end.

(** The loop over the cells. *)
Fixpoint cell_loop (weights : list float) (numSamples : list Z)
    (n : nat) (i : Z) (out : string) : option string :=
  match n with
  | O => Some out
  | S n' =>
      let cellOffset := int32 (int32 (i * 8) * SPHERICAL_HARMONIC_BASIS_FUNCTIONS) in
      out ← probe_loop weights numSamples i cellOffset 8 0 out;
      cell_loop weights numSamples n' (i + 1) out
  end.

(** [Renderer::writeWeightsToTxtFile]: the content of the freshly opened
    file when the stream is closed. *)
Definition writeWeightsToTxtFile (weights : list float) (numSamples : list Z)
    (amountCells : Z) : option string :=
  cell_loop weights numSamples (Z.to_nat amountCells) 0 EmptyString.

(** *** The layout of the file, line by line *)

(** The nine coefficients of sub-probe [sh] of cell [i] and its number
    of samples. *)
Definition line_coefficients (weights : list float) (i sh : Z) : list float :=
  (fun bf => default F32.zero (vector_at weights (i * 72 + sh * 9 + bf))) <$> seqZ 0 9.

Definition sample_count (numSamples : list Z) (i sh : Z) : Z :=
  default 0 (vector_at numSamples (i * 8 + sh)).

(** The values printed on the line of sub-probe [sh] of cell [i]: the
    coefficients times the weight of the sub-probe. *)
Definition line_values (weights : list float) (numSamples : list Z) (i sh : Z)
  : list float :=
  (fun w => F32.mul w (probe_weight (sample_count numSamples i sh)))
    <$> line_coefficients weights i sh.

(** Tokens separated by one blank. *)
Fixpoint join_tokens (tokens : list string) : string :=
  match tokens with
  | [] => EmptyString
  | [t] => t
  | t :: rest => t +:+ space +:+ join_tokens rest
  end.

Definition line_text (values : list float) : string :=
  join_tokens (show_float <$> values) +:+ newline.

(** The line of a (cell, sub-probe) pair. *)
Definition pair_line (weights : list float) (numSamples : list Z) (pr : Z * Z)
  : string :=
  line_text (line_values weights numSamples pr.1 pr.2).

(** The (cell, sub-probe) pairs in cell-major order. *)
Definition probe_pairs (amountCells : Z) : list (Z * Z) :=
  i ← seqZ 0 amountCells; sh ← seqZ 0 8; [(i, sh)].

Fixpoint concat_lines (lines : list string) : string :=
  match lines with
  | [] => EmptyString
  | l :: rest => l +:+ concat_lines rest
  end.
End Writer.

End Weights.

(** ** Projection of a UV coordinate to the world *)

(** The parts of glm used by the projection that are kept abstract: the
    4x4 matrix type with its product with a column vector, and
    [glm::normalize]. *)
Class GlmLibrary := {
  mat4 : Type;
  mat4_mul_vec4 : mat4 -> float4 -> float4;
  glm_normalize : vec3 -> vec3
}.

Module UVMapping.

Record TriangleMesh := mkTriangleMesh {
  vertices : list vec3;
  normals : list vec3;
  texCoords : list vec2;
  indices : list ivec3
}.

(** The two members [UVto3D] sets. *)
Record UVWorldData := mkUVWorldData {
  worldPosition : vec3;
  worldNormal : vec3
}.

Definition not_found : UVWorldData :=
  let c := F32.opp (F32.of_int 1000) in
  mkUVWorldData (mkVec3 c c c) (mkVec3 c c c).

(** [Renderer::area]: signed area of the triangle [a b c]. *)
Definition area (a b c : vec2) : float :=
  let v1 := vec2_sub a c in
  let v2 := vec2_sub b c in
  F32.div (F32.sub (F32.mul (v2x v1) (v2y v2)) (F32.mul (v2y v1) (v2x v2))) F32.two.

Section Projection.
Context `{GlmLibrary}.

Record GameObject := mkGameObject {
  mesh : TriangleMesh;
  object2World : mat4
}.

(** The verdict of the loop body on one triangle. *)
Inductive Verdict :=
| Continue
| Return (d : UVWorldData).

(** The body of the loop over the triangles of [g]. *)
Definition triangle_body (g : GameObject) (triangle : ivec3) (uv : vec2)
  : option Verdict :=
  uv1 ← vector_at (texCoords (mesh g)) (i3x triangle);
  uv2 ← vector_at (texCoords (mesh g)) (i3y triangle);
  uv3 ← vector_at (texCoords (mesh g)) (i3z triangle);
  let a := area uv1 uv2 uv3 in
  if F32.eqb a F32.zero then Some Continue else
  let a1 := F32.div (area uv2 uv3 uv) a in
  if F32.ltb a1 F32.zero then Some Continue else
  let a2 := F32.div (area uv3 uv1 uv) a in
  if F32.ltb a2 F32.zero then Some Continue else
  let a3 := F32.div (area uv1 uv2 uv) a in
  if F32.ltb a3 F32.zero then Some Continue else
  p1 ← vector_at (vertices (mesh g)) (i3x triangle);
  p2 ← vector_at (vertices (mesh g)) (i3y triangle);
  p3 ← vector_at (vertices (mesh g)) (i3z triangle);
  let uvPosition :=
    vec3_add (vec3_add (vec3_scale a1 p1) (vec3_scale a2 p2)) (vec3_scale a3 p3) in
  n1 ← vector_at (normals (mesh g)) (i3x triangle);
  n2 ← vector_at (normals (mesh g)) (i3y triangle);
  n3 ← vector_at (normals (mesh g)) (i3z triangle);
  let uvNormal :=
    glm_normalize
      (vec3_add (vec3_add (vec3_scale a1 n1) (vec3_scale a2 n2)) (vec3_scale a3 n3)) in
  let w :=
    mat4_mul_vec4 (object2World g)
      (mkFloat4 (v3x uvPosition) (v3y uvPosition) (v3z uvPosition) F32.one) in
  Some (Return (mkUVWorldData (mkVec3 (f4x w) (f4y w) (f4z w)) uvNormal)).

Fixpoint triangle_loop (g : GameObject) (triangles : list ivec3) (uv : vec2)
  : option Verdict :=
  match triangles with
  | [] => Some Continue
  | triangle :: rest =>
      r ← triangle_body g triangle uv;
      match r with
      | Return d => Some (Return d)
      | Continue => triangle_loop g rest uv
      end
  end.

Fixpoint object_loop (gameObjects : list GameObject) (uv : vec2) : option Verdict :=
  match gameObjects with
  | [] => Some Continue
  | g :: rest =>
      r ← triangle_loop g (indices (mesh g)) uv;
      match r with
      | Return d => Some (Return d)
      | Continue => object_loop rest uv
      end
  end.

(** [Renderer::UVto3D] *)
Definition UVto3D (gameObjects : list GameObject) (uv : vec2) : option UVWorldData :=
  r ← object_loop gameObjects uv;
  match r with
  | Return d => Some d
  | Continue => Some not_found
  end.

(** *** The projection, triangle by triangle *)

Definition texcoord_of (g : GameObject) (i : Z) : vec2 :=
  default (mkVec2 F32.zero F32.zero) (vector_at (texCoords (mesh g)) i).
Definition vertex_of (g : GameObject) (i : Z) : vec3 :=
  default vec3_zero (vector_at (vertices (mesh g)) i).
Definition normal_of (g : GameObject) (i : Z) : vec3 :=
  default vec3_zero (vector_at (normals (mesh g)) i).

(** The barycentric area of a triangle in UV space. *)
Definition uv_area (g : GameObject) (t : ivec3) : float :=
  area (texcoord_of g (i3x t)) (texcoord_of g (i3y t)) (texcoord_of g (i3z t)).

Definition degenerate (g : GameObject) (t : ivec3) : bool :=
  F32.eqb (uv_area g t) F32.zero.

Definition barycentric (g : GameObject) (t : ivec3) (uv : vec2) : float * float * float :=
  let uv1 := texcoord_of g (i3x t) in
  let uv2 := texcoord_of g (i3y t) in
  let uv3 := texcoord_of g (i3z t) in
  let a := uv_area g t in
  (F32.div (area uv2 uv3 uv) a, F32.div (area uv3 uv1 uv) a,
   F32.div (area uv1 uv2 uv) a).

(** The point-in-triangle test: the triangle is not degenerate and no
    barycentric coordinate compares below zero. *)
Definition point_in_triangle (uv : vec2) (gt : GameObject * ivec3) : bool :=
  let '(g, t) := gt in
  let '(a1, a2, a3) := barycentric g t uv in
  negb (degenerate g t) &&
  negb (F32.ltb a1 F32.zero) && negb (F32.ltb a2 F32.zero) &&
  negb (F32.ltb a3 F32.zero).

(** World position and normal interpolated over a triangle. *)
Definition interpolate (uv : vec2) (gt : GameObject * ivec3) : UVWorldData :=
  let '(g, t) := gt in
  let '(a1, a2, a3) := barycentric g t uv in
  let uvPosition :=
    vec3_add (vec3_add (vec3_scale a1 (vertex_of g (i3x t)))
                       (vec3_scale a2 (vertex_of g (i3y t))))
             (vec3_scale a3 (vertex_of g (i3z t))) in
  let uvNormal :=
    glm_normalize
      (vec3_add (vec3_add (vec3_scale a1 (normal_of g (i3x t)))
                          (vec3_scale a2 (normal_of g (i3y t))))
                (vec3_scale a3 (normal_of g (i3z t)))) in
  let w :=
    mat4_mul_vec4 (object2World g)
      (mkFloat4 (v3x uvPosition) (v3y uvPosition) (v3z uvPosition) F32.one) in
  mkUVWorldData (mkVec3 (f4x w) (f4y w) (f4z w)) uvNormal.

(** Every triangle of the scene, game object by game object and in index
    order inside each. *)
Definition all_triangles (gameObjects : list GameObject) : list (GameObject * ivec3) :=
  g ← gameObjects; t ← indices (mesh g); [(g, t)].

Fixpoint first_match (uv : vec2) (ts : list (GameObject * ivec3))
  : option (GameObject * ivec3) :=
  match ts with
  | [] => None
  | gt :: rest => if point_in_triangle uv gt then Some gt else first_match uv rest
  end.

(** The verdict of the loops when the first matching triangle is [m]. *)
Definition verdict_of (uv : vec2) (m : option (GameObject * ivec3)) : Verdict :=
  match m with
  | Some gt => Return (interpolate uv gt)
  | None => Continue
  end.

Definition triangles_of (g : GameObject) (ts : list ivec3)
  : list (GameObject * ivec3) :=
  t ← ts; [(g, t)].

(** The indices of a triangle address its mesh. *)
Definition index_ok (g : GameObject) (i : Z) : Prop :=
  0 <= i /\
  i < Z.of_nat (length (texCoords (mesh g))) /\
  i < Z.of_nat (length (vertices (mesh g))) /\
  i < Z.of_nat (length (normals (mesh g))).

Definition well_formed (gameObjects : list GameObject) : Prop :=
  Forall (fun g =>
    Forall (fun t => index_ok g (i3x t) /\ index_ok g (i3y t) /\ index_ok g (i3z t))
           (indices (mesh g))) gameObjects.

(** The game object without its degenerate triangles. *)
Definition drop_degenerate (g : GameObject) : GameObject :=
  mkGameObject
    (mkTriangleMesh (vertices (mesh g)) (normals (mesh g)) (texCoords (mesh g))
       (filter (fun t => degenerate g t = false) (indices (mesh g))))
    (object2World g).
End Projection.

End UVMapping.

(** ** The octree file *)

Module Octree.

(** The members of [OctreeBuilder] that reach the file: the flat GPU array,
    every float as its 32-bit pattern, the dimensions of the indirection
    grid and the maximal depth. *)
Record OctreeBuilder := mkOctreeBuilder {
  maxDepth : Z;
  currentCoord : ivec3;
  gpuOctree : list Z
}.

(** A 32-bit word as four bytes, least significant first. *)
Definition word_bytes (w : Z) : list Z :=
  [w mod 256; (w / 256) mod 256; (w / 65536) mod 256; (w / 16777216) mod 256].

Definition bytes_word (b0 b1 b2 b3 : Z) : Z :=
  b0 + 256 * b1 + 65536 * b2 + 16777216 * b3.

Fixpoint words_bytes (ws : list Z) : list Z :=
  match ws with
  | [] => []
  | w :: rest => word_bytes w ++ words_bytes rest
  end.

(** Reads the words of a byte sequence; [n] bounds the number of words. *)
Fixpoint bytes_words (n : nat) (bs : list Z) : option (list Z) :=
  match bs with
  | [] => Some []
  | b0 :: b1 :: b2 :: b3 :: rest =>
      match n with
      | O => None
      | S n' => ws ← bytes_words n' rest; Some (bytes_word b0 b1 b2 b3 :: ws)
      end
  | _ => None
  end.

(** Modelled from the spec: the body of [OctreeBuilder::saveOctreeToFile],
    of which the sources only hold the declaration. The file is a flat
    numeric array: a header with the maximal depth and the resolution of
    the indirection grid per axis, then the serialised array. *)
Definition saveOctreeToFile (b : OctreeBuilder) : list Z :=
  word_bytes (uint32 (maxDepth b)) ++
  word_bytes (uint32 (i3x (currentCoord b))) ++
  word_bytes (uint32 (i3y (currentCoord b))) ++
  word_bytes (uint32 (i3z (currentCoord b))) ++
  words_bytes (gpuOctree b).

(** Modelled from the spec: the constructor [OctreeBuilder(std::string
    loadOctreePath)], of which the sources only hold the declaration; it
    reads back what [saveOctreeToFile] wrote. *)
Definition loadOctreeFromFile (file : list Z) : option OctreeBuilder :=
  ws ← bytes_words (length file) file;
  match ws with
  | d :: x :: y :: z :: body =>
      Some (mkOctreeBuilder (int32 d) (mkIVec3 (int32 x) (int32 y) (int32 z)) body)
  | _ => None
  end.

(** What the members of a builder hold: [int]s and 32-bit patterns. *)
Definition is_int32 (z : Z) : Prop := - 2 ^ 31 <= z < 2 ^ 31.
Definition is_word32 (z : Z) : Prop := 0 <= z < 2 ^ 32.

Definition well_formed (b : OctreeBuilder) : Prop :=
  is_int32 (maxDepth b) /\
  is_int32 (i3x (currentCoord b)) /\ is_int32 (i3y (currentCoord b)) /\
  is_int32 (i3z (currentCoord b)) /\
  Forall is_word32 (gpuOctree b).

End Octree.

(** ** Readings of the specification and inputs to evaluate the model on *)

Module Reading.

(** The value the specification gives a scattered texel: the sum of the
    per-sample contributions, times the diffuse albedo, divided by
    [numSamples * 2 * PI]. *)
Definition scattered_value (contributions : list vec3) (albedo : vec3)
    (numSamples : Z) : vec3 :=
  let total := vec3_mul (foldl vec3_add vec3_zero contributions) albedo in
  let w := F32.mul (F32.mul (F32.of_int numSamples) F32.two) F32.PI in
  mkVec3 (F32.div (v3x total) w) (F32.div (v3y total) w) (F32.div (v3z total) w).


End Reading.

Module Samples.

Definition quarter : float := F32.decimal 25 2.
Definition half : float := F32.decimal 5 1.

(** A mesh of one triangle whose texture coordinates span the unit
    triangle. *)
Definition mesh : MeshSBTData :=
  mkMeshSBTData
    (fun i => if i =? 0 then vec3_zero
              else if i =? 1 then mkVec3 F32.one F32.zero F32.zero
              else mkVec3 F32.zero F32.one F32.zero)
    (fun _ => mkIVec3 0 1 2)
    (fun i => if i =? 0 then mkVec2 F32.zero F32.zero
              else if i =? 1 then mkVec2 F32.one F32.zero
              else mkVec2 F32.zero F32.one)
    0.

(** A scene in which every ray meets the triangle at distance 1, at the
    barycentric coordinates (1/4, 1/4). *)
Definition one_hit : Traversable :=
  fun _ _ => [mkHit F32.one 0 0 quarter quarter].

(** A scene without geometry. *)
Definition empty_scene : Traversable := fun _ _ => [].

Definition light : DirectLighting.LightData :=
  DirectLighting.mkLightData vec3_zero (mkVec3 F32.one F32.zero F32.zero)
    (mkVec3 F32.zero F32.one F32.zero) (mkVec3 F32.zero F32.zero F32.one)
    (mkVec3 half half half) F32.one F32.one.

Definition direct_params (trav : Traversable) : DirectLighting.LaunchParams :=
  DirectLighting.mkLaunchParams (fun _ => light) 5 5 1024 trav (fun _ => mesh).

(** An implementation of the device helpers to evaluate the kernels on:
    a generator that always draws 1/2 and counts its draws, the dot
    product, and constant stand-ins for the trigonometric functions and the
    cube mapping, so that every sample has the direction (1, 0, 0). The
    octree texture is a single colour. *)
Definition library : DeviceLibrary := {|
  tea4 := fun a b => a * 31 + b;
  rnd := fun s => (half, uint32 (s + 1));
  sqrtf := SFsqrt F32.prec F32.emax;
  cosf := fun _ => F32.one;
  sinf := fun _ => F32.zero;
  dot := fun a b =>
    F32.add (F32.add (F32.mul (v3x a) (v3x b)) (F32.mul (v3y a) (v3y b)))
            (F32.mul (v3z a) (v3z b));
  normalize := fun a => a;
  convert_uv_to_cube_xyz := fun _ u v => mkVec3 u v F32.one;
  convert_xyz_to_cube_uv := fun x y _ => (0, x, y);
  OctreeTexture := vec3;
  read_octree := fun _ t => t;
  write_octree := fun _ v _ => v
|}.

Definition gather_params (trav : Traversable) : CubeMapGather.LaunchParams :=
  CubeMapGather.mkLaunchParams vec3_zero 2 0 trav 1024 (fun _ => 0xff7f7f7f)
    (fun _ => mesh).

Definition white : float4 := mkFloat4 F32.one F32.one F32.one F32.one.

(** A launch of the hybrid scatter kernel over one cell with white
    textures and a unit normal along x. *)
Definition hybrid_params (trav : Traversable) : ScatterHybrid.LaunchParams :=
  ScatterHybrid.mkLaunchParams 0 (mkIVec3 0 0 0) 1 1
    (fun _ => 0) (fun _ => mkVec2 half half) (fun _ => 0)
    (fun _ _ _ => mkFloat4 F32.zero F32.zero F32.zero F32.zero)
    (fun _ _ _ => mkFloat4 F32.one F32.zero F32.zero F32.zero)
    (fun _ _ _ => white)
    (fun _ => false) (fun _ _ _ => white) (fun _ _ _ => white)
    (mkVec3 half half half) 2 (fun _ _ _ => white) (fun _ _ _ => white)
    (fun _ => 1024) trav (fun _ => mesh).

(** A launch of the unbiased scatter kernel: white albedo, white previous
    bounce, a unit normal along x. *)
Definition unbiased_params (trav : Traversable)
  : @ScatterUnbiased.LaunchParams library :=
  @ScatterUnbiased.mkLaunchParams library 0 (fun _ => 0) (fun _ => mkVec2 half half) 1024
    (fun _ => ScatterUnbiased.mkUVWorldData vec3_zero
                (mkVec3 F32.one F32.zero F32.zero) (mkVec3 F32.one F32.one F32.one))
    (mkVec3 F32.one F32.one F32.one) trav (fun _ => mesh).

Definition no_registers : Z -> Z * Z * Z := fun _ => (0, 0, 0).
Definition zero_registers : Z -> ScatterUnbiased.Payload :=
  fun _ => ScatterUnbiased.mkPayload 0 0 0.

(** Scenes whose only intersection is at distance +0, respectively -0. *)
Definition touching : Traversable :=
  fun _ _ => [mkHit F32.zero 0 0 quarter quarter].
Definition touching_behind : Traversable :=
  fun _ _ => [mkHit (F32.opp F32.zero) 0 0 quarter quarter].

(** A serialised octree of depth 2 on a 2 x 2 x 2 indirection grid; the
    array holds the patterns of 1.0f, -1.0f and of a NaN. *)
Definition octree : Octree.OctreeBuilder :=
  Octree.mkOctreeBuilder 2 (mkIVec3 2 2 2) [0x3f800000; 0xbf800000; 0x7fc00001; 0].

(** A stand-in for glm: matrices are translations. *)
Definition glm : GlmLibrary := {|
  mat4 := vec3;
  mat4_mul_vec4 := fun m v =>
    mkFloat4 (F32.add (f4x v) (v3x m)) (F32.add (f4y v) (v3y m))
             (F32.add (f4z v) (v3z m)) (f4w v);
  glm_normalize := fun a => a
|}.

(** A game object with a degenerate triangle (its three corners share one
    texture coordinate) ahead of the unit triangle. *)
Definition game_object : @UVMapping.GameObject glm :=
  @UVMapping.mkGameObject glm
    (UVMapping.mkTriangleMesh
       [vec3_zero; mkVec3 F32.one F32.zero F32.zero; mkVec3 F32.zero F32.one F32.zero]
       [mkVec3 F32.zero F32.zero F32.one; mkVec3 F32.zero F32.zero F32.one;
        mkVec3 F32.zero F32.zero F32.one]
       [mkVec2 F32.zero F32.zero; mkVec2 F32.one F32.zero; mkVec2 F32.zero F32.one]
       [mkIVec3 1 1 1; mkIVec3 0 1 2])
    (mkVec3 F32.one F32.one F32.one).

(** The coefficients and sample counts of one cell: sub-probe 0 has four
    samples, the others none; and a printer that only tells zero from
    non-zero. *)
Definition sh_weights : list float := replicate 9 F32.one ++ replicate 63 F32.zero.
Definition sh_counts : list Z := [4; 0; 0; 0; 0; 0; 0; 0].
Definition show_sign (f : float) : string :=
  if F32.is_zero f then String "0"%char EmptyString else String "x"%char EmptyString.

End Samples.

(** ** Launches and host side loops of the renderer *)

Module Launch.

(** The threads of a direct lighting launch run one after the other, in the
    order of [threads], each given by its launch index
    [(lightIndex, stratifyIndexX, stratifyIndexY)]. *)
Definition direct_lighting (p : DirectLighting.LaunchParams) (threads : list (Z * Z * Z))
    (colorBuffer : gmap Z Z) : gmap Z Z :=
  foldl (fun buf '(lightIndex, sx, sy) => DirectLighting.raygen p lightIndex sx sy buf)
        colorBuffer threads.



End Launch.

(** The channels the gather closest-hit program reads out of a packed
    colour. *)
Definition rgba_red (c : Z) : Z := Z.land 0x000000ff c.
Definition rgba_green (c : Z) : Z := Z.shiftr (Z.land 0x0000ff00 c) 8.
Definition rgba_blue (c : Z) : Z := Z.shiftr (Z.land 0x00ff0000 c) 16.

Module Host.

(** A host vector uploaded to the device and read there through its
    pointer. *)
Definition device {A : Type} (dflt : A) (v : list A) : Z -> A :=
  fun i => default dflt (vector_at v i).

(** *** [Renderer::calculateDirectLighting]: the flip of the rows *)

(** The loop over [x]: [n] columns left, appending to [result_reversed]. *)
Fixpoint flip_row (direct_lighting_result : list Z) (size y : Z) (n : nat) (x : Z)
    (result_reversed : list Z) : option (list Z) :=
  match n with
  | O => Some result_reversed
  | S n' =>
      c ← vector_at direct_lighting_result (int32 (int32 (y * size) + x));
      flip_row direct_lighting_result size y n' (x + 1) (result_reversed ++ [c])
  end.

(** The loop over [y], from [size - 1] down to 0: [n] rows left. *)
Fixpoint flip_rows (direct_lighting_result : list Z) (size : Z) (n : nat)
    (result_reversed : list Z) : option (list Z) :=
  match n with
  | O => Some result_reversed
  | S n' =>
      r ← flip_row direct_lighting_result size (Z.of_nat n') (Z.to_nat size) 0
            result_reversed;
      flip_rows direct_lighting_result size n' r
  end.

(** The vector handed to the image writer for a texture of [size] rows. *)
Definition flip_y (direct_lighting_result : list Z) (size : Z) : option (list Z) :=
  flip_rows direct_lighting_result size (Z.to_nat size) [].

(** *** [Renderer::prepareUVsInsideBuffer] *)

(** The loop over the non-empty cells, each given by the UVs inside it;
    the state is the pair of [offsets] and [cellUVs]. *)
Fixpoint uvs_inside_loop (cells : list (list vec2)) (offsets : list Z)
    (cellUVs : list vec2) : list Z * list vec2 :=
  match cells with
  | [] => (offsets, cellUVs)
  | uvs :: rest =>
      uvs_inside_loop rest (offsets ++ [int32 (Z.of_nat (length cellUVs))])
        (cellUVs ++ uvs)
  end.

(** The two vectors the function uploads: the offsets and the UVs. *)
Definition prepareUVsInsideBuffer (nonEmptyCells : list (list vec2))
  : list Z * list vec2 :=
  uvs_inside_loop nonEmptyCells [] [].

(** *** [Renderer::calculateRadianceCellGatherPass]: the weighting of the
    coefficients after the launches *)

(** The weight applied to a sub-probe with [n] samples:
    [1.0f / (float(n) * 4.0f * glm::pi<float>())]. *)
Definition applied_weight (n : Z) : float :=
  F32.div F32.one (F32.mul (F32.mul (F32.of_int n) (F32.of_int 4)) F32.PI).

(** The loop over the basis functions: [shCoefficients[...] *= weight]. *)
Fixpoint weigh_basis (shCoefficients : list float) (cellOffset shOffset : Z)
    (weight : float) (n : nat) (bf : Z) : option (list float) :=
  match n with
  | O => Some shCoefficients
  | S n' =>
      let idx := int32 (int32 (cellOffset + shOffset) + bf) in
      c ← vector_at shCoefficients idx;
      weigh_basis (<[Z.to_nat idx := F32.mul c weight]> shCoefficients)
        cellOffset shOffset weight n' (bf + 1)
  end.

(** The loop over the sub-probes of cell [i]. *)
Fixpoint weigh_probes (numSamplesPerSH : list Z) (shCoefficients : list float)
    (i cellOffset : Z) (n : nat) (sh : Z) : option (list float) :=
  match n with
  | O => Some shCoefficients
  | S n' =>
      count ← vector_at numSamplesPerSH (int32 (int32 (i * 8) + sh));
      shCoefficients ←
        (if 0 <? count
         then weigh_basis shCoefficients cellOffset
                (int32 (sh * Weights.SPHERICAL_HARMONIC_BASIS_FUNCTIONS))
                (applied_weight count) 9 0
         else Some shCoefficients);
      weigh_probes numSamplesPerSH shCoefficients i cellOffset n' (sh + 1)
  end.

(** The loop over the cells; the result is the vector uploaded back. *)
Fixpoint weigh_cells (numSamplesPerSH : list Z) (shCoefficients : list float)
    (n : nat) (i : Z) : option (list float) :=
  match n with
  | O => Some shCoefficients
  | S n' =>
      let cellOffset :=
        int32 (int32 (i * 8) * Weights.SPHERICAL_HARMONIC_BASIS_FUNCTIONS) in
      shCoefficients ← weigh_probes numSamplesPerSH shCoefficients i cellOffset 8 0;
      weigh_cells numSamplesPerSH shCoefficients n' (i + 1)
  end.

Definition weigh_coefficients (numSamplesPerSH : list Z) (shCoefficients : list float)
    (amountCells : Z) : option (list float) :=
  weigh_cells numSamplesPerSH shCoefficients (Z.to_nat amountCells) 0.

(** *** The results of the loops, as functions of the vectors *)

(** Row [y] of an image of [size] columns stored row after row. *)
Definition row (v : list Z) (size : Z) (y : nat) : list Z :=
  take (Z.to_nat size) (drop (y * Z.to_nat size) v).

(** The coefficient at position [j] after the weighting, from the
    coefficient [c] before it: sub-probe [j / 9] owns it. *)
Definition weighted (numSamplesPerSH : list Z) (j : nat) (c : float) : float :=
  match numSamplesPerSH !! (j / 9)%nat with
  | Some n => if 0 <? n then F32.mul c (applied_weight n) else c
  | None => c
  end.

(** The coefficients when the loops have reached position [bound]. *)
Definition weighted_upto (numSamplesPerSH : list Z) (bound : Z)
    (shCoefficients : list float) : list float :=
  imap (fun j c => if Z.of_nat j <? bound then weighted numSamplesPerSH j c else c)
       shCoefficients.

End Host.

(** ** Layout of the cubemap buffer of the gather pass *)

Module GatherLayout.

(** The texel of the light source texture that the closest-hit program
    reads for an intersection. *)
Definition source_index (p : CubeMapGather.LaunchParams) (h : Hit) : Z :=
  let tc := barycentric_texcoord (CubeMapGather.sbt p (hit_sbt h)) h in
  let size := CubeMapGather.lightSourceTexture_size p in
  let uTexelCoord := F32.to_int (F32.mul (v2x tc) (F32.of_int size)) in
  let vTexelCoord := F32.to_int (F32.mul (v2y tc) (F32.of_int size)) in
  int32 (int32 (vTexelCoord * size) + uTexelCoord).

(** The launch parameters describe a probe whose six faces fit the [int]
    arithmetic of the kernel. *)
Definition fits (p : CubeMapGather.LaunchParams) : Prop :=
  0 < CubeMapGather.cubeMapResolution p /\
  0 <= CubeMapGather.probeOffset p /\
  CubeMapGather.probeOffset p
    + 6 * (CubeMapGather.cubeMapResolution p * CubeMapGather.cubeMapResolution p) < 2 ^ 31.

(** The texels of the probe: the six faces, one after the other. *)
Definition in_block (p : CubeMapGather.LaunchParams) (k : Z) : Prop :=
  CubeMapGather.probeOffset p <= k <
  CubeMapGather.probeOffset p
    + 6 * (CubeMapGather.cubeMapResolution p * CubeMapGather.cubeMapResolution p).

(** The colour that the thread of launch index [(u, v, f)] writes. *)
Definition texel_value `{DeviceLibrary} (p : CubeMapGather.LaunchParams) (u v f : Z) : Z :=
  CubeMapGather.texel_rgba
    (CubeMapGather.trace_texel p (CubeMapGather.mkPayload 0 0 0) u v f).

End GatherLayout.


(** ** Variations of the launch parameters of the scatter passes *)

Module Variations.

(** Every intersection that the scene reports lies at a strictly positive
    distance along its ray. *)
Definition positive_distances (trav : Traversable) : Prop :=
  forall o d, Forall (fun h => F32.ltb F32.zero (hit_t h) = true) (trav o d).

(** The hybrid launch with other textures of the previous bounce. *)
Definition with_previous_bounce (p : ScatterHybrid.LaunchParams)
    (prevBounceTextures : Z -> TextureObject) : ScatterHybrid.LaunchParams :=
  ScatterHybrid.mkLaunchParams
    (ScatterHybrid.nonEmptyCellIndex p) (ScatterHybrid.cellCoords p)
    (ScatterHybrid.probeWidthRes p) (ScatterHybrid.probeHeightRes p)
    (ScatterHybrid.uvsInsideOffsets p) (ScatterHybrid.uvsInside p)
    (ScatterHybrid.uvGameObjectNrs p) (ScatterHybrid.uvPositions p)
    (ScatterHybrid.uvNormals p) (ScatterHybrid.uvDiffuseColors p)
    (ScatterHybrid.hasTexture p) (ScatterHybrid.diffuseTextureUVs p)
    (ScatterHybrid.diffuseTextures p) (ScatterHybrid.cellCenter p)
    (ScatterHybrid.cubeMapResolution p) (ScatterHybrid.cubeMaps p)
    prevBounceTextures (ScatterHybrid.objectTextureResolutions p)
    (ScatterHybrid.sceneTraversable p) (ScatterHybrid.sbt p).

(** The unbiased launch on a UV data buffer with other diffuse colours. *)
Definition with_diffuse_colors `{DeviceLibrary} (p : ScatterUnbiased.LaunchParams)
    (colors : Z -> vec3) : ScatterUnbiased.LaunchParams :=
  ScatterUnbiased.mkLaunchParams
    (ScatterUnbiased.nonEmptyCellIndex p) (ScatterUnbiased.uvsInsideOffsets p)
    (ScatterUnbiased.uvsInside p) (ScatterUnbiased.uvWorldPositions_size p)
    (fun i =>
       let d := ScatterUnbiased.uvWorldPositions_UVDataBuffer p i in
       ScatterUnbiased.mkUVWorldData (ScatterUnbiased.worldPosition d)
         (ScatterUnbiased.worldNormal d) (colors i))
    (ScatterUnbiased.prevBounceOctreeTexture p)
    (ScatterUnbiased.sceneTraversable p) (ScatterUnbiased.sbt p).

(** The cell of the hybrid launch lies in a probe grid that fits the [int]
    arithmetic of the kernel. *)
Definition cell_in_grid (p : ScatterHybrid.LaunchParams) : Prop :=
  let c := ScatterHybrid.cellCoords p in
  let w := ScatterHybrid.probeWidthRes p in
  let h := ScatterHybrid.probeHeightRes p in
  0 <= i3x c < w /\ 0 <= i3y c < h /\ 0 <= i3z c /\
  (i3z c * w * h + i3y c * w + i3x c) * 6 + 6 <= 2 ^ 31.

End Variations.

(** ** [utils.cuh] *)

Module Utils.

(** [swap]: the two cells after the exchange. *)
Definition swap {T : Type} (v1 v2 : T) : T * T :=
  let temp := v1 in
  let v1 := v2 in
  let v2 := temp in
  (v1, v2).

Definition NAN : float := S754_nan.

(** [a > b] on floating point numbers. *)
Definition gtb (a b : float) : bool :=
  match SFcompare a b with Some Gt => true | _ => false end.

(** [find_distant_point_along_direction]: the values left in [*t_min] and
    [*t_max]. The quotients are computed in [float] and widened to
    [double]; the widening is exact and every binary32 value is a binary64
    value, so that the [double] variables hold the same values. *)
Definition find_distant_point_along_direction (o dir cubeMin cubeMax : vec3)
  : float * float :=
  let t_min := F32.div (F32.sub (v3x cubeMin) (v3x o)) (v3x dir) in
  let t_max := F32.div (F32.sub (v3x cubeMax) (v3x o)) (v3x dir) in
  let t_min_y := F32.div (F32.sub (v3y cubeMin) (v3y o)) (v3y dir) in
  let t_max_y := F32.div (F32.sub (v3y cubeMax) (v3y o)) (v3y dir) in
  let '(t_min, t_max) := if gtb t_min t_max then swap t_min t_max else (t_min, t_max) in
  let '(t_min_y, t_max_y) :=
    if gtb t_min_y t_max_y then swap t_min_y t_max_y else (t_min_y, t_max_y) in
  if gtb t_min t_max_y || gtb t_min_y t_max then (NAN, NAN)
  else
    let t_min := if gtb t_min_y t_min then t_min_y else t_min in
    let t_max := if F32.ltb t_max_y t_max then t_max_y else t_max in
    let t_min_z := F32.div (F32.sub (v3z cubeMin) (v3z o)) (v3z dir) in
    let t_max_z := F32.div (F32.sub (v3z cubeMax) (v3z o)) (v3z dir) in
    let '(t_min_z, t_max_z) :=
      if gtb t_min_z t_max_z then swap t_min_z t_max_z else (t_min_z, t_max_z) in
    if gtb t_min t_max_z || gtb t_min_z t_max then (NAN, NAN)
    else
      let t_min := if gtb t_min_z t_min then t_min_z else t_min in
      let t_max := if F32.ltb t_max_z t_max then t_max_z else t_max in
      (t_min, t_max).

(** The six quotients of the slab test. *)
Definition slab_quotients (o dir cubeMin cubeMax : vec3) : list float :=
  [F32.div (F32.sub (v3x cubeMin) (v3x o)) (v3x dir);
   F32.div (F32.sub (v3x cubeMax) (v3x o)) (v3x dir);
   F32.div (F32.sub (v3y cubeMin) (v3y o)) (v3y dir);
   F32.div (F32.sub (v3y cubeMax) (v3y o)) (v3y dir);
   F32.div (F32.sub (v3z cubeMin) (v3z o)) (v3z dir);
   F32.div (F32.sub (v3z cubeMax) (v3z o)) (v3z dir)].

Definition is_nan (f : float) : bool :=
  match f with S754_nan => true | _ => false end.

End Utils.

(** ** The default programs of [devicePrograms.cu] *)

(** [glm::cross] and [glm::dot], kept abstract. *)
Class GlmGeometry := {
  glm_cross : vec3 -> vec3 -> vec3;
  glm_dot : vec3 -> vec3 -> float
}.

Module DefaultProgram.

Record Camera := mkCamera {
  position : vec3;
  direction : vec3;
  horizontal : vec3;
  vertical : vec3
}.

(** The record of a mesh: [normal] and [texcoord] are pointers that may be
    null. *)
Record TriangleMeshSBTData := mkTriangleMeshSBTData {
  color : vec3;
  vertex : Z -> vec3;
  normal : option (Z -> vec3);
  texcoord : option (Z -> vec2);
  index : Z -> ivec3;
  hasTexture : bool;
  texture : TextureObject
}.

(** [LaunchParams] without the colour buffer of the frame, which is threaded
    through the kernel as the state it updates. *)
Record LaunchParams := mkLaunchParams {
  camera : Camera;
  frame_size : Z * Z;
  traversable : Traversable;
  sbt : Z -> TriangleMeshSBTData
}.

(** The local memory of a thread, which holds its per-ray data, by
    address. *)
Abbreviation Memory := (gmap Z vec3).

(** What a program sees: the two payload registers and the memory. *)
Abbreviation Payload := ((Z * Z) * Memory)%type.

(** [getPRD]: the address held in the two registers. *)
Definition getPRD (pl : Payload) : Z := unpackPointer pl.1.1 pl.1.2.

Section Programs.
Context `{GlmLibrary} `{GlmGeometry}.

(** [__closesthit__radiance] for a ray of direction [rayDir]. *)
Definition closesthit (p : LaunchParams) (rayDir : vec3) (h : Hit) (pl : Payload)
  : Payload :=
  let sbtData := sbt p (hit_sbt h) in
  let primID := hit_prim h in
  let index := index sbtData primID in
  let u := hit_u h in
  let v := hit_v h in
  let N :=
    match normal sbtData with
    | Some normal =>
        vec3_add
          (vec3_add (vec3_scale (F32.sub (F32.sub F32.one u) v) (normal (i3x index)))
                    (vec3_scale u (normal (i3y index))))
          (vec3_scale v (normal (i3z index)))
    | None =>
        let A := vertex sbtData (i3x index) in
        let B := vertex sbtData (i3y index) in
        let C := vertex sbtData (i3z index) in
        glm_normalize (glm_cross (vec3_sub B A) (vec3_sub C A))
    end in
  let N := glm_normalize N in
  let diffuseColor :=
    match texcoord sbtData with
    | Some texcoord =>
        if hasTexture sbtData then
          let tc :=
            vec2_add
              (vec2_add
                 (vec2_scale (F32.sub (F32.sub F32.one u) v) (texcoord (i3x index)))
                 (vec2_scale u (texcoord (i3y index))))
              (vec2_scale v (texcoord (i3z index))) in
          let fromTexf4 := tex2D (texture sbtData) (v2x tc) (v2y tc) in
          mkVec3 (f4x fromTexf4) (f4y fromTexf4) (f4z fromTexf4)
        else color sbtData
    | None => color sbtData
    end in
  let cosDN :=
    F32.add (F32.decimal 2 1) (F32.mul (F32.decimal 8 1) (SFabs (glm_dot rayDir N))) in
  (pl.1, <[getPRD pl := vec3_scale cosDN diffuseColor]> pl.2).

(** [__miss__radiance] *)
Definition miss (pl : Payload) : Payload :=
  (pl.1, <[getPRD pl := mkVec3 F32.one F32.one F32.one]> pl.2).

Definition screen (p : LaunchParams) (ix iy : Z) : vec2 :=
  mkVec2 (F32.div (F32.add (F32.of_int ix) (F32.decimal 5 1))
                  (F32.of_int (frame_size p).1))
         (F32.div (F32.add (F32.of_int iy) (F32.decimal 5 1))
                  (F32.of_int (frame_size p).2)).

Definition rayDir (p : LaunchParams) (ix iy : Z) : vec3 :=
  let camera := camera p in
  let screen := screen p ix iy in
  glm_normalize
    (vec3_add
       (vec3_add (direction camera)
          (vec3_scale (F32.sub (v2x screen) (F32.decimal 5 1)) (horizontal camera)))
       (vec3_scale (F32.sub (v2y screen) (F32.decimal 5 1)) (vertical camera))).

Definition fbIndex (p : LaunchParams) (ix iy : Z) : Z :=
  uint32 (int32 (ix + int32 (iy * (frame_size p).1))).

(** The per-ray data of the pixel after the trace; [ptr] is the address of
    the local variable [pixelColorPRD] and [memory] the local memory of the
    thread before the kernel runs. *)
Definition trace_pixel (p : LaunchParams) (ptr : Z) (ix iy : Z) (memory : Memory)
  : vec3 :=
  let memory := <[ptr := vec3_zero]> memory in
  let '(u0, u1) := packPointer ptr in
  let rayDir := rayDir p ix iy in
  let pl :=
    optixTrace (closesthit p rayDir) miss (traversable p)
      (position (camera p)) rayDir F32.zero tmax_far ((u0, u1), memory) in
  default vec3_zero (pl.2 !! ptr).

Definition pixel_rgba (pixelColorPRD : vec3) : Z :=
  let c := F32.decimal 25599 2 in
  let r := F32.to_int (F32.mul c (v3x pixelColorPRD)) in
  let g := F32.to_int (F32.mul c (v3y pixelColorPRD)) in
  let b := F32.to_int (F32.mul c (v3z pixelColorPRD)) in
  pack_rgba r g b.

(** [__raygen__renderFrame] for the launch index [(ix, iy)]. *)
Definition raygen (p : LaunchParams) (ptr : Z) (ix iy : Z) (memory : Memory)
    (colorBuffer : gmap Z Z) : gmap Z Z :=
  let pixelColorPRD := trace_pixel p ptr ix iy memory in
  <[fbIndex p ix iy := pixel_rgba pixelColorPRD]> colorBuffer.

(** The colour a program leaves for a ray: what the closest-hit program
    computes for an intersection. *)
Definition shade (p : LaunchParams) (rayDir : vec3) (h : Hit) : vec3 :=
  default vec3_zero ((closesthit p rayDir h ((0, 0), ∅)).2 !! 0).
End Programs.

End DefaultProgram.

(** ** More sample data *)

Module Examples.

(** A gather launch whose light source texture is translucent. *)
Definition tinted_gather_params (trav : Traversable) : CubeMapGather.LaunchParams :=
  CubeMapGather.mkLaunchParams vec3_zero 2 0 trav 1024 (fun _ => 0x12345678)
    (fun _ => Samples.mesh).

Definition geometry : GlmGeometry := {|
  glm_cross := fun a b =>
    mkVec3 (F32.sub (F32.mul (v3y a) (v3z b)) (F32.mul (v3y b) (v3z a)))
           (F32.sub (F32.mul (v3z a) (v3x b)) (F32.mul (v3z b) (v3x a)))
           (F32.sub (F32.mul (v3x a) (v3y b)) (F32.mul (v3x b) (v3y a)));
  glm_dot := fun a b =>
    F32.add (F32.add (F32.mul (v3x a) (v3x b)) (F32.mul (v3y a) (v3y b)))
            (F32.mul (v3z a) (v3z b))
|}.

Definition camera : DefaultProgram.Camera :=
  DefaultProgram.mkCamera vec3_zero (mkVec3 F32.zero F32.zero F32.one)
    (mkVec3 F32.one F32.zero F32.zero) (mkVec3 F32.zero F32.one F32.zero).

Definition default_mesh : DefaultProgram.TriangleMeshSBTData :=
  DefaultProgram.mkTriangleMeshSBTData (mkVec3 Samples.half Samples.half Samples.half)
    (sbt_vertex Samples.mesh) None None (sbt_index Samples.mesh) false
    (fun _ _ => Samples.white).

Definition default_params (trav : Traversable) : DefaultProgram.LaunchParams :=
  DefaultProgram.mkLaunchParams camera (4, 4) trav (fun _ => default_mesh).

(** A scene that the rays without an x component miss and the others
    hit. *)
Definition half_scene : Traversable :=
  fun _ d =>
    if F32.is_zero (v3x d) then []
    else [mkHit F32.one 0 0 Samples.quarter Samples.quarter].

(** A probe of the resolution the renderer gives its cubemaps,
    [initLightProbeCubeMaps(128, ...)], at the start of the buffer. *)
Definition renderer_gather_params (trav : Traversable) : CubeMapGather.LaunchParams :=
  CubeMapGather.mkLaunchParams vec3_zero 128 0 trav 1024 (fun _ => 0xff7f7f7f)
    (fun _ => Samples.mesh).



(** Two non-empty cells with the UVs inside them, and a hybrid scatter
    launch over the second one on the buffers prepared from them. *)
Definition cells : list (list vec2) :=
  [[mkVec2 F32.zero F32.zero; mkVec2 F32.one F32.zero]; [mkVec2 Samples.half Samples.half]].

Definition scatter_params_on_cell (i : Z) : ScatterHybrid.LaunchParams :=
  ScatterHybrid.mkLaunchParams i (mkIVec3 0 0 0) 1 1
    (Host.device 0 (Host.prepareUVsInsideBuffer cells).1)
    (Host.device (mkVec2 F32.zero F32.zero) (Host.prepareUVsInsideBuffer cells).2)
    (fun _ => 0)
    (fun _ _ _ => mkFloat4 F32.zero F32.zero F32.zero F32.zero)
    (fun _ _ _ => mkFloat4 F32.one F32.zero F32.zero F32.zero)
    (fun _ _ _ => Samples.white)
    (fun _ => false) (fun _ _ _ => Samples.white) (fun _ _ _ => Samples.white)
    (mkVec3 Samples.half Samples.half Samples.half) 2 (fun _ _ _ => Samples.white)
    (fun _ _ _ => Samples.white)
    (fun _ => 1024) Samples.empty_scene (fun _ => Samples.mesh).

End Examples.


(* ===================================================================== *)
(** * Part II: properties                                                 *)
(* ===================================================================== *)

(** ** Machine integers and binary32 *)

Lemma int32_small (z : Z) : - 2 ^ 31 <= z < 2 ^ 31 -> int32 z = z.
Proof. intros Hz. unfold int32. rewrite Z.mod_small; lia. Qed.

Lemma uint32_small (z : Z) : 0 <= z < 2 ^ 32 -> uint32 z = z.
Proof. intros Hz. unfold uint32. apply Z.mod_small; lia. Qed.

Lemma int32_uint32 (z : Z) : - 2 ^ 31 <= z < 2 ^ 31 -> int32 (uint32 z) = z.
Proof.
  intros Hz. unfold int32, uint32.
  rewrite Zplus_mod_idemp_l. rewrite Z.mod_small; lia.
Qed.

(** A distance strictly above zero is outside the interval that ends at
    zero. *)
Lemma positive_not_leb_zero (t : float) :
  F32.ltb F32.zero t = true -> F32.leb t F32.zero = false.
Proof. destruct t as [s|s| |s m e]; try destruct s; cbn; congruence. Qed.

(** The sentinel compares equal to itself. *)
Lemma sentinel_not_hit : DirectLighting.is_hit (DirectLighting.miss (mkVec2 F32.zero F32.zero)) = false.
Proof. reflexivity. Qed.

(** The two payload registers give back the pointer to the per-ray data,
    which is why the programs below act on the per-ray data itself. *)
Lemma unpackPointer_packPointer (ptr : Z) :
  0 <= ptr < 2 ^ 64 -> unpackPointer (packPointer ptr).1 (packPointer ptr).2 = ptr.
Proof.
  intros Hptr. unfold unpackPointer, packPointer. cbn [fst snd].
  rewrite uint32_small.
  - change 0x00000000ffffffff with (Z.ones 32).
    apply Z.bits_inj'. intros n Hn.
    rewrite Z.lor_spec, Z.land_spec, Z.shiftl_spec by lia.
    destruct (Z.ltb_spec n 32) as [Hlt|Hge].
    + rewrite Z.testbit_neg_r by lia. rewrite Z.ones_spec_low by lia.
      by rewrite andb_true_r.
    + rewrite Z.shiftr_spec by lia. rewrite Z.ones_spec_high by lia.
      rewrite andb_false_r, orb_false_r. f_equal. lia.
  - rewrite Z.shiftr_div_pow2 by lia. split.
    + apply Z.div_pos; lia.
    + apply Z.div_lt_upper_bound; lia.
Qed.

(** ** Direct lighting *)

Section DirectLightingFacts.
Import DirectLighting.
Variables (p : LaunchParams) (l : LightData) (sx sy i : Z).

Lemma trace_sample_miss :
  closest_hit (traversable p) (rayOrigin p l sx sy i) (normal l) F32.zero tmax_far = None ->
  trace_sample p l sx sy i = mkVec2 (F32.opp F32.one) (F32.opp F32.one).
Proof. intros Hmiss. unfold trace_sample, optixTrace. rewrite Hmiss. reflexivity. Qed.

End DirectLightingFacts.

(** C6. In the direct lighting pass a ray that misses all geometry gets the
    sentinel (-1, -1) from the miss program and makes no write: the colour
    buffer after the sample is the colour buffer before it. *)
Theorem direct_lighting_miss_leaves_texture
    (p : DirectLighting.LaunchParams) (l : DirectLighting.LightData)
    (sx sy i : Z) (colorBuffer : gmap Z Z) :
  closest_hit (DirectLighting.traversable p) (DirectLighting.rayOrigin p l sx sy i)
    (DirectLighting.normal l) F32.zero tmax_far = None ->
  DirectLighting.trace_sample p l sx sy i = mkVec2 (F32.opp F32.one) (F32.opp F32.one) /\
  DirectLighting.sample p l sx sy i colorBuffer = colorBuffer.
Proof.
  intros Hmiss. split; [by apply trace_sample_miss|].
  unfold DirectLighting.sample. by rewrite trace_sample_miss.
Qed.

Lemma direct_lighting_miss_leaves_texture_witness :
  closest_hit (DirectLighting.traversable (Samples.direct_params Samples.empty_scene))
    (DirectLighting.rayOrigin (Samples.direct_params Samples.empty_scene) Samples.light 0 0 0)
    (DirectLighting.normal Samples.light) F32.zero tmax_far = None /\
  DirectLighting.sample (Samples.direct_params Samples.empty_scene) Samples.light 0 0 0
    {[256 := 0xff101010]} = {[256 := 0xff101010]}.
Proof.
  split; [reflexivity|].
  apply (direct_lighting_miss_leaves_texture
           (Samples.direct_params Samples.empty_scene) Samples.light 0 0 0
           {[256 := 0xff101010]}).
  reflexivity.
Defined.




(** ** Cubemap gather *)

Section CubeMapGatherFacts.
Import CubeMapGather.
Context `{DeviceLibrary}.
Variables (p : LaunchParams) (uninit : Z * Z * Z -> Payload).

Lemma run_threads_cons (u v f : Z) (threads : list (Z * Z * Z)) (cubeMaps : gmap Z Z) :
  run_threads p uninit ((u, v, f) :: threads) cubeMaps
  = run_threads p uninit threads (raygen p (uninit (u, v, f)) u v f cubeMaps).
Proof. reflexivity. Qed.

(** The miss program leaves the radiance (0, 0, 0) in the registers. *)
Lemma miss_is_black (pl : Payload) :
  loadRadianceCellGatherPRD (miss pl) = mkPRD vec3_zero /\ texel_rgba (miss pl) = black.
Proof. split; reflexivity. Qed.

Hypothesis every_ray_misses :
  forall o d, closest_hit (sceneTraversable p) o d F32.zero tmax_far = None.

Lemma trace_texel_miss (u v f : Z) :
  trace_texel p (uninit (u, v, f)) u v f = miss (uninit (u, v, f)).
Proof. unfold trace_texel, optixTrace. by rewrite every_ray_misses. Qed.

Lemma raygen_writes_black (u v f : Z) (cubeMaps : gmap Z Z) :
  raygen p (uninit (u, v, f)) u v f cubeMaps = <[texel_index p u v f := black]> cubeMaps.
Proof. unfold raygen. by rewrite trace_texel_miss. Qed.

(** A black texel stays black under any further threads. *)
Lemma run_threads_keeps_black (threads : list (Z * Z * Z)) (cubeMaps : gmap Z Z) (k : Z) :
  cubeMaps !! k = Some black -> run_threads p uninit threads cubeMaps !! k = Some black.
Proof.
  revert cubeMaps. induction threads as [|[[u v] f] threads IH]; intros cubeMaps Hk.
  - exact Hk.
  - rewrite run_threads_cons. apply IH. rewrite raygen_writes_black.
    destruct (decide (texel_index p u v f = k)) as [->|Hne].
    + apply lookup_insert_eq.
    + by rewrite lookup_insert_ne.
Qed.

(** The texel of a thread of the schedule is black at the end. *)
Lemma run_threads_black (threads : list (Z * Z * Z)) (cubeMaps : gmap Z Z) (u v f : Z) :
  (u, v, f) ∈ threads ->
  run_threads p uninit threads cubeMaps !! texel_index p u v f = Some black.
Proof.
  revert cubeMaps. induction threads as [|[[u' v'] f'] threads IH]; intros cubeMaps Hin.
  - by apply elem_of_nil in Hin.
  - rewrite run_threads_cons. apply elem_of_cons in Hin as [Heq|Hin].
    + inversion Heq; subst. apply run_threads_keeps_black.
      rewrite raygen_writes_black. apply lookup_insert_eq.
    + by apply IH.
Qed.

(** A texel that changed during the pass is black. *)
Lemma run_threads_written_black (threads : list (Z * Z * Z)) (cubeMaps : gmap Z Z) (k : Z) :
  run_threads p uninit threads cubeMaps !! k = cubeMaps !! k \/
  run_threads p uninit threads cubeMaps !! k = Some black.
Proof.
  revert cubeMaps. induction threads as [|[[u v] f] threads IH]; intros cubeMaps.
  - by left.
  - rewrite run_threads_cons, raygen_writes_black.
    destruct (decide (texel_index p u v f = k)) as [<-|Hne].
    + right. apply run_threads_keeps_black, lookup_insert_eq.
    + destruct (IH (<[texel_index p u v f := black]> cubeMaps)) as [Hsame|Hblack].
      * left. rewrite Hsame. by apply lookup_insert_ne.
      * by right.
Qed.

Lemma launch_grid_covers (width height depth u v f : Z) :
  0 <= u < width -> 0 <= v < height -> 0 <= f < depth ->
  (u, v, f) ∈ launch_grid width height depth.
Proof.
  intros Hu Hv Hf. unfold launch_grid.
  apply list_elem_of_bind. exists f. split; [|apply elem_of_seqZ; lia].
  apply list_elem_of_bind. exists v. split; [|apply elem_of_seqZ; lia].
  apply list_elem_of_bind. exists u. split; [|apply elem_of_seqZ; lia].
  apply list_elem_of_singleton. reflexivity.
Qed.
End CubeMapGatherFacts.

(** C7. In a cubemap gather pass over a scene in which every traced ray
    misses, the miss program yields the radiance (0, 0, 0) and, in whatever
    order the threads of the launch run, the texel of every (face, u, v)
    holds opaque black, 0xff000000, at the end; any texel of the buffer that
    the pass changed holds that value too. The launch has any dimensions
    [width x height x depth]: those of the faces of a probe,
    [cubeMapResolution x cubeMapResolution x 6], or any others. *)
Theorem cubemap_gather_empty_scene_is_black `{DeviceLibrary}
    (p : CubeMapGather.LaunchParams)
    (uninit : Z * Z * Z -> CubeMapGather.Payload)
    (width height depth : Z)
    (schedule : list (Z * Z * Z)) (cubeMaps : gmap Z Z) :
  (forall o d, closest_hit (CubeMapGather.sceneTraversable p) o d F32.zero tmax_far = None) ->
  schedule ≡ₚ CubeMapGather.launch_grid width height depth ->
  (forall u v f,
     0 <= u < width -> 0 <= v < height -> 0 <= f < depth ->
     CubeMapGather.loadRadianceCellGatherPRD
       (CubeMapGather.trace_texel p (uninit (u, v, f)) u v f)
     = CubeMapGather.mkPRD vec3_zero /\
     CubeMapGather.run_threads p uninit schedule cubeMaps
       !! CubeMapGather.texel_index p u v f
     = Some 0xff000000) /\
  (forall k,
     CubeMapGather.run_threads p uninit schedule cubeMaps !! k = cubeMaps !! k \/
     CubeMapGather.run_threads p uninit schedule cubeMaps !! k = Some 0xff000000).
Proof.
  intros Hmiss Hschedule. split.
  - intros u v f Hu Hv Hf. split.
    + rewrite (trace_texel_miss p uninit Hmiss). apply miss_is_black.
    + apply (run_threads_black p uninit Hmiss).
      rewrite Hschedule. by apply launch_grid_covers.
  - intros k. apply (run_threads_written_black p uninit Hmiss).
Qed.

Lemma cubemap_gather_empty_scene_is_black_witness :
  (forall o d,
     closest_hit (CubeMapGather.sceneTraversable (Samples.gather_params Samples.empty_scene))
       o d F32.zero tmax_far = None) /\
  @CubeMapGather.launch Samples.library (Samples.gather_params Samples.empty_scene)
    (fun _ => CubeMapGather.mkPayload 7 8 9) 2 2 6 ∅
  !! CubeMapGather.texel_index (Samples.gather_params Samples.empty_scene) 1 1 5
  = Some 0xff000000.
Proof.
  split; [reflexivity|].
  apply (@cubemap_gather_empty_scene_is_black Samples.library
           (Samples.gather_params Samples.empty_scene)
           (fun _ => CubeMapGather.mkPayload 7 8 9) 2 2 6
           (CubeMapGather.launch_grid 2 2 6) ∅
           (fun _ _ => eq_refl) (reflexivity _)); lia.
Defined.

(** ** Scatter: the sample loop *)

Section RandomDirectionFacts.
Context `{DeviceLibrary}.

Lemma random_direction_seed (seed : Z) : snd (random_direction seed) = next_seed seed.
Proof.
  unfold random_direction, next_seed.
  destruct (rnd seed) as [rx seed1]. simpl.
  destruct (rnd seed1) as [ry seed2]. reflexivity.
Qed.

Lemma seed_sequence_length (n : nat) (seed : Z) : length (seed_sequence n seed) = n.
Proof. revert seed. induction n as [|n IH]; intros seed; simpl; [done|by rewrite IH]. Qed.

Lemma seqZ_succ (s : Z) (n : nat) :
  seqZ s (Z.of_nat (S n)) = s :: seqZ (s + 1) (Z.of_nat n).
Proof.
  rewrite seqZ_cons by lia. f_equal. f_equal; lia.
Qed.
End RandomDirectionFacts.

Section ScatterHybridFacts.
Import ScatterHybrid.
Context `{DeviceLibrary}.
Variables (p : LaunchParams) (ctx : ThreadContext).

Lemma sample_step_seed (uninit : Z * Z * Z) (seed : Z) :
  snd (sample_step p ctx uninit seed) = next_seed seed.
Proof.
  unfold sample_step. rewrite <- random_direction_seed.
  destruct (random_direction seed) as [d seed']. by destruct (orient_direction ctx d).
Qed.

Lemma sample_contributions_succ (uninit : Z -> Z * Z * Z) (n : nat) (s seed : Z) :
  sample_contributions p ctx uninit (S n) s seed
  = fst (sample_step p ctx (uninit s) seed)
    :: sample_contributions p ctx uninit n (s + 1) (next_seed seed).
Proof. unfold sample_contributions. by rewrite seqZ_succ. Qed.

(** The accumulator after the loop is the running sum of the
    contributions, sample after sample. *)
Lemma sample_loop_sum (uninit : Z -> Z * Z * Z) (n : nat) (s seed : Z) (total : vec3) :
  snd (sample_loop p ctx uninit n s seed total)
  = foldl vec3_add total (sample_contributions p ctx uninit n s seed).
Proof.
  revert s seed total. induction n as [|n IH]; intros s seed total.
  - reflexivity.
  - rewrite sample_contributions_succ. simpl.
    pose proof (sample_step_seed (uninit s) seed) as Hseed.
    destruct (sample_step p ctx (uninit s) seed) as [c seed']. simpl in *. subst seed'.
    apply IH.
Qed.

(** The flag register after the trace tells which program ran. *)
Lemma trace_sample_flag (uninit : Z * Z * Z) (randomDir : vec3) :
  match closest_hit (sceneTraversable p) (UVWorldPos ctx) randomDir F32.zero TRACING_RANGE with
  | Some h =>
      trace_sample p ctx uninit randomDir
      = closesthit p h (mkPayload 0 uninit.1.1 uninit.1.2 uninit.2) /\
      p0 (trace_sample p ctx uninit randomDir) = 1
  | None =>
      trace_sample p ctx uninit randomDir = mkPayload 0 uninit.1.1 uninit.1.2 uninit.2 /\
      p0 (trace_sample p ctx uninit randomDir) = 0
  end.
Proof.
  unfold trace_sample, optixTrace.
  destruct (closest_hit _ _ _ _ _); split; reflexivity.
Qed.

(** No intersection lies inside a range that ends at zero when all of
    them are at a strictly positive distance. *)
Lemma closest_hit_zero_range (tmin : float) (o d : vec3) :
  Forall (fun h => F32.ltb F32.zero (hit_t h) = true) (sceneTraversable p o d) ->
  closest_hit (sceneTraversable p) o d tmin F32.zero = None.
Proof.
  intros Hpos. unfold closest_hit.
  replace (filter _ (sceneTraversable p o d)) with (@nil Hit); [done|].
  symmetry. induction Hpos as [|h hs Hh Hhs IH]; [done|].
  rewrite filter_cons_False; [exact IH|].
  unfold in_ray_interval. rewrite (positive_not_leb_zero _ Hh).
  rewrite andb_false_r. discriminate.
Qed.
End ScatterHybridFacts.

Section ScatterUnbiasedFacts.
Import ScatterUnbiased.
Context `{DeviceLibrary}.
Variables (p : LaunchParams) (uvIndex : Z).

Lemma unbiased_sample_step_seed (uninit : Payload) (seed : Z) :
  snd (sample_step p uvIndex uninit seed) = next_seed seed.
Proof.
  unfold sample_step. rewrite <- random_direction_seed.
  by destruct (random_direction seed) as [d seed'].
Qed.

Lemma unbiased_sample_contributions_succ (uninit : Z -> Payload) (n : nat) (i seed : Z) :
  sample_contributions p uvIndex uninit (S n) i seed
  = fst (sample_step p uvIndex (uninit i) seed)
    :: sample_contributions p uvIndex uninit n (i + 1) (next_seed seed).
Proof. unfold sample_contributions. by rewrite seqZ_succ. Qed.

(** After the loop the accumulator is the running sum of the
    contributions and the counter has advanced by the number of
    iterations. *)
Lemma unbiased_sample_loop_sum (uninit : Z -> Payload) (n : nat) (i seed : Z)
    (total : vec3) (m : Z) :
  0 <= m -> m + Z.of_nat n < 2 ^ 31 ->
  exists seed',
    sample_loop p uvIndex uninit n i seed total m
    = (seed', foldl vec3_add total (sample_contributions p uvIndex uninit n i seed),
       m + Z.of_nat n).
Proof.
  revert i seed total m. induction n as [|n IH]; intros i seed total m Hm Hbound.
  - exists seed. simpl. f_equal. lia.
  - rewrite unbiased_sample_contributions_succ. rewrite Nat2Z.inj_succ in *.
    cbn [sample_loop foldl].
    pose proof (unbiased_sample_step_seed (uninit i) seed) as Hseed.
    destruct (sample_step p uvIndex (uninit i) seed) as [c seed0].
    cbn [fst snd] in *. subst seed0.
    rewrite (int32_small (m + 1)) by lia.
    destruct (IH (i + 1) (next_seed seed) (vec3_add total c) (m + 1)) as [seed' Hloop];
      [lia..|].
    exists seed'. rewrite Hloop. f_equal. lia.
Qed.

End ScatterUnbiasedFacts.

(** C1, as stated, fails on the unbiased kernel. With a white albedo, a
    white previous bounce and every one of the 100 samples contributing
    (1, 1, 1), the thread writes 100 / (100 * PI), the float 0x3ea2f983 in
    each component, where the specification asks for
    100 * 1 / (100 * 2 * PI), the float 0x3e22f983. *)
Lemma unbiased_scatter_differs_from_specified_value :
  let p := Samples.unbiased_params Samples.one_hit in
  let contributions :=
    @ScatterUnbiased.sample_contributions Samples.library p 0 Samples.zero_registers
      100 0 (@ScatterUnbiased.thread_seed Samples.library p 0) in
  let albedo :=
    ScatterUnbiased.diffuseColor (@ScatterUnbiased.thread_data Samples.library p 0) in
  let written := @ScatterUnbiased.result_value Samples.library p Samples.zero_registers 0 in
  let specified :=
    Reading.scattered_value contributions albedo ScatterUnbiased.NUM_DIRECTION_SAMPLES in
  contributions = replicate 100 (mkVec3 F32.one F32.one F32.one) /\
  albedo = mkVec3 F32.one F32.one F32.one /\
  F32.float_as_uint (v3x written) = 0x3ea2f983 /\
  F32.float_as_uint (v3x specified) = 0x3e22f983 /\
  written <> specified.
Proof. vm_compute. repeat split; congruence. Qed.

(** C1, amended. In the hybrid (cubemap) scatter kernel the value a thread
    writes to the surface of the current bounce at its texel is the sum of
    the per-sample radiance contributions, multiplied by the diffuse albedo
    of the texel and divided by [NUM_SAMPLES_HEMISPHERE * 2 * PI], with a
    zero fourth component. The unbiased kernel hands to the octree texture
    the sum of its per-sample contributions divided by [numSamples * PI]. *)
Theorem scatter_written_value `{DeviceLibrary} :
  (forall (p : ScatterHybrid.LaunchParams) (uninit : Z -> Z * Z * Z) (uvIndex : Z)
          (currentBounceTextures : gmap (Z * Z * Z) float4),
     let ctx := ScatterHybrid.thread_context p uvIndex in
     let v :=
       Reading.scattered_value
         (ScatterHybrid.sample_contributions p ctx uninit 10 0
            (ScatterHybrid.thread_seed p uvIndex))
         (ScatterHybrid.diffuseColor ctx) ScatterHybrid.NUM_SAMPLES_HEMISPHERE in
     ScatterHybrid.raygen p uninit uvIndex currentBounceTextures
       !! ScatterHybrid.texel_address p uvIndex
     = Some (mkFloat4 (v3x v) (v3y v) (v3z v) F32.zero)) /\
  (forall (p : ScatterUnbiased.LaunchParams) (uninit : Z -> ScatterUnbiased.Payload)
          (uvIndex : Z) (currentBounceOctreeTexture : OctreeTexture),
     let total :=
       foldl vec3_add vec3_zero
         (ScatterUnbiased.sample_contributions p uvIndex uninit 100 0
            (ScatterUnbiased.thread_seed p uvIndex)) in
     let w := F32.mul (F32.of_int ScatterUnbiased.NUM_DIRECTION_SAMPLES) F32.PI in
     ScatterUnbiased.raygen p uninit uvIndex currentBounceOctreeTexture
     = write_octree (ScatterUnbiased.UVWorldPos p uvIndex)
         (mkVec3 (F32.div (v3x total) w) (F32.div (v3y total) w) (F32.div (v3z total) w))
         currentBounceOctreeTexture).
Proof.
  split.
  - intros p uninit uvIndex surf ctx v.
    unfold ScatterHybrid.raygen. rewrite lookup_insert_eq. f_equal.
    unfold ScatterHybrid.result_value. fold ctx.
    change (Z.to_nat ScatterHybrid.NUM_SAMPLES_HEMISPHERE) with 10%nat.
    rewrite sample_loop_sum.
    unfold v, Reading.scattered_value, ScatterHybrid.monte_carlo_weight.
    cbn [v3x v3y v3z]. reflexivity.
  - intros p uninit uvIndex tex total w.
    unfold ScatterUnbiased.raygen. f_equal.
    unfold ScatterUnbiased.result_value.
    change (Z.to_nat ScatterUnbiased.NUM_DIRECTION_SAMPLES) with 100%nat.
    destruct (unbiased_sample_loop_sum p uvIndex uninit 100 0
                (ScatterUnbiased.thread_seed p uvIndex) vec3_zero 0) as [seed' Hloop];
      [lia..|].
    rewrite Hloop. change (0 + Z.of_nat 100) with ScatterUnbiased.NUM_DIRECTION_SAMPLES.
    reflexivity.
Qed.

(** ** Scatter: hit flag, tracing range, seeding *)

Section ScatterChoiceFacts.
Import ScatterHybrid.
Context `{DeviceLibrary}.
Variables (p : LaunchParams) (ctx : ThreadContext).

(** The closest-hit program does not read the distance of the hit. *)
Lemma closesthit_forgets_distance (h h' : Hit) (pl : Payload) :
  forget_distance h' = forget_distance h -> closesthit p h' pl = closesthit p h pl.
Proof.
  destruct h as [t sb pr u v], h' as [t' sb' pr' u' v'].
  unfold forget_distance. simpl. intros [= -> -> -> ->]. reflexivity.
Qed.

Lemma trace_sample_with_scene (trav' : Traversable) (uninit : Z * Z * Z) (dir : vec3) :
  forget_distance <$> closest_hit trav' (UVWorldPos ctx) dir F32.zero TRACING_RANGE
  = forget_distance <$>
      closest_hit (sceneTraversable p) (UVWorldPos ctx) dir F32.zero TRACING_RANGE ->
  trace_sample (with_scene p trav') ctx uninit dir = trace_sample p ctx uninit dir.
Proof.
  unfold trace_sample, optixTrace. simpl.
  destruct (closest_hit trav' _ _ _ _) as [h'|],
           (closest_hit (sceneTraversable p) _ _ _ _) as [h|]; simpl; intros [=]; [|done].
  apply (closesthit_forgets_distance h h'). unfold forget_distance. congruence.
Qed.


End ScatterChoiceFacts.

(** C3. For every hemisphere sample of the hybrid scatter kernel the flag
    register that comes back from the trace is 1 when the closest-hit
    program ran and 0 otherwise, the contribution of the sample is the traced
    one exactly when the flag is 1 and the probe one otherwise, and the
    distance of the hit plays no part: over another scene whose closest
    intersection differs at most in its distance the sample gives the same
    result. *)
Theorem scatter_choice_by_hit_flag `{DeviceLibrary}
    (p : ScatterHybrid.LaunchParams) (trav' : Traversable)
    (ctx : ScatterHybrid.ThreadContext) (uninit : Z * Z * Z) (seed : Z) :
  let oriented := ScatterHybrid.orient_direction ctx (fst (random_direction seed)) in
  let dir := fst oriented in
  let cosContribution := snd oriented in
  let found :=
    closest_hit (ScatterHybrid.sceneTraversable p) (ScatterHybrid.UVWorldPos ctx) dir
      F32.zero ScatterHybrid.TRACING_RANGE in
  let pl := ScatterHybrid.trace_sample p ctx uninit dir in
  forget_distance <$>
    closest_hit trav' (ScatterHybrid.UVWorldPos ctx) dir F32.zero ScatterHybrid.TRACING_RANGE
  = forget_distance <$> found ->
  ScatterHybrid.p0 pl = match found with Some _ => 1 | None => 0 end /\
  fst (ScatterHybrid.sample_step p ctx uninit seed)
  = (if ScatterHybrid.p0 pl =? 1
     then ScatterHybrid.traced_contribution cosContribution pl
     else ScatterHybrid.probe_contribution p ctx dir cosContribution) /\
  ScatterHybrid.sample_step (ScatterHybrid.with_scene p trav') ctx uninit seed
  = ScatterHybrid.sample_step p ctx uninit seed.
Proof.
  intros oriented dir cosContribution found pl Hsame. split; [|split].
  - pose proof (trace_sample_flag p ctx uninit dir) as Hflag. fold found pl in Hflag.
    destruct found; by destruct Hflag.
  - unfold ScatterHybrid.sample_step. subst pl dir cosContribution oriented.
    destruct (random_direction seed) as [d seed']. cbn [fst snd].
    by destruct (ScatterHybrid.orient_direction ctx d).
  - unfold ScatterHybrid.sample_step. subst pl found dir cosContribution oriented.
    destruct (random_direction seed) as [d seed']. cbn [fst snd] in *.
    destruct (ScatterHybrid.orient_direction ctx d) as [dir c]. cbn [fst snd] in *.
    by rewrite (trace_sample_with_scene p ctx trav' uninit dir Hsame).
Qed.

Lemma scatter_choice_by_hit_flag_witness :
  let p := Samples.hybrid_params Samples.touching in
  let ctx := ScatterHybrid.thread_context p 0 in
  @ScatterHybrid.sample_step Samples.library
    (ScatterHybrid.with_scene p Samples.touching_behind) ctx (1, 2, 3) 5
  = @ScatterHybrid.sample_step Samples.library p ctx (1, 2, 3) 5.
Proof.
  intros p ctx.
  apply (@scatter_choice_by_hit_flag Samples.library p Samples.touching_behind ctx
           (1, 2, 3) 5).
  reflexivity.
Defined.



Section ScatterSeedFacts.
Context `{DeviceLibrary}.




End ScatterSeedFacts.


(** ** Threads that each store one value

    What a launch leaves in a buffer when every thread [t] stores the value
    [val t] under the key [key t], whatever the buffer holds. *)

Section StoringThreads.
Context `{Countable K} {V T : Type}.
Variables (key : T -> K) (val : T -> V).

Let run (threads : list T) (m : gmap K V) : gmap K V :=
  foldl (fun m t => <[key t := val t]> m) m threads.

Lemma stores_snoc (threads : list T) (t : T) (m : gmap K V) :
  run (threads ++ [t]) m = <[key t := val t]> (run threads m).
Proof. unfold run. by rewrite foldl_app. Qed.

Lemma stores_untouched (threads : list T) (m : gmap K V) (k : K) :
  (forall t, t ∈ threads -> key t <> k) -> run threads m !! k = m !! k.
Proof.
  revert m. induction threads as [|t threads IH]; intros m Hne; [reflexivity|].
  cbn [run foldl]. fold (run threads (<[key t := val t]> m)). rewrite IH.
  - apply lookup_insert_ne, Hne, list_elem_of_here.
  - intros t' Hin. apply Hne. by apply list_elem_of_further.
Qed.

Lemma stores_last (pre post : list T) (t : T) (m : gmap K V) :
  (forall t', t' ∈ post -> key t' <> key t) ->
  run (pre ++ t :: post) m !! key t = Some (val t).
Proof.
  intros Hpost. unfold run. rewrite foldl_app. cbn [foldl].
  fold (run post (<[key t := val t]> (foldl (fun m t => <[key t := val t]> m) m pre))).
  rewrite stores_untouched by exact Hpost. apply lookup_insert_eq.
Qed.

Lemma stores_lookup (threads : list T) (m : gmap K V) (k : K) :
  run threads m !! k = m !! k \/
  exists t, t ∈ threads /\ key t = k /\ run threads m !! k = Some (val t).
Proof.
  induction threads as [|t threads IH] using rev_ind; [by left|].
  rewrite stores_snoc. destruct (decide (key t = k)) as [Hk|Hk].
  - right. exists t. split; [apply elem_of_app; right; apply list_elem_of_here|].
    split; [exact Hk|]. rewrite <- Hk. apply lookup_insert_eq.
  - rewrite lookup_insert_ne by exact Hk.
    destruct IH as [Hsame|(t' & Hin & Hkey & Hval)]; [by left|].
    right. exists t'. split; [apply elem_of_app; by left|]. by split.
Qed.

Lemma stores_written (threads : list T) (m : gmap K V) (t : T) :
  t ∈ threads ->
  exists t', t' ∈ threads /\ key t' = key t /\ run threads m !! key t = Some (val t').
Proof.
  induction threads as [|t0 threads IH] using rev_ind; intros Hin; [inversion Hin|].
  rewrite stores_snoc. destruct (decide (key t0 = key t)) as [Hk|Hk].
  - exists t0. split; [apply elem_of_app; right; apply list_elem_of_here|].
    split; [exact Hk|]. rewrite <- Hk. apply lookup_insert_eq.
  - rewrite lookup_insert_ne by exact Hk.
    apply elem_of_app in Hin as [Hin|Hin].
    + destruct (IH Hin) as (t' & Hin' & Hkey & Hval).
      exists t'. split; [apply elem_of_app; by left|]. by split.
    + apply list_elem_of_singleton in Hin. by subst t0.
Qed.

Lemma stores_permutation (threads threads' : list T) :
  threads ≡ₚ threads' ->
  (forall t t', t ∈ threads -> t' ∈ threads -> key t = key t' -> val t = val t') ->
  forall m, run threads m = run threads' m.
Proof.
  unfold run.
  induction 1 as [|t l l' Hperm IH|t t' l|l l' l'' Hperm1 IH1 Hperm2 IH2];
    intros Hagree m.
  - reflexivity.
  - cbn [foldl]. apply IH. intros a b Ha Hb.
    apply Hagree; by apply list_elem_of_further.
  - cbn [foldl]. f_equal. destruct (decide (key t = key t')) as [Heq|Hne].
    + rewrite (Hagree t t'); [by rewrite Heq| | |exact Heq].
      * apply list_elem_of_further, list_elem_of_here.
      * apply list_elem_of_here.
    + by apply insert_insert_ne.
  - rewrite IH1 by exact Hagree. apply IH2. intros a b Ha Hb.
    apply Hagree; by rewrite Hperm1.
Qed.

Lemma stores_race (rest : list T) (t t' : T) (m : gmap K V) :
  key t = key t' -> val t <> val t' ->
  run (rest ++ [t; t']) m <> run (rest ++ [t'; t]) m.
Proof.
  intros Hkey Hval Heq. apply Hval.
  assert (Hfirst : run (rest ++ [t; t']) m !! key t = Some (val t')).
  { replace (rest ++ [t; t']) with ((rest ++ [t]) ++ [t']) by by rewrite <- app_assoc.
    rewrite stores_snoc, Hkey. apply lookup_insert_eq. }
  assert (Hsecond : run (rest ++ [t'; t]) m !! key t = Some (val t)).
  { replace (rest ++ [t'; t]) with ((rest ++ [t']) ++ [t]) by by rewrite <- app_assoc.
    rewrite stores_snoc. apply lookup_insert_eq. }
  rewrite Heq, Hsecond in Hfirst. by injection Hfirst.
Qed.
End StoringThreads.

(** ** Scatter: seeds, threads and launches *)

Section ScatterLaunchFacts.
Context `{DeviceLibrary}.













End ScatterLaunchFacts.




(** ** The octree file *)

Section OctreeFacts.
Import Octree.

Lemma bytes_word_bytes (w : Z) :
  is_word32 w ->
  bytes_word (w mod 256) ((w / 256) mod 256) ((w / 65536) mod 256)
             ((w / 16777216) mod 256) = w.
Proof.
  unfold is_word32, bytes_word. intros Hw.
  change (2 ^ 32) with 4294967296 in Hw.
  Z.div_mod_to_equations. lia.
Qed.

Lemma words_bytes_length (ws : list Z) : length (words_bytes ws) = (4 * length ws)%nat.
Proof. induction ws as [|w ws IH]; simpl; lia. Qed.

(** Reading back the bytes of a word sequence gives the sequence. *)
Lemma bytes_words_bytes (ws : list Z) (n : nat) :
  Forall is_word32 ws -> (length ws <= n)%nat ->
  bytes_words n (words_bytes ws) = Some ws.
Proof.
  intros Hws. revert n. induction Hws as [|w ws Hw Hws IH]; intros n Hn.
  - by destruct n.
  - destruct n as [|n]; [simpl in Hn; lia|].
    simpl. rewrite IH by (simpl in Hn; lia). simpl.
    by rewrite (bytes_word_bytes w Hw).
Qed.

Lemma uint32_is_word32 (z : Z) : is_word32 (uint32 z).
Proof. unfold is_word32, uint32. apply Z.mod_pos_bound. lia. Qed.

Lemma saveOctreeToFile_words (b : OctreeBuilder) :
  saveOctreeToFile b
  = words_bytes (uint32 (maxDepth b) :: uint32 (i3x (currentCoord b))
                 :: uint32 (i3y (currentCoord b)) :: uint32 (i3z (currentCoord b))
                 :: gpuOctree b).
Proof. reflexivity. Qed.
End OctreeFacts.

(** C4. Saving an octree to a file and loading it back gives the builder
    that was saved; in particular the flat [gpuOctree] array comes back
    word for word, hence byte for byte. *)
Theorem octree_save_load_roundtrip (b : Octree.OctreeBuilder) :
  Octree.well_formed b ->
  Octree.loadOctreeFromFile (Octree.saveOctreeToFile b) = Some b /\
  Octree.gpuOctree <$> Octree.loadOctreeFromFile (Octree.saveOctreeToFile b)
  = Some (Octree.gpuOctree b) /\
  Octree.saveOctreeToFile <$> Octree.loadOctreeFromFile (Octree.saveOctreeToFile b)
  = Some (Octree.saveOctreeToFile b).
Proof.
  intros (Hd & Hx & Hy & Hz & Hws).
  assert (Hload : Octree.loadOctreeFromFile (Octree.saveOctreeToFile b) = Some b).
  { unfold Octree.loadOctreeFromFile. rewrite saveOctreeToFile_words.
    rewrite bytes_words_bytes.
    - simpl. unfold Octree.is_int32 in *. rewrite !int32_uint32 by done.
      by destruct b as [d [x y z] ws].
    - repeat (constructor; [apply uint32_is_word32|]). exact Hws.
    - rewrite words_bytes_length. lia. }
  rewrite Hload. repeat split.
Qed.

Lemma octree_save_load_roundtrip_witness :
  Octree.well_formed Samples.octree /\
  Octree.loadOctreeFromFile (Octree.saveOctreeToFile Samples.octree) = Some Samples.octree.
Proof.
  assert (Hwf : Octree.well_formed Samples.octree).
  { unfold Octree.well_formed, Octree.is_int32, Octree.is_word32. simpl.
    repeat split; try lia. repeat constructor; lia. }
  split; [exact Hwf|].
  apply (octree_save_load_roundtrip Samples.octree Hwf).
Defined.

(** ** Projection of a UV coordinate to the world *)

Lemma vector_at_in_range {A : Type} (v : list A) (i : Z) (d : A) :
  0 <= i < Z.of_nat (length v) -> vector_at v i = Some (default d (vector_at v i)).
Proof.
  intros Hi. unfold vector_at.
  destruct (Z.ltb_spec i 0) as [|_]; [lia|].
  destruct (lookup_lt_is_Some_2 v (Z.to_nat i)) as [x Hx]; [lia|].
  by rewrite Hx.
Qed.

Section UVMappingFacts.
Import UVMapping.
Context `{GlmLibrary}.

Lemma texcoord_at (g : GameObject) (i : Z) :
  index_ok g i -> vector_at (texCoords (mesh g)) i = Some (texcoord_of g i).
Proof. intros (? & ? & ? & ?). by apply vector_at_in_range. Qed.

Lemma vertex_at (g : GameObject) (i : Z) :
  index_ok g i -> vector_at (vertices (mesh g)) i = Some (vertex_of g i).
Proof. intros (? & ? & ? & ?). by apply vector_at_in_range. Qed.

Lemma normal_at (g : GameObject) (i : Z) :
  index_ok g i -> vector_at (normals (mesh g)) i = Some (normal_of g i).
Proof. intros (? & ? & ? & ?). by apply vector_at_in_range. Qed.

(** The loop body returns on the triangles that pass the test and
    continues on the others. *)
Lemma triangle_body_spec (g : GameObject) (t : ivec3) (uv : vec2) :
  index_ok g (i3x t) /\ index_ok g (i3y t) /\ index_ok g (i3z t) ->
  triangle_body g t uv
  = Some (if point_in_triangle uv (g, t) then Return (interpolate uv (g, t)) else Continue).
Proof.
  intros (Hx & Hy & Hz). unfold triangle_body.
  rewrite (texcoord_at g _ Hx). cbn [mbind option_bind].
  rewrite (texcoord_at g _ Hy). cbn [mbind option_bind].
  rewrite (texcoord_at g _ Hz). cbn [mbind option_bind].
  unfold point_in_triangle, interpolate, barycentric, degenerate, uv_area.
  destruct (F32.eqb _ F32.zero); [reflexivity|].
  destruct (F32.ltb (F32.div (area (texcoord_of g (i3y t)) _ uv) _) F32.zero);
    [reflexivity|].
  destruct (F32.ltb (F32.div (area (texcoord_of g (i3z t)) _ uv) _) F32.zero);
    [reflexivity|].
  destruct (F32.ltb (F32.div (area (texcoord_of g (i3x t)) _ uv) _) F32.zero);
    [reflexivity|].
  rewrite (vertex_at g _ Hx). cbn [mbind option_bind].
  rewrite (vertex_at g _ Hy). cbn [mbind option_bind].
  rewrite (vertex_at g _ Hz). cbn [mbind option_bind].
  rewrite (normal_at g _ Hx). cbn [mbind option_bind].
  rewrite (normal_at g _ Hy). cbn [mbind option_bind].
  rewrite (normal_at g _ Hz). cbn [mbind option_bind].
  reflexivity.
Qed.

Lemma triangle_loop_spec (g : GameObject) (ts : list ivec3) (uv : vec2) :
  Forall (fun t => index_ok g (i3x t) /\ index_ok g (i3y t) /\ index_ok g (i3z t)) ts ->
  triangle_loop g ts uv = Some (verdict_of uv (first_match uv (triangles_of g ts))).
Proof.
  induction 1 as [|t ts Ht Hts IH]; [reflexivity|].
  cbn [triangle_loop]. rewrite (triangle_body_spec g t uv Ht). cbn [mbind option_bind].
  unfold triangles_of. rewrite bind_cons. cbn [app first_match].
  destruct (point_in_triangle uv (g, t)); [reflexivity|]. exact IH.
Qed.

Lemma first_match_app (uv : vec2) (l1 l2 : list (GameObject * ivec3)) :
  first_match uv (l1 ++ l2)
  = match first_match uv l1 with
    | Some gt => Some gt
    | None => first_match uv l2
    end.
Proof.
  induction l1 as [|gt l1 IH]; [reflexivity|].
  cbn [app first_match]. by destruct (point_in_triangle uv gt).
Qed.

Lemma object_loop_spec (gameObjects : list GameObject) (uv : vec2) :
  well_formed gameObjects ->
  object_loop gameObjects uv
  = Some (verdict_of uv (first_match uv (all_triangles gameObjects))).
Proof.
  induction 1 as [|g gs Hg Hgs IH]; [reflexivity|].
  cbn [object_loop]. rewrite (triangle_loop_spec g _ uv Hg). cbn [mbind option_bind].
  unfold all_triangles. rewrite bind_cons. fold (triangles_of g (indices (mesh g))).
  rewrite first_match_app.
  destruct (first_match uv (triangles_of g (indices (mesh g)))); [reflexivity|].
  exact IH.
Qed.

(** A triangle that passes the test is not degenerate. *)
Lemma first_match_not_degenerate (uv : vec2) (ts : list (GameObject * ivec3))
    (g : GameObject) (t : ivec3) :
  first_match uv ts = Some (g, t) ->
  degenerate g t = false /\ point_in_triangle uv (g, t) = true.
Proof.
  induction ts as [|[g' t'] ts IH]; [discriminate|]. cbn [first_match].
  destruct (point_in_triangle uv (g', t')) eqn:Hin; [|exact IH].
  intros [= -> ->]. split; [|exact Hin].
  unfold point_in_triangle in Hin. destruct (barycentric g t uv) as [[a1 a2] a3].
  destruct (degenerate g t); [discriminate|reflexivity].
Qed.

(** The loop over the triangles of an object gives the same verdict once
    the degenerate triangles are taken out of its mesh. *)
Lemma triangle_loop_drop_degenerate (g : GameObject) (ts : list ivec3) (uv : vec2) :
  Forall (fun t => index_ok g (i3x t) /\ index_ok g (i3y t) /\ index_ok g (i3z t)) ts ->
  triangle_loop (drop_degenerate g) (filter (fun t => degenerate g t = false) ts) uv
  = triangle_loop g ts uv.
Proof.
  induction 1 as [|t ts Ht Hts IH]; [reflexivity|].
  cbn [triangle_loop]. rewrite (triangle_body_spec g t uv Ht). cbn [mbind option_bind].
  destruct (degenerate g t) eqn:Hdeg.
  - rewrite filter_cons_False by (rewrite Hdeg; discriminate).
    rewrite IH. unfold point_in_triangle. destruct (barycentric g t uv) as [[a1 a2] a3].
    by rewrite Hdeg.
  - rewrite filter_cons_True by exact Hdeg.
    cbn [triangle_loop].
    change (triangle_body (drop_degenerate g) t uv) with (triangle_body g t uv).
    rewrite (triangle_body_spec g t uv Ht). cbn [mbind option_bind].
    destruct (point_in_triangle uv (g, t)); [reflexivity|]. exact IH.
Qed.

Lemma object_loop_drop_degenerate (gameObjects : list GameObject) (uv : vec2) :
  well_formed gameObjects ->
  object_loop (drop_degenerate <$> gameObjects) uv = object_loop gameObjects uv.
Proof.
  induction 1 as [|g gs Hg Hgs IH]; [reflexivity|].
  rewrite fmap_cons. cbn [object_loop].
  change (indices (mesh (drop_degenerate g)))
    with (filter (fun t => degenerate g t = false) (indices (mesh g))).
  rewrite (triangle_loop_drop_degenerate g _ uv Hg).
  destruct (triangle_loop g (indices (mesh g)) uv) as [[|d]|]; cbn [mbind option_bind];
    [exact IH|reflexivity..].
Qed.
End UVMappingFacts.

(** C9. On a scene whose triangles address their meshes, [UVto3D] returns
    the world position and the normal interpolated over the first triangle,
    game object by game object and in index order, that passes the
    barycentric point-in-triangle test, and the not-found record when there
    is none. Triangles of barycentric area zero are skipped: the triangle
    returned is never degenerate, and taking the degenerate triangles out of
    the meshes does not change the result. *)
Theorem UVto3D_first_matching_triangle `{GlmLibrary}
    (gameObjects : list UVMapping.GameObject) (uv : vec2) :
  UVMapping.well_formed gameObjects ->
  UVMapping.UVto3D gameObjects uv
  = Some match UVMapping.first_match uv (UVMapping.all_triangles gameObjects) with
         | Some gt => UVMapping.interpolate uv gt
         | None => UVMapping.not_found
         end /\
  (forall g t,
     UVMapping.first_match uv (UVMapping.all_triangles gameObjects) = Some (g, t) ->
     UVMapping.degenerate g t = false /\ UVMapping.point_in_triangle uv (g, t) = true) /\
  UVMapping.UVto3D (UVMapping.drop_degenerate <$> gameObjects) uv
  = UVMapping.UVto3D gameObjects uv.
Proof.
  intros Hwf. split; [|split].
  - unfold UVMapping.UVto3D. rewrite (object_loop_spec gameObjects uv Hwf).
    cbn [mbind option_bind].
    by destruct (UVMapping.first_match uv (UVMapping.all_triangles gameObjects)).
  - intros g t. apply first_match_not_degenerate.
  - unfold UVMapping.UVto3D. by rewrite (object_loop_drop_degenerate gameObjects uv Hwf).
Qed.

Lemma UVto3D_first_matching_triangle_witness :
  @UVMapping.well_formed Samples.glm [Samples.game_object] /\
  @UVMapping.UVto3D Samples.glm [Samples.game_object]
    (mkVec2 Samples.quarter Samples.quarter)
  = Some (UVMapping.mkUVWorldData
            (mkVec3 (F32.decimal 125 2) (F32.decimal 125 2) F32.one)
            (mkVec3 F32.zero F32.zero F32.one)).
Proof.
  assert (Hwf : @UVMapping.well_formed Samples.glm [Samples.game_object]).
  { repeat constructor; simpl; lia. }
  split; [exact Hwf|].
  pose proof (@UVto3D_first_matching_triangle Samples.glm [Samples.game_object]
                (mkVec2 Samples.quarter Samples.quarter) Hwf) as [Heq _].
  rewrite Heq. vm_compute. reflexivity.
Defined.

(** ** Dump of the spherical harmonics weights *)

Lemma string_app_nil_r (s : string) : s +:+ EmptyString = s.
Proof.
  induction s as [|a s IH]; [reflexivity|].
  change (String a (s +:+ EmptyString) = String a s). by rewrite IH.
Qed.

Lemma string_app_assoc (s1 s2 s3 : string) : (s1 +:+ s2) +:+ s3 = s1 +:+ (s2 +:+ s3).
Proof.
  induction s1 as [|a s1 IH]; [reflexivity|].
  change (String a ((s1 +:+ s2) +:+ s3) = String a (s1 +:+ (s2 +:+ s3))). by rewrite IH.
Qed.

Section WeightsFacts.
Import Weights.
Variable show_float : float -> string.
Variables (weights : list float) (numSamples : list Z).

(** The text of the values at the positions [bf], [bf + 1], ... of a line
    whose coefficients start at [base]. *)
Lemma basis_loop_spec (cellOffset shOffset : Z) (weight : float) (n : nat) (bf : Z)
    (out : string) :
  0 <= cellOffset -> 0 <= shOffset -> 0 <= bf -> bf + Z.of_nat n = 9 ->
  cellOffset + shOffset + 9 <= Z.of_nat (length weights) ->
  cellOffset + shOffset + 9 < 2 ^ 31 ->
  basis_loop show_float weights cellOffset shOffset weight n bf out
  = Some (out +:+
          join_tokens
            (show_float <$>
               ((fun k =>
                   F32.mul (default F32.zero (vector_at weights (cellOffset + shOffset + k)))
                           weight) <$> seqZ bf (Z.of_nat n)))).
Proof.
  intros Hco Hso. revert bf out.
  induction n as [|n IH]; intros bf out Hbf Hsum Hlen Hint.
  - cbn. by rewrite string_app_nil_r.
  - rewrite seqZ_succ, !fmap_cons. cbn [basis_loop].
    rewrite (int32_small (cellOffset + shOffset)) by lia.
    rewrite (int32_small (cellOffset + shOffset + bf)) by lia.
    rewrite (vector_at_in_range weights _ F32.zero) by lia.
    cbn [mbind option_bind].
    rewrite IH by lia.
    destruct n as [|n].
    + assert (bf = 8) as -> by lia. cbn. by rewrite string_app_nil_r.
    + assert (Hlt : (bf <? 8) = true) by (apply Z.ltb_lt; lia).
      rewrite Hlt. rewrite seqZ_succ, !fmap_cons. cbn [join_tokens].
      by rewrite !string_app_assoc.
Qed.

Lemma concat_lines_app (l1 l2 : list string) :
  concat_lines (l1 ++ l2) = concat_lines l1 +:+ concat_lines l2.
Proof.
  induction l1 as [|l l1 IH]; [reflexivity|].
  cbn [app concat_lines]. by rewrite IH, string_app_assoc.
Qed.

(** The lines of the sub-probes [sh], [sh + 1], ... of cell [i]. *)
Lemma probe_loop_spec (i : Z) (n : nat) (sh : Z) (out : string) :
  0 <= i -> 0 <= sh -> sh + Z.of_nat n = 8 ->
  i * 72 + 72 <= Z.of_nat (length weights) -> i * 72 + 72 < 2 ^ 31 ->
  i * 8 + 8 <= Z.of_nat (length numSamples) ->
  probe_loop show_float weights numSamples i (i * 72) n sh out
  = Some (out +:+ concat_lines (pair_line show_float weights numSamples <$> ((fun s => (i, s)) <$> seqZ sh (Z.of_nat n)))).
Proof.
  intros Hi. revert sh out.
  induction n as [|n IH]; intros sh out Hsh Hsum Hlen Hint Hcount.
  - cbn. by rewrite string_app_nil_r.
  - rewrite seqZ_succ, !fmap_cons. cbn [probe_loop].
    rewrite (int32_small (i * 8)) by lia.
    rewrite (int32_small (i * 8 + sh)) by lia.
    rewrite (vector_at_in_range numSamples _ 0) by lia.
    cbn [mbind option_bind].
    unfold SPHERICAL_HARMONIC_BASIS_FUNCTIONS.
    rewrite (int32_small (sh * 9)) by lia.
    rewrite basis_loop_spec by lia.
    cbn [mbind option_bind].
    rewrite IH by lia.
    cbn [concat_lines].
    unfold pair_line at 2, line_text, line_values, line_coefficients, sample_count.
    cbn [fst snd]. rewrite <- (list_fmap_compose _ _ (seqZ 0 9)).
    by rewrite !string_app_assoc.
Qed.

(** The lines of the cells [i], [i + 1], ... *)
Lemma cell_loop_spec (n : nat) (i : Z) (out : string) :
  0 <= i ->
  (i + Z.of_nat n) * 72 <= Z.of_nat (length weights) -> (i + Z.of_nat n) * 72 < 2 ^ 31 ->
  (i + Z.of_nat n) * 8 <= Z.of_nat (length numSamples) ->
  cell_loop show_float weights numSamples n i out
  = Some (out +:+
          concat_lines
            (pair_line show_float weights numSamples <$> (c ← seqZ i (Z.of_nat n); (fun s => (c, s)) <$> seqZ 0 8))).
Proof.
  revert i out. induction n as [|n IH]; intros i out Hi Hlen Hint Hcount.
  - cbn. by rewrite string_app_nil_r.
  - rewrite seqZ_succ, bind_cons, fmap_app, concat_lines_app. cbn [cell_loop].
    unfold SPHERICAL_HARMONIC_BASIS_FUNCTIONS.
    rewrite (int32_small (i * 8)) by lia.
    rewrite (int32_small (i * 8 * 9)) by lia.
    replace (i * 8 * 9) with (i * 72) by lia.
    rewrite (probe_loop_spec i 8 0) by lia.
    cbn [mbind option_bind].
    rewrite IH by lia.
    by rewrite !string_app_assoc.
Qed.

Lemma probe_pairs_alt (amountCells : Z) :
  probe_pairs amountCells = (c ← seqZ 0 amountCells; (fun s => (c, s)) <$> seqZ 0 8).
Proof.
  unfold probe_pairs. apply list_bind_ext; [|reflexivity]. intros c. reflexivity.
Qed.
End WeightsFacts.

Section WeightsLayout.
Import Weights.

Lemma probe_pairs_succ (k : nat) :
  probe_pairs (Z.of_nat (S k))
  = probe_pairs (Z.of_nat k) ++ ((fun s => (Z.of_nat k, s)) <$> seqZ 0 8).
Proof.
  rewrite !probe_pairs_alt, seqZ_S, bind_app, bind_singleton. by rewrite Z.add_0_l.
Qed.

Lemma probe_pairs_length_nat (k : nat) : length (probe_pairs (Z.of_nat k)) = (8 * k)%nat.
Proof.
  induction k as [|k IH]; [reflexivity|].
  rewrite probe_pairs_succ, length_app, IH, length_fmap, length_seqZ. lia.
Qed.

(** Line number [i * 8 + sh] of the file belongs to sub-probe [sh] of
    cell [i]. *)
Lemma probe_pairs_lookup_nat (k : nat) (i sh : Z) :
  0 <= i < Z.of_nat k -> 0 <= sh < 8 ->
  probe_pairs (Z.of_nat k) !! Z.to_nat (i * 8 + sh) = Some (i, sh).
Proof.
  induction k as [|k IH]; intros Hi Hsh; [lia|].
  rewrite probe_pairs_succ.
  destruct (decide (i < Z.of_nat k)) as [Hlt|Hge].
  - rewrite lookup_app_l by (rewrite probe_pairs_length_nat; lia). apply IH; lia.
  - assert (i = Z.of_nat k) as -> by lia.
    rewrite lookup_app_r by (rewrite probe_pairs_length_nat; lia).
    rewrite probe_pairs_length_nat, list_lookup_fmap.
    replace (Z.to_nat (Z.of_nat k * 8 + sh) - 8 * k)%nat with (Z.to_nat sh) by lia.
    rewrite lookup_seqZ_lt by lia. simpl. do 2 f_equal. lia.
Qed.

Lemma probe_weight_sampled (n : Z) :
  0 < n < 2 ^ 29 ->
  probe_weight n = F32.div F32.one (F32.mul (F32.of_int (n * 4)) F32.PI).
Proof.
  intros Hn. unfold probe_weight.
  destruct (Z.ltb_spec 0 n) as [_|]; [|lia]. by rewrite int32_small by lia.
Qed.

Lemma probe_weight_empty (n : Z) : n <= 0 -> probe_weight n = F32.zero.
Proof. intros Hn. unfold probe_weight. by destruct (Z.ltb_spec 0 n) as [|_]; [lia|]. Qed.

(** A finite coefficient times the zero weight is a zero. *)
Lemma finite_times_zero (w : float) :
  F32.is_finite w = true -> F32.is_zero (F32.mul w F32.zero) = true.
Proof. by destruct w. Qed.
End WeightsLayout.

(** C8. When the vectors hold the coefficients and the sample counts of
    [amountCells] cells, the file written is one line per (cell, sub-probe)
    pair, cell after cell and sub-probe after sub-probe inside a cell: line
    number [i * 8 + sh] is the line of sub-probe [sh] of cell [i]. A line is
    nine values separated by one blank and closed by a newline, each value a
    coefficient of the sub-probe multiplied by its weight. The weight of a
    sub-probe with [n] samples is [1 / (n * 4 * PI)], and 0 when it has no
    sample; the line of such a sub-probe holds zeros wherever its
    coefficients are finite. *)
Theorem weights_file_layout (show_float : float -> string)
    (weights : list float) (numSamples : list Z) (amountCells : Z) :
  0 <= amountCells -> amountCells * 72 < 2 ^ 31 ->
  amountCells * 72 <= Z.of_nat (length weights) ->
  amountCells * 8 <= Z.of_nat (length numSamples) ->
  Weights.writeWeightsToTxtFile show_float weights numSamples amountCells
  = Some (Weights.concat_lines
            (Weights.pair_line show_float weights numSamples
               <$> Weights.probe_pairs amountCells)) /\
  length (Weights.probe_pairs amountCells) = Z.to_nat (amountCells * 8) /\
  forall i sh, 0 <= i < amountCells -> 0 <= sh < 8 ->
    let n := Weights.sample_count numSamples i sh in
    let line := Weights.line_values weights numSamples i sh in
    Weights.probe_pairs amountCells !! Z.to_nat (i * 8 + sh) = Some (i, sh) /\
    Weights.pair_line show_float weights numSamples (i, sh)
    = Weights.join_tokens (show_float <$> line) +:+ Weights.newline /\
    length line = 9%nat /\
    line = (fun w => F32.mul w (Weights.probe_weight n))
             <$> Weights.line_coefficients weights i sh /\
    (0 < n < 2 ^ 29 ->
     Weights.probe_weight n = F32.div F32.one (F32.mul (F32.of_int (n * 4)) F32.PI)) /\
    (n <= 0 ->
     Weights.probe_weight n = F32.zero /\
     (Forall (fun w => F32.is_finite w = true) (Weights.line_coefficients weights i sh) ->
      Forall (fun v => F32.is_zero v = true) line)).
Proof.
  intros Hcells Hint Hlen Hcount.
  rewrite <- (Z2Nat.id amountCells Hcells) in *.
  split; [|split].
  - unfold Weights.writeWeightsToTxtFile. rewrite Nat2Z.id.
    rewrite cell_loop_spec by lia. by rewrite probe_pairs_alt.
  - rewrite probe_pairs_length_nat. lia.
  - intros i sh Hi Hsh n line. split; [by apply probe_pairs_lookup_nat|].
    split; [reflexivity|]. split; [|split; [reflexivity|split]].
    + unfold line, Weights.line_values, Weights.line_coefficients.
      by rewrite !length_fmap, length_seqZ.
    + apply probe_weight_sampled.
    + intros Hn. split; [by apply probe_weight_empty|].
      unfold line, Weights.line_values. fold n. rewrite (probe_weight_empty n Hn).
      rewrite Forall_fmap. intros Hfinite. apply (Forall_impl _ _ _ Hfinite).
      intros w. apply finite_times_zero.
Qed.

Lemma weights_file_layout_witness :
  Weights.writeWeightsToTxtFile Samples.show_sign Samples.sh_weights Samples.sh_counts 1
  = Some (Weights.concat_lines
            (Weights.pair_line Samples.show_sign Samples.sh_weights Samples.sh_counts
               <$> Weights.probe_pairs 1)).
Proof.
  apply (weights_file_layout Samples.show_sign Samples.sh_weights Samples.sh_counts 1);
    vm_compute; congruence.
Defined.

(* ===================================================================== *)
(** * Part III: further properties of the code                            *)
(* ===================================================================== *)

(** ** Packed colours *)

Lemma testbit_uint32 (z n : Z) :
  0 <= n -> Z.testbit (uint32 z) n = (n <? 32) && Z.testbit z n.
Proof.
  intros Hn. unfold uint32. destruct (Z.ltb_spec n 32) as [Hlt|Hge].
  - by rewrite Z.mod_pow2_bits_low by lia.
  - by rewrite Z.mod_pow2_bits_high by lia.
Qed.

Lemma testbit_pack_rgba (r g b n : Z) :
  0 <= n ->
  Z.testbit (pack_rgba r g b) n
  = (n <? 32) &&
    ((24 <=? n) || Z.testbit r n || Z.testbit g (n - 8) || Z.testbit b (n - 16)).
Proof.
  intros Hn. unfold pack_rgba.
  change 0xff000000 with (Z.shiftl (Z.ones 8) 24).
  rewrite !Z.lor_spec, !testbit_uint32, !Z.shiftl_spec by lia.
  rewrite Z.sub_0_r.
  destruct (Z.ltb_spec n 32) as [Hlt|Hge], (Z.leb_spec 24 n) as [Hle|Hgt]; cbn [andb orb].
  - by rewrite Z.ones_spec_low by lia.
  - by rewrite Z.testbit_neg_r by lia.
  - by rewrite Z.ones_spec_high by lia.
  - lia.
Qed.

Lemma testbit_below (z k n : Z) : 0 <= z < 2 ^ k -> 0 <= k <= n -> Z.testbit z n = false.
Proof.
  intros Hz Hk. rewrite <- (Z.mod_small z (2 ^ k)) by lia.
  by rewrite Z.mod_pow2_bits_high by lia.
Qed.

Lemma pack_rgba_range (r g b : Z) : 0 <= pack_rgba r g b < 2 ^ 32.
Proof.
  assert (Hnonneg : 0 <= pack_rgba r g b).
  { apply Z.bits_iff_nonneg_ex. exists 32. intros n Hn.
    rewrite testbit_pack_rgba by lia. by destruct (Z.ltb_spec n 32); [lia|]. }
  split; [exact Hnonneg|].
  destruct (Z.eq_dec (pack_rgba r g b) 0) as [->|Hne]; [lia|].
  apply Z.log2_lt_pow2; [lia|].
  destruct (Z.lt_ge_cases (Z.log2 (pack_rgba r g b)) 32) as [|Hge]; [done|].
  pose proof (Z.bit_log2 (pack_rgba r g b) ltac:(lia)) as Hbit.
  rewrite testbit_pack_rgba in Hbit by lia.
  destruct (Z.ltb_spec (Z.log2 (pack_rgba r g b)) 32); [lia|discriminate].
Qed.

Lemma pack_rgba_alpha (r g b : Z) : Z.shiftr (pack_rgba r g b) 24 = 255.
Proof.
  change 255 with (Z.ones 8). apply Z.bits_inj'. intros n Hn.
  rewrite Z.shiftr_spec, testbit_pack_rgba by lia.
  destruct (Z.ltb_spec n 8) as [Hlt|Hge].
  - rewrite Z.ones_spec_low by lia.
    destruct (Z.ltb_spec (n + 24) 32); [|lia].
    by destruct (Z.leb_spec 24 (n + 24)); [|lia].
  - rewrite Z.ones_spec_high by lia.
    by destruct (Z.ltb_spec (n + 24) 32); [lia|].
Qed.

(** X1. Whatever the three channel values are, also negative or beyond 255,
    the packed colour is a 32-bit word whose alpha byte is 0xff. *)
Theorem pack_rgba_opaque (r g b : Z) :
  0 <= pack_rgba r g b < 2 ^ 32 /\ Z.shiftr (pack_rgba r g b) 24 = 255.
Proof. split; [apply pack_rgba_range|apply pack_rgba_alpha]. Qed.

(** X2. For channel values between 0 and 255 the masks and shifts of the
    gather closest-hit program give back the three channels that the direct
    lighting pass packed. *)
Theorem pack_rgba_channels (r g b : Z) :
  0 <= r < 256 -> 0 <= g < 256 -> 0 <= b < 256 ->
  rgba_red (pack_rgba r g b) = r /\
  rgba_green (pack_rgba r g b) = g /\
  rgba_blue (pack_rgba r g b) = b.
Proof.
  intros Hr Hg Hb. unfold rgba_red, rgba_green, rgba_blue.
  change 0x000000ff with (Z.ones 8).
  change 0x0000ff00 with (Z.shiftl (Z.ones 8) 8).
  change 0x00ff0000 with (Z.shiftl (Z.ones 8) 16).
  repeat split; apply Z.bits_inj'; intros n Hn.
  - rewrite Z.land_spec, testbit_pack_rgba by lia.
    destruct (Z.ltb_spec n 8) as [Hlt|Hge].
    + rewrite Z.ones_spec_low by lia.
      rewrite (Z.testbit_neg_r g), (Z.testbit_neg_r b) by lia.
      destruct (Z.ltb_spec n 32), (Z.leb_spec 24 n); try lia.
      cbn. by rewrite !orb_false_r.
    + rewrite Z.ones_spec_high by lia. by rewrite (testbit_below r 8 n) by lia.
  - rewrite Z.shiftr_spec, Z.land_spec, Z.shiftl_spec, testbit_pack_rgba by lia.
    replace (n + 8 - 8) with n by lia.
    destruct (Z.ltb_spec n 8) as [Hlt|Hge].
    + rewrite Z.ones_spec_low by lia.
      rewrite (testbit_below r 8 (n + 8)), (Z.testbit_neg_r b) by lia.
      destruct (Z.ltb_spec (n + 8) 32), (Z.leb_spec 24 (n + 8)); try lia.
      cbn. by rewrite orb_false_r.
    + rewrite Z.ones_spec_high by lia. by rewrite (testbit_below g 8 n) by lia.
  - rewrite Z.shiftr_spec, Z.land_spec, Z.shiftl_spec, testbit_pack_rgba by lia.
    replace (n + 16 - 16) with n by lia.
    destruct (Z.ltb_spec n 8) as [Hlt|Hge].
    + rewrite Z.ones_spec_low by lia.
      rewrite (testbit_below r 8 (n + 16)), (testbit_below g 8 (n + 16 - 8)) by lia.
      destruct (Z.ltb_spec (n + 16) 32), (Z.leb_spec 24 (n + 16)); try lia.
      reflexivity.
    + rewrite Z.ones_spec_high by lia. by rewrite (testbit_below b 8 n) by lia.
Qed.

Lemma pack_rgba_channels_witness :
  rgba_red (pack_rgba 127 128 255) = 127 /\
  rgba_green (pack_rgba 127 128 255) = 128 /\
  rgba_blue (pack_rgba 127 128 255) = 255.
Proof. apply (pack_rgba_channels 127 128 255); lia. Defined.


(** ** Direct lighting: threads and launches *)

Section DirectLightingThreads.
Import DirectLighting.
Variables (p : LaunchParams) (l : LightData) (sx sy : Z).

(** The offset [i / NUM_SAMPLES_PER_STRATIFY_CELL] is an integer division:
    it is 0 for every sample of the loop. *)
Lemma rayOrigin_same (i : Z) :
  0 <= i < NUM_SAMPLES_PER_STRATIFY_CELL -> rayOrigin p l sx sy i = rayOrigin p l sx sy 0.
Proof.
  intros Hi. unfold rayOrigin.
  rewrite (Z.quot_small i NUM_SAMPLES_PER_STRATIFY_CELL) by exact Hi. reflexivity.
Qed.

Lemma sample_same (i : Z) (colorBuffer : gmap Z Z) :
  0 <= i < NUM_SAMPLES_PER_STRATIFY_CELL ->
  sample p l sx sy i colorBuffer = sample p l sx sy 0 colorBuffer.
Proof.
  intros Hi. unfold sample, trace_sample. by rewrite (rayOrigin_same i Hi).
Qed.

Lemma sample_idempotent (colorBuffer : gmap Z Z) :
  sample p l sx sy 0 (sample p l sx sy 0 colorBuffer) = sample p l sx sy 0 colorBuffer.
Proof.
  unfold sample. destruct (is_hit (trace_sample p l sx sy 0)); [|reflexivity].
  apply insert_insert_eq.
Qed.

Lemma sample_loop_repeats (n : nat) (i : Z) (colorBuffer : gmap Z Z) :
  0 <= i -> i + Z.of_nat n <= NUM_SAMPLES_PER_STRATIFY_CELL ->
  sample_loop p l sx sy n i (sample p l sx sy 0 colorBuffer)
  = sample p l sx sy 0 colorBuffer.
Proof.
  revert i. induction n as [|n IH]; intros i Hi Hn; [reflexivity|].
  cbn [sample_loop]. rewrite sample_same by lia. rewrite sample_idempotent.
  apply IH; lia.
Qed.

Lemma sample_loop_from_start (n : nat) (colorBuffer : gmap Z Z) :
  Z.of_nat (S n) <= NUM_SAMPLES_PER_STRATIFY_CELL ->
  sample_loop p l sx sy (S n) 0 colorBuffer = sample p l sx sy 0 colorBuffer.
Proof.
  intros Hn.
  change (sample_loop p l sx sy (S n) 0 colorBuffer)
    with (sample_loop p l sx sy n (0 + 1) (sample p l sx sy 0 colorBuffer)).
  apply sample_loop_repeats; lia.
Qed.

(** A sample leaves a texel as it was or puts the colour of the light. *)
Lemma sample_texel (i k : Z) (colorBuffer : gmap Z Z) :
  sample p l sx sy i colorBuffer !! k = colorBuffer !! k \/
  sample p l sx sy i colorBuffer !! k = Some (light_rgba l).
Proof.
  unfold sample. destruct (is_hit (trace_sample p l sx sy i)); [|by left].
  destruct (decide (texel_index p (trace_sample p l sx sy i) = k)) as [->|Hne].
  - right. apply lookup_insert_eq.
  - left. by apply lookup_insert_ne.
Qed.
End DirectLightingThreads.

Lemma raygen_one_sample (p : DirectLighting.LaunchParams) (lightIndex sx sy : Z)
    (colorBuffer : gmap Z Z) :
  DirectLighting.raygen p lightIndex sx sy colorBuffer
  = DirectLighting.sample p (DirectLighting.lights p lightIndex) sx sy 0 colorBuffer.
Proof.
  unfold DirectLighting.raygen.
  change (Z.to_nat DirectLighting.NUM_SAMPLES_PER_STRATIFY_CELL) with (S 63).
  apply sample_loop_from_start. unfold DirectLighting.NUM_SAMPLES_PER_STRATIFY_CELL. lia.
Qed.

(** X3. The 64 samples of a direct lighting thread all start from the same
    point, because the offset [i / NUM_SAMPLES_PER_STRATIFY_CELL] is an
    integer division; the thread therefore changes the colour buffer exactly
    as its first sample alone does. *)
Theorem direct_lighting_thread_is_one_sample
    (p : DirectLighting.LaunchParams) (lightIndex sx sy : Z) (colorBuffer : gmap Z Z) :
  (forall i, 0 <= i < 64 ->
     DirectLighting.rayOrigin p (DirectLighting.lights p lightIndex) sx sy i
     = DirectLighting.rayOrigin p (DirectLighting.lights p lightIndex) sx sy 0) /\
  DirectLighting.raygen p lightIndex sx sy colorBuffer
  = DirectLighting.sample p (DirectLighting.lights p lightIndex) sx sy 0 colorBuffer.
Proof.
  split.
  - intros i Hi. by apply rayOrigin_same.
  - apply raygen_one_sample.
Qed.

Lemma direct_lighting_launch_cons (p : DirectLighting.LaunchParams)
    (t : Z * Z * Z) (threads : list (Z * Z * Z)) (colorBuffer : gmap Z Z) :
  Launch.direct_lighting p (t :: threads) colorBuffer
  = Launch.direct_lighting p threads
      (DirectLighting.raygen p t.1.1 t.1.2 t.2 colorBuffer).
Proof. by destruct t as [[li sx] sy]. Qed.

(** X4. Whatever the scene and the order of the threads, a direct lighting
    launch leaves every texel of the colour buffer either as it was or
    holding the packed colour of one of the lights of the launched threads:
    an opaque 32-bit colour. *)
Theorem direct_lighting_launch_writes_light_colours
    (p : DirectLighting.LaunchParams) (threads : list (Z * Z * Z))
    (colorBuffer : gmap Z Z) (k : Z) :
  Launch.direct_lighting p threads colorBuffer !! k = colorBuffer !! k \/
  exists t, t ∈ threads /\
    Launch.direct_lighting p threads colorBuffer !! k
    = Some (DirectLighting.light_rgba (DirectLighting.lights p t.1.1)) /\
    Z.shiftr (DirectLighting.light_rgba (DirectLighting.lights p t.1.1)) 24 = 255.
Proof.
  revert colorBuffer. induction threads as [|t threads IH]; intros colorBuffer; [by left|].
  rewrite direct_lighting_launch_cons.
  destruct (IH (DirectLighting.raygen p t.1.1 t.1.2 t.2 colorBuffer))
    as [Hsame|(t' & Hin & Hval & Halpha)].
  - rewrite Hsame.
    rewrite raygen_one_sample.
    destruct (sample_texel p (DirectLighting.lights p t.1.1) t.1.2 t.2 0 k colorBuffer)
      as [Hkeep|Hlight]; [by left|].
    right. exists t. split; [by left|]. split; [exact Hlight|].
    unfold DirectLighting.light_rgba. apply pack_rgba_alpha.
  - right. exists t'. split; [by right|]. by split.
Qed.

Section DirectLightingLaunch.
Variable p : DirectLighting.LaunchParams.

Lemma direct_lighting_launch_snoc (threads : list (Z * Z * Z)) (t : Z * Z * Z)
    (colorBuffer : gmap Z Z) :
  Launch.direct_lighting p (threads ++ [t]) colorBuffer
  = DirectLighting.raygen p t.1.1 t.1.2 t.2 (Launch.direct_lighting p threads colorBuffer).
Proof.
  unfold Launch.direct_lighting. rewrite foldl_app. cbn [foldl].
  by destruct t as [[li sx] sy].
Qed.

(** A thread either never changes a texel or always leaves the same colour
    in it, whatever the buffer holds. *)
Lemma raygen_texel_cases (t : Z * Z * Z) (k : Z) :
  (forall b, DirectLighting.raygen p t.1.1 t.1.2 t.2 b !! k = b !! k) \/
  (exists c, forall b, DirectLighting.raygen p t.1.1 t.1.2 t.2 b !! k = Some c).
Proof.
  destruct (DirectLighting.is_hit
              (DirectLighting.trace_sample p (DirectLighting.lights p t.1.1) t.1.2 t.2 0))
    eqn:Hhit.
  - destruct (decide (DirectLighting.texel_index p
                (DirectLighting.trace_sample p (DirectLighting.lights p t.1.1) t.1.2 t.2 0)
              = k)) as [Heq|Hne].
    + right. exists (DirectLighting.light_rgba (DirectLighting.lights p t.1.1)).
      intros b. rewrite raygen_one_sample. unfold DirectLighting.sample.
      rewrite Hhit, Heq. apply lookup_insert_eq.
    + left. intros b. rewrite raygen_one_sample. unfold DirectLighting.sample.
      rewrite Hhit. by apply lookup_insert_ne.
  - left. intros b. rewrite raygen_one_sample. unfold DirectLighting.sample.
    by rewrite Hhit.
Qed.

(** A launch none of whose threads changes a texel leaves it alone. *)
Lemma launch_texel_kept (threads : list (Z * Z * Z)) (k : Z) :
  (forall t, t ∈ threads ->
     forall b, DirectLighting.raygen p t.1.1 t.1.2 t.2 b !! k = b !! k) ->
  forall b, Launch.direct_lighting p threads b !! k = b !! k.
Proof.
  induction threads as [|t threads IH] using rev_ind; intros Hkeep b; [reflexivity|].
  rewrite direct_lighting_launch_snoc.
  rewrite (Hkeep t) by (apply elem_of_app; right; apply list_elem_of_here).
  apply IH. intros t' Hin. apply Hkeep, elem_of_app. by left.
Qed.

(** A launch either leaves a texel alone, none of its threads changing it,
    or leaves a colour in it that does not depend on the buffer. *)
Lemma launch_texel_cases (threads : list (Z * Z * Z)) (k : Z) :
  (forall t, t ∈ threads ->
     forall b, DirectLighting.raygen p t.1.1 t.1.2 t.2 b !! k = b !! k) \/
  (exists c, forall b, Launch.direct_lighting p threads b !! k = Some c).
Proof.
  induction threads as [|t threads IH] using rev_ind.
  - left. intros t Hin. inversion Hin.
  - destruct (raygen_texel_cases t k) as [Hkeep|[c Hset]].
    + destruct IH as [Hkept|[c Hset]].
      * left. intros t' Hin. apply elem_of_app in Hin as [Hin|Hin]; [by apply Hkept|].
        apply list_elem_of_singleton in Hin. by subst t'.
      * right. exists c. intros b. by rewrite direct_lighting_launch_snoc, Hkeep.
    + right. exists c. intros b. by rewrite direct_lighting_launch_snoc.
Qed.
End DirectLightingLaunch.

(** X22. A direct lighting launch overrides an earlier launch of the same
    threads, in whatever orders the two ran: the threads store colours and
    do not add to what a texel holds, so the colour buffer after the second
    launch is the buffer that the second launch alone leaves from the
    initial buffer. It is enough that every thread of the first launch is
    a thread of the second. In particular a launch repeated in the same
    order changes nothing. *)
Theorem direct_lighting_launch_overrides (p : DirectLighting.LaunchParams)
    (first second : list (Z * Z * Z)) (colorBuffer : gmap Z Z) :
  (forall t, t ∈ first -> t ∈ second) ->
  Launch.direct_lighting p second (Launch.direct_lighting p first colorBuffer)
  = Launch.direct_lighting p second colorBuffer /\
  Launch.direct_lighting p second (Launch.direct_lighting p second colorBuffer)
  = Launch.direct_lighting p second colorBuffer.
Proof.
  intros Hsub.
  assert (Hover : forall threads, (forall t, t ∈ threads -> t ∈ second) ->
            Launch.direct_lighting p second (Launch.direct_lighting p threads colorBuffer)
            = Launch.direct_lighting p second colorBuffer).
  { intros threads Hin. apply map_eq. intros k.
    destruct (launch_texel_cases p second k) as [Hkept|[c Hset]].
    - rewrite !(launch_texel_kept p second k Hkept).
      apply launch_texel_kept. intros t Ht. by apply Hkept, Hin.
    - by rewrite !Hset. }
  split; [by apply Hover|]. apply Hover. by intros t Ht.
Qed.

Lemma direct_lighting_launch_overrides_witness :
  Launch.direct_lighting (Samples.direct_params Samples.one_hit)
    (reverse [(0, 0, 0); (0, 1, 0)])
    (Launch.direct_lighting (Samples.direct_params Samples.one_hit)
       [(0, 0, 0); (0, 1, 0)] {[256 := 0xff101010]})
  = Launch.direct_lighting (Samples.direct_params Samples.one_hit)
      (reverse [(0, 0, 0); (0, 1, 0)]) {[256 := 0xff101010]}.
Proof.
  assert (Hsub : forall t : Z * Z * Z,
            t ∈ [(0, 0, 0); (0, 1, 0)] -> t ∈ reverse [(0, 0, 0); (0, 1, 0)]).
  { intros t Ht. apply elem_of_reverse. exact Ht. }
  pose proof (direct_lighting_launch_overrides (Samples.direct_params Samples.one_hit)
                [(0, 0, 0); (0, 1, 0)] (reverse [(0, 0, 0); (0, 1, 0)])
                {[256 := 0xff101010]} Hsub) as [Hover _].
  exact Hover.
Defined.

(** ** Cubemap gather: hits, layout of the block, order of the threads *)

Lemma channel_ranges (c : Z) :
  0 <= rgba_red c < 256 /\ 0 <= rgba_green c < 256 /\ 0 <= rgba_blue c < 256.
Proof.
  unfold rgba_red, rgba_green, rgba_blue.
  change 0x000000ff with (Z.ones 8).
  change 0x0000ff00 with (Z.shiftl (Z.ones 8) 8).
  change 0x00ff0000 with (Z.shiftl (Z.ones 8) 16).
  rewrite !Z.shiftr_land.
  change (Z.shiftr (Z.shiftl (Z.ones 8) 8) 8) with (Z.ones 8).
  change (Z.shiftr (Z.shiftl (Z.ones 8) 16) 16) with (Z.ones 8).
  rewrite !(Z.land_comm (Z.ones 8)), !Z.land_ones by lia.
  repeat split; apply Z.mod_pos_bound; lia.
Qed.

(** A channel value survives the way through a payload register: converted
    to [float], stored as bits, read back and truncated to [int]. *)
Lemma byte_through_register (r : Z) :
  0 <= r < 256 -> F32.to_int (F32.uint_as_float (F32.float_as_uint (F32.of_int r))) = r.
Proof.
  intros Hr.
  assert (Hall : forallb
            (fun r => F32.to_int (F32.uint_as_float (F32.float_as_uint (F32.of_int r))) =? r)
            (seqZ 0 256) = true) by (vm_compute; reflexivity).
  rewrite forallb_forall in Hall. apply Z.eqb_eq, Hall.
  apply list_elem_of_In, elem_of_seqZ. lia.
Qed.

Lemma testbit_channel (c k n : Z) :
  0 <= k ->
  Z.testbit (Z.shiftr (Z.land (Z.shiftl (Z.ones 8) k) c) k) (n - k)
  = (k <=? n) && (n <? k + 8) && Z.testbit c n.
Proof.
  intros Hk. destruct (Z.leb_spec k n) as [Hn|Hn].
  - rewrite Z.shiftr_spec, Z.land_spec, Z.shiftl_spec by lia.
    replace (n - k + k) with n by lia.
    rewrite Z.testbit_ones by lia.
    by destruct (Z.leb_spec 0 (n - k)), (Z.ltb_spec (n - k) 8), (Z.ltb_spec n (k + 8));
      try lia.
  - by rewrite Z.testbit_neg_r by lia.
Qed.

(** The colour with its alpha byte replaced by 0xff. *)
Lemma pack_channels (c : Z) :
  pack_rgba (rgba_red c) (rgba_green c) (rgba_blue c)
  = Z.lor 0xff000000 (Z.land c 0x00ffffff).
Proof.
  apply Z.bits_inj'. intros n Hn.
  rewrite testbit_pack_rgba by lia. unfold rgba_red, rgba_green, rgba_blue.
  change 0xff000000 with (Z.shiftl (Z.ones 8) 24).
  change 0x00ffffff with (Z.ones 24).
  change (Z.land 0x000000ff c) with (Z.shiftr (Z.land (Z.shiftl (Z.ones 8) 0) c) 0).
  change 0x0000ff00 with (Z.shiftl (Z.ones 8) 8).
  change 0x00ff0000 with (Z.shiftl (Z.ones 8) 16).
  replace n with (n - 0) at 3 by lia.
  rewrite !testbit_channel by lia.
  rewrite Z.lor_spec, Z.land_spec, Z.shiftl_spec, !Z.testbit_ones by lia.
  destruct (Z.testbit c n);
    destruct (Z.ltb_spec n 32), (Z.leb_spec 24 n), (Z.leb_spec 0 n), (Z.ltb_spec n (0 + 8)),
      (Z.leb_spec 8 n), (Z.ltb_spec n (8 + 8)), (Z.leb_spec 16 n), (Z.ltb_spec n (16 + 8)),
      (Z.leb_spec 0 (n - 24)), (Z.ltb_spec (n - 24) 8), (Z.ltb_spec n 24);
    try lia; reflexivity.
Qed.

Lemma gather_hit_rgba `{DeviceLibrary} (p : CubeMapGather.LaunchParams) (h : Hit)
    (pl : CubeMapGather.Payload) :
  CubeMapGather.texel_rgba (CubeMapGather.closesthit p h pl)
  = Z.lor 0xff000000
      (Z.land (CubeMapGather.lightSourceTexture_colorBuffer p (GatherLayout.source_index p h))
              0x00ffffff).
Proof.
  rewrite <- pack_channels.
  unfold CubeMapGather.texel_rgba, CubeMapGather.closesthit,
    CubeMapGather.storeRadianceCellGatherPRD, CubeMapGather.loadRadianceCellGatherPRD.
  cbn [CubeMapGather.p0 CubeMapGather.p1 CubeMapGather.p2 CubeMapGather.resultColor
       v3x v3y v3z].
  unfold GatherLayout.source_index.
  set (c := CubeMapGather.lightSourceTexture_colorBuffer p _).
  fold (rgba_red c) (rgba_green c) (rgba_blue c).
  destruct (channel_ranges c) as (Hr & Hg & Hb).
  rewrite (byte_through_register _ Hr), (byte_through_register _ Hg),
    (byte_through_register _ Hb).
  exact eq_refl.
Qed.

(** X5. When the ray of a gather thread hits the scene, the thread writes
    to its cubemap texel the colour of the light source texel at the hit,
    with the alpha byte set to 0xff: the three colour bytes are copied
    unchanged. *)
Theorem cubemap_gather_hit_copies_colour `{DeviceLibrary}
    (p : CubeMapGather.LaunchParams) (uninit : CubeMapGather.Payload)
    (u v f : Z) (h : Hit) (cubeMaps : gmap Z Z) :
  let rayDir :=
    normalize
      (convert_uv_to_cube_xyz f
         (F32.div (F32.of_int u) (F32.of_int (CubeMapGather.cubeMapResolution p)))
         (F32.div (F32.of_int v) (F32.of_int (CubeMapGather.cubeMapResolution p)))) in
  closest_hit (CubeMapGather.sceneTraversable p) (CubeMapGather.probePosition p) rayDir
    F32.zero tmax_far = Some h ->
  let c := CubeMapGather.lightSourceTexture_colorBuffer p (GatherLayout.source_index p h) in
  CubeMapGather.raygen p uninit u v f cubeMaps
  = <[CubeMapGather.texel_index p u v f := Z.lor 0xff000000 (Z.land c 0x00ffffff)]> cubeMaps.
Proof.
  intros rayDir Hhit c. unfold CubeMapGather.raygen.
  apply (f_equal (fun x => <[CubeMapGather.texel_index p u v f := x]> cubeMaps)).
  unfold CubeMapGather.trace_texel, optixTrace. fold rayDir. rewrite Hhit.
  apply gather_hit_rgba.
Qed.

Lemma cubemap_gather_hit_copies_colour_witness :
  @CubeMapGather.raygen Samples.library (Examples.tinted_gather_params Samples.one_hit)
    (CubeMapGather.mkPayload 7 8 9) 0 0 0 ∅
  = {[0 := 0xff345678]}.
Proof.
  apply (@cubemap_gather_hit_copies_colour Samples.library
           (Examples.tinted_gather_params Samples.one_hit)
           (CubeMapGather.mkPayload 7 8 9) 0 0 0
           (mkHit F32.one 0 0 Samples.quarter Samples.quarter) ∅).
  reflexivity.
Defined.

(** ** Cubemap gather: layout and launches *)

Section GatherLayoutFacts.
Import CubeMapGather GatherLayout.
Context `{DeviceLibrary}.
Variable p : LaunchParams.
Hypothesis Hfits : fits p.

Let res := cubeMapResolution p.

Lemma face_offset_bounds (u v f : Z) :
  0 <= u < res -> 0 <= v < res -> 0 <= f < 6 ->
  0 <= v * res + u < res * res /\ 0 <= f * (res * res) <= 5 * (res * res).
Proof. intros Hu Hv Hf. split; nia. Qed.

(** The [int] arithmetic of the index is exact as long as the index itself
    is an [int]. *)
Lemma texel_index_exact (u v f : Z) :
  0 <= u -> 0 <= v -> 0 <= f ->
  probeOffset p + f * (res * res) + v * res + u < 2 ^ 31 ->
  texel_index p u v f = probeOffset p + f * (res * res) + v * res + u.
Proof.
  intros Hu Hv Hf Hint. destruct Hfits as (Hres & Hoff & Hend). fold res in Hres, Hend.
  assert (0 <= v * res) by nia.
  assert (0 <= res * res) by nia.
  assert (0 <= f * (res * res)) by nia.
  unfold texel_index. fold res.
  rewrite (int32_small (v * res)) by lia.
  rewrite (int32_small (v * res + u)) by lia.
  rewrite (int32_small (res * res)) by lia.
  rewrite (int32_small (f * (res * res))) by lia.
  rewrite (int32_small (probeOffset p + f * (res * res))) by lia.
  rewrite int32_small by lia. lia.
Qed.

Lemma texel_index_flat (u v f : Z) :
  0 <= u < res -> 0 <= v < res -> 0 <= f < 6 ->
  texel_index p u v f = probeOffset p + f * (res * res) + v * res + u.
Proof.
  intros Hu Hv Hf. destruct Hfits as (Hres & Hoff & Hend). fold res in Hres, Hend.
  destruct (face_offset_bounds u v f Hu Hv Hf) as [Hrow Hface].
  apply texel_index_exact; lia.
Qed.

Lemma flat_injective (u v f u' v' f' : Z) :
  0 <= u < res -> 0 <= v < res -> 0 <= f < 6 ->
  0 <= u' < res -> 0 <= v' < res -> 0 <= f' < 6 ->
  f * (res * res) + v * res + u = f' * (res * res) + v' * res + u' ->
  (u, v, f) = (u', v', f').
Proof.
  intros Hu Hv Hf Hu' Hv' Hf' Heq.
  destruct (face_offset_bounds u v f Hu Hv Hf) as [Hrow _].
  destruct (face_offset_bounds u' v' f' Hu' Hv' Hf') as [Hrow' _].
  assert (f = f') as <- by nia.
  assert (v = v') as <- by nia.
  assert (u = u') as <- by lia.
  reflexivity.
Qed.

Lemma texel_index_injective (u v f u' v' f' : Z) :
  0 <= u < res -> 0 <= v < res -> 0 <= f < 6 ->
  0 <= u' < res -> 0 <= v' < res -> 0 <= f' < 6 ->
  texel_index p u v f = texel_index p u' v' f' -> (u, v, f) = (u', v', f').
Proof.
  intros Hu Hv Hf Hu' Hv' Hf'. rewrite !texel_index_flat by assumption.
  intros Heq. apply flat_injective; try assumption. lia.
Qed.

Lemma texel_index_in_block (u v f : Z) :
  0 <= u < res -> 0 <= v < res -> 0 <= f < 6 -> in_block p (texel_index p u v f).
Proof.
  intros Hu Hv Hf. rewrite texel_index_flat by assumption.
  destruct (face_offset_bounds u v f Hu Hv Hf) as [Hrow Hface].
  unfold in_block. fold res. lia.
Qed.

Lemma block_texel_has_thread (k : Z) :
  in_block p k ->
  exists u v f, 0 <= u < res /\ 0 <= v < res /\ 0 <= f < 6 /\ texel_index p u v f = k.
Proof.
  unfold in_block. fold res. intros Hk.
  destruct Hfits as (Hres & Hoff & Hend). fold res in Hres, Hend.
  set (d := k - probeOffset p).
  assert (Hd : 0 <= d < 6 * (res * res)) by (unfold d; lia).
  assert (Hsq : 0 < res * res) by nia.
  pose proof (Z.div_mod d (res * res) ltac:(lia)) as Hface.
  pose proof (Z.mod_pos_bound d (res * res) Hsq) as Hrest.
  pose proof (Z.div_mod (d mod (res * res)) res ltac:(lia)) as Hrow.
  pose proof (Z.mod_pos_bound (d mod (res * res)) res Hres) as Hcol.
  assert (0 <= d / (res * res) < 6).
  { split; [apply Z.div_pos; lia|]. apply Z.div_lt_upper_bound; lia. }
  assert (0 <= d mod (res * res) / res < res).
  { split; [apply Z.div_pos; lia|]. apply Z.div_lt_upper_bound; lia. }
  exists (d mod (res * res) mod res), (d mod (res * res) / res), (d / (res * res)).
  split_and!; try lia.
  rewrite texel_index_flat by lia. unfold d in *. lia.
Qed.

(** Past the end of a row the index runs into the next row. *)
Lemma texel_index_wraps_row (v f : Z) :
  0 <= v -> 0 <= f ->
  probeOffset p + f * (res * res) + (v + 1) * res < 2 ^ 31 ->
  texel_index p res v f = texel_index p 0 (v + 1) f.
Proof.
  intros Hv Hf Hint. destruct Hfits as (Hres & Hoff & Hend). fold res in Hres, Hend.
  rewrite (texel_index_exact res v f) by lia.
  rewrite (texel_index_exact 0 (v + 1) f) by lia. lia.
Qed.

(** Rows past the sixth face leave the block of the probe. *)
Lemma texel_index_leaves_block (u v : Z) :
  0 <= u -> 0 <= v -> 6 * (res * res) <= v * res + u ->
  probeOffset p + v * res + u < 2 ^ 31 ->
  ~ in_block p (texel_index p u v 0).
Proof.
  intros Hu Hv Hpast Hint. rewrite (texel_index_exact u v 0) by lia.
  unfold in_block. fold res. lia.
Qed.
End GatherLayoutFacts.

Section GatherLaunchFacts.
Import CubeMapGather GatherLayout.
Context `{DeviceLibrary}.
Variable p : LaunchParams.

(** Neither program reads the registers it finds: both overwrite the
    radiance they loaded. *)
Lemma trace_texel_ignores_registers (pl pl' : Payload) (u v f : Z) :
  trace_texel p pl u v f = trace_texel p pl' u v f.
Proof.
  unfold trace_texel, optixTrace.
  by destruct (closest_hit _ _ _ _ _).
Qed.

Lemma raygen_value (pl : Payload) (u v f : Z) (cubeMaps : gmap Z Z) :
  raygen p pl u v f cubeMaps = <[texel_index p u v f := texel_value p u v f]> cubeMaps.
Proof.
  unfold raygen, texel_value.
  by rewrite (trace_texel_ignores_registers pl (mkPayload 0 0 0)).
Qed.

(** A gather launch is a launch of threads that each store one value. *)
Lemma gather_run_threads_stores (uninit : Z * Z * Z -> Payload)
    (threads : list (Z * Z * Z)) (cubeMaps : gmap Z Z) :
  run_threads p uninit threads cubeMaps
  = foldl (fun m t => <[texel_index p t.1.1 t.1.2 t.2 := texel_value p t.1.1 t.1.2 t.2]> m)
          cubeMaps threads.
Proof.
  revert cubeMaps. induction threads as [|[[u v] f] threads IH]; intros cubeMaps.
  - reflexivity.
  - rewrite run_threads_cons, IH, raygen_value. reflexivity.
Qed.

Lemma gather_launch_untouched (uninit : Z * Z * Z -> Payload)
    (threads : list (Z * Z * Z)) (cubeMaps : gmap Z Z) (k : Z) :
  (forall u v f, (u, v, f) ∈ threads -> texel_index p u v f <> k) ->
  run_threads p uninit threads cubeMaps !! k = cubeMaps !! k.
Proof.
  intros Hne. rewrite gather_run_threads_stores.
  apply (stores_untouched (fun t => texel_index p t.1.1 t.1.2 t.2)
           (fun t => texel_value p t.1.1 t.1.2 t.2)).
  intros [[u v] f] Hin. by apply Hne.
Qed.

Lemma gather_launch_last_writer (uninit : Z * Z * Z -> Payload)
    (pre post : list (Z * Z * Z)) (u v f : Z) (cubeMaps : gmap Z Z) :
  (forall u' v' f', (u', v', f') ∈ post -> texel_index p u' v' f' <> texel_index p u v f) ->
  run_threads p uninit (pre ++ (u, v, f) :: post) cubeMaps !! texel_index p u v f
  = Some (texel_value p u v f).
Proof.
  intros Hpost. rewrite gather_run_threads_stores.
  apply (stores_last (fun t => texel_index p t.1.1 t.1.2 t.2)
           (fun t => texel_value p t.1.1 t.1.2 t.2) pre post (u, v, f)).
  intros [[u' v'] f'] Hin. by apply Hpost.
Qed.

Lemma gather_launch_lookup (uninit : Z * Z * Z -> Payload)
    (threads : list (Z * Z * Z)) (cubeMaps : gmap Z Z) (k : Z) :
  run_threads p uninit threads cubeMaps !! k = cubeMaps !! k \/
  exists u v f, (u, v, f) ∈ threads /\ texel_index p u v f = k /\
    run_threads p uninit threads cubeMaps !! k = Some (texel_value p u v f).
Proof.
  rewrite gather_run_threads_stores.
  destruct (stores_lookup (fun t => texel_index p t.1.1 t.1.2 t.2)
              (fun t => texel_value p t.1.1 t.1.2 t.2) threads cubeMaps k)
    as [Hsame|([[u v] f] & Hin & Hkey & Hval)]; [by left|].
  right. by exists u, v, f.
Qed.

Lemma gather_launch_written (uninit : Z * Z * Z -> Payload)
    (threads : list (Z * Z * Z)) (cubeMaps : gmap Z Z) (u v f : Z) :
  (u, v, f) ∈ threads ->
  exists u' v' f', (u', v', f') ∈ threads /\
    texel_index p u' v' f' = texel_index p u v f /\
    run_threads p uninit threads cubeMaps !! texel_index p u v f
    = Some (texel_value p u' v' f').
Proof.
  intros Hin. rewrite gather_run_threads_stores.
  destruct (stores_written (fun t => texel_index p t.1.1 t.1.2 t.2)
              (fun t => texel_value p t.1.1 t.1.2 t.2) threads cubeMaps (u, v, f) Hin)
    as ([[u' v'] f'] & Hin' & Hkey & Hval).
  by exists u', v', f'.
Qed.

Lemma gather_launch_registers (uninit uninit' : Z * Z * Z -> Payload)
    (threads : list (Z * Z * Z)) (cubeMaps : gmap Z Z) :
  run_threads p uninit threads cubeMaps = run_threads p uninit' threads cubeMaps.
Proof. by rewrite !gather_run_threads_stores. Qed.

Lemma gather_launch_permutation (uninit uninit' : Z * Z * Z -> Payload)
    (threads threads' : list (Z * Z * Z)) (cubeMaps : gmap Z Z) :
  threads ≡ₚ threads' ->
  (forall u v f u' v' f', (u, v, f) ∈ threads -> (u', v', f') ∈ threads ->
     texel_index p u v f = texel_index p u' v' f' ->
     texel_value p u v f = texel_value p u' v' f') ->
  run_threads p uninit threads cubeMaps = run_threads p uninit' threads' cubeMaps.
Proof.
  intros Hperm Hagree. rewrite !gather_run_threads_stores.
  apply (stores_permutation (fun t => texel_index p t.1.1 t.1.2 t.2)
           (fun t => texel_value p t.1.1 t.1.2 t.2) threads threads' Hperm).
  intros [[u v] f] [[u' v'] f'] Hin Hin'. by apply Hagree.
Qed.

Lemma gather_launch_race (uninit uninit' : Z * Z * Z -> Payload)
    (rest : list (Z * Z * Z)) (u v f u' v' f' : Z) (cubeMaps : gmap Z Z) :
  texel_index p u v f = texel_index p u' v' f' ->
  texel_value p u v f <> texel_value p u' v' f' ->
  run_threads p uninit (rest ++ [(u, v, f); (u', v', f')]) cubeMaps
  <> run_threads p uninit' (rest ++ [(u', v', f'); (u, v, f)]) cubeMaps.
Proof.
  intros Hkey Hval. rewrite !gather_run_threads_stores.
  exact (stores_race (fun t => texel_index p t.1.1 t.1.2 t.2)
           (fun t => texel_value p t.1.1 t.1.2 t.2) rest (u, v, f) (u', v', f')
           cubeMaps Hkey Hval).
Qed.

(** The launch indices of a grid. *)
Lemma launch_grid_elem (width height depth u v f : Z) :
  (u, v, f) ∈ launch_grid width height depth
  <-> 0 <= u < width /\ 0 <= v < height /\ 0 <= f < depth.
Proof.
  split.
  - unfold launch_grid.
    intros (f' & Hin & Hf)%list_elem_of_bind. apply elem_of_seqZ in Hf.
    apply list_elem_of_bind in Hin as (v' & Hin & Hv). apply elem_of_seqZ in Hv.
    apply list_elem_of_bind in Hin as (u' & Hin & Hu). apply elem_of_seqZ in Hu.
    apply list_elem_of_singleton in Hin. inversion Hin; subst. lia.
  - intros (Hu & Hv & Hf). by apply launch_grid_covers.
Qed.
End GatherLaunchFacts.

(** X6. Layout of a probe in the cubemap buffer. When the six faces of the
    probe fit the [int] arithmetic of the kernel, the thread of a launch
    index (u, v, f) without a negative component writes the texel
    probeOffset + f * res^2 + v * res + u, as long as that number is below
    2^31. Among the launch indices with u < res, v < res and f < 6 no two
    write the same texel, and their texels are exactly the 6 * res^2 texels
    that follow probeOffset. Other launch indices share texels and leave
    the block: (res, v, f) writes the texel of (0, v + 1, f), and an index
    (u, v, 0) with v * res + u >= 6 * res^2 writes past the block. *)
Theorem cubemap_gather_texel_layout (p : CubeMapGather.LaunchParams) :
  GatherLayout.fits p ->
  let res := CubeMapGather.cubeMapResolution p in
  (forall u v f, 0 <= u -> 0 <= v -> 0 <= f ->
     CubeMapGather.probeOffset p + f * (res * res) + v * res + u < 2 ^ 31 ->
     CubeMapGather.texel_index p u v f
     = CubeMapGather.probeOffset p + f * (res * res) + v * res + u) /\
  (forall u v f u' v' f',
     0 <= u < res -> 0 <= v < res -> 0 <= f < 6 ->
     0 <= u' < res -> 0 <= v' < res -> 0 <= f' < 6 ->
     CubeMapGather.texel_index p u v f = CubeMapGather.texel_index p u' v' f' ->
     (u, v, f) = (u', v', f')) /\
  (forall k,
     GatherLayout.in_block p k <->
     exists u v f, 0 <= u < res /\ 0 <= v < res /\ 0 <= f < 6 /\
       CubeMapGather.texel_index p u v f = k) /\
  (forall v f, 0 <= v -> 0 <= f ->
     CubeMapGather.probeOffset p + f * (res * res) + (v + 1) * res < 2 ^ 31 ->
     CubeMapGather.texel_index p res v f = CubeMapGather.texel_index p 0 (v + 1) f) /\
  (forall u v, 0 <= u -> 0 <= v -> 6 * (res * res) <= v * res + u ->
     CubeMapGather.probeOffset p + v * res + u < 2 ^ 31 ->
     ~ GatherLayout.in_block p (CubeMapGather.texel_index p u v 0)).
Proof.
  intros Hfits res. split_and!.
  - apply (texel_index_exact p Hfits).
  - apply (texel_index_injective p Hfits).
  - intros k. split.
    + apply (block_texel_has_thread p Hfits).
    + intros (u & v & f & Hu & Hv & Hf & <-). by apply texel_index_in_block.
  - apply (texel_index_wraps_row p Hfits).
  - apply (texel_index_leaves_block p Hfits).
Qed.

Lemma cubemap_gather_texel_layout_witness :
  CubeMapGather.texel_index (Examples.renderer_gather_params Samples.empty_scene) 128 0 0
  = CubeMapGather.texel_index (Examples.renderer_gather_params Samples.empty_scene) 0 1 0 /\
  CubeMapGather.texel_index (Examples.renderer_gather_params Samples.empty_scene) 1023 1023 0
  = 0 + 0 * (128 * 128) + 1023 * 128 + 1023 /\
  ~ GatherLayout.in_block (Examples.renderer_gather_params Samples.empty_scene)
      (CubeMapGather.texel_index (Examples.renderer_gather_params Samples.empty_scene)
         1023 1023 0).
Proof.
  assert (Hfits : GatherLayout.fits (Examples.renderer_gather_params Samples.empty_scene)).
  { unfold GatherLayout.fits. simpl. lia. }
  pose proof (cubemap_gather_texel_layout
                (Examples.renderer_gather_params Samples.empty_scene) Hfits)
    as (Hflat & _ & _ & Hwrap & Hleave).
  split; [|split].
  - apply (Hwrap 0 0); simpl; lia.
  - apply (Hflat 1023 1023 0); simpl; lia.
  - apply (Hleave 1023 1023); simpl; lia.
Defined.

(** X7. What a gather launch leaves in the cubemap buffer, for any launch
    dimensions, any order of the threads and any content of the payload
    registers before the traces. A texel that no launch index of the launch
    maps to holds what it held before. The texel of a launch index holds
    the colour computed for the last thread of the launch that maps to it:
    the colour of that index itself when no later thread maps there, or
    when all the threads that map there compute the same colour. Every
    texel holds what it held before or the colour of a thread that maps to
    it. When the six faces of the probe fit the [int] arithmetic and the
    launch has at most res x res x 6 threads, the texel
    probeOffset + f * res^2 + v * res + u holds the colour of the launch
    index (u, v, f) and the texels outside the block of the probe are
    unchanged. *)
Theorem cubemap_gather_launch_last_writer `{DeviceLibrary}
    (p : CubeMapGather.LaunchParams) (uninit : Z * Z * Z -> CubeMapGather.Payload)
    (schedule : list (Z * Z * Z)) (cubeMaps : gmap Z Z) :
  let res := CubeMapGather.cubeMapResolution p in
  let after := CubeMapGather.run_threads p uninit schedule cubeMaps in
  (forall k,
     (forall u v f, (u, v, f) ∈ schedule -> CubeMapGather.texel_index p u v f <> k) ->
     after !! k = cubeMaps !! k) /\
  (forall pre post u v f,
     schedule = pre ++ (u, v, f) :: post ->
     (forall u' v' f', (u', v', f') ∈ post ->
        CubeMapGather.texel_index p u' v' f' <> CubeMapGather.texel_index p u v f) ->
     after !! CubeMapGather.texel_index p u v f = Some (GatherLayout.texel_value p u v f)) /\
  (forall u v f, (u, v, f) ∈ schedule ->
     exists u' v' f', (u', v', f') ∈ schedule /\
       CubeMapGather.texel_index p u' v' f' = CubeMapGather.texel_index p u v f /\
       after !! CubeMapGather.texel_index p u v f
       = Some (GatherLayout.texel_value p u' v' f')) /\
  (forall u v f, (u, v, f) ∈ schedule ->
     (forall u' v' f', (u', v', f') ∈ schedule ->
        CubeMapGather.texel_index p u' v' f' = CubeMapGather.texel_index p u v f ->
        GatherLayout.texel_value p u' v' f' = GatherLayout.texel_value p u v f) ->
     after !! CubeMapGather.texel_index p u v f = Some (GatherLayout.texel_value p u v f)) /\
  (forall k,
     after !! k = cubeMaps !! k \/
     exists u v f, (u, v, f) ∈ schedule /\ CubeMapGather.texel_index p u v f = k /\
       after !! k = Some (GatherLayout.texel_value p u v f)) /\
  (forall width height depth,
     GatherLayout.fits p -> width <= res -> height <= res -> depth <= 6 ->
     schedule ≡ₚ CubeMapGather.launch_grid width height depth ->
     (forall u v f, 0 <= u < width -> 0 <= v < height -> 0 <= f < depth ->
        after !! (CubeMapGather.probeOffset p + f * (res * res) + v * res + u)
        = Some (GatherLayout.texel_value p u v f)) /\
     (forall k, ~ GatherLayout.in_block p k -> after !! k = cubeMaps !! k)).
Proof.
  intros res after. subst res after. split_and!.
  - intros k. apply gather_launch_untouched.
  - intros pre post u v f -> Hpost. by apply gather_launch_last_writer.
  - intros u v f. apply gather_launch_written.
  - intros u v f Hin Hagree.
    destruct (gather_launch_written p uninit schedule cubeMaps u v f Hin)
      as (u' & v' & f' & Hin' & Hkey & ->).
    by rewrite (Hagree u' v' f' Hin' Hkey).
  - intros k. apply gather_launch_lookup.
  - intros width height depth Hfits Hw Hh Hd Hschedule.
    assert (Hgrid : forall u v f, (u, v, f) ∈ schedule ->
              0 <= u < CubeMapGather.cubeMapResolution p /\
              0 <= v < CubeMapGather.cubeMapResolution p /\ 0 <= f < 6).
    { intros u v f Hin. rewrite Hschedule in Hin.
      apply launch_grid_elem in Hin. lia. }
    split.
    + intros u v f Hu Hv Hf.
      assert (Hin : (u, v, f) ∈ schedule).
      { rewrite Hschedule. by apply launch_grid_covers. }
      destruct (Hgrid u v f Hin) as (Hu' & Hv' & Hf').
      rewrite <- (texel_index_flat p Hfits u v f Hu' Hv' Hf').
      destruct (gather_launch_written p uninit schedule cubeMaps u v f Hin)
        as (u' & v' & f' & Hin' & Hkey & ->).
      destruct (Hgrid u' v' f' Hin') as (? & ? & ?).
      apply (texel_index_injective p Hfits) in Hkey; [|assumption..].
      by inversion Hkey.
    + intros k Hout. apply gather_launch_untouched.
      intros u v f Hin <-. apply Hout.
      destruct (Hgrid u v f Hin) as (? & ? & ?). by apply texel_index_in_block.
Qed.

Lemma cubemap_gather_launch_last_writer_witness :
  @CubeMapGather.run_threads Samples.library
    (Examples.renderer_gather_params Examples.half_scene)
    (fun _ => CubeMapGather.mkPayload 7 8 9) ([(0, 1, 0)] ++ (128, 0, 0) :: []) ∅
  !! CubeMapGather.texel_index (Examples.renderer_gather_params Examples.half_scene) 128 0 0
  = Some (@GatherLayout.texel_value Samples.library
            (Examples.renderer_gather_params Examples.half_scene) 128 0 0).
Proof.
  pose proof (@cubemap_gather_launch_last_writer Samples.library
                (Examples.renderer_gather_params Examples.half_scene)
                (fun _ => CubeMapGather.mkPayload 7 8 9)
                ([(0, 1, 0)] ++ (128, 0, 0) :: []) ∅) as (_ & Hlast & _).
  apply (Hlast [(0, 1, 0)] [] 128 0 0 eq_refl).
  intros u v f Hin. inversion Hin.
Defined.

(** X8. Order and registers in a gather launch. The content of the payload
    registers before the traces never shows in the cubemap buffer. Two
    runs of the same launch indices in different orders leave the same
    buffer when the launch indices that map to the same texel compute the
    same colour; this is so, under the fit of the six faces in the [int]
    arithmetic, for every launch of at most res x res x 6 threads, where no
    two launch indices map to the same texel. When two launch indices map
    to the same texel and compute different colours, the buffer depends on
    which of the two ran last. *)
Theorem cubemap_gather_launch_order `{DeviceLibrary}
    (p : CubeMapGather.LaunchParams) (uninit uninit' : Z * Z * Z -> CubeMapGather.Payload)
    (cubeMaps : gmap Z Z) :
  let res := CubeMapGather.cubeMapResolution p in
  (forall schedule,
     CubeMapGather.run_threads p uninit schedule cubeMaps
     = CubeMapGather.run_threads p uninit' schedule cubeMaps) /\
  (forall schedule schedule',
     schedule ≡ₚ schedule' ->
     (forall u v f u' v' f', (u, v, f) ∈ schedule -> (u', v', f') ∈ schedule ->
        CubeMapGather.texel_index p u v f = CubeMapGather.texel_index p u' v' f' ->
        GatherLayout.texel_value p u v f = GatherLayout.texel_value p u' v' f') ->
     CubeMapGather.run_threads p uninit schedule cubeMaps
     = CubeMapGather.run_threads p uninit' schedule' cubeMaps) /\
  (forall width height depth schedule,
     GatherLayout.fits p -> width <= res -> height <= res -> depth <= 6 ->
     schedule ≡ₚ CubeMapGather.launch_grid width height depth ->
     CubeMapGather.run_threads p uninit schedule cubeMaps
     = CubeMapGather.launch p uninit' width height depth cubeMaps) /\
  (forall rest u v f u' v' f',
     CubeMapGather.texel_index p u v f = CubeMapGather.texel_index p u' v' f' ->
     GatherLayout.texel_value p u v f <> GatherLayout.texel_value p u' v' f' ->
     CubeMapGather.run_threads p uninit (rest ++ [(u, v, f); (u', v', f')]) cubeMaps
     <> CubeMapGather.run_threads p uninit' (rest ++ [(u', v', f'); (u, v, f)]) cubeMaps).
Proof.
  intros res. subst res. split_and!.
  - intros schedule. apply gather_launch_registers.
  - intros schedule schedule'. apply gather_launch_permutation.
  - intros width height depth schedule Hfits Hw Hh Hd Hschedule.
    unfold CubeMapGather.launch.
    apply gather_launch_permutation; [exact Hschedule|].
    intros u v f u' v' f' Hin Hin' Hkey.
    rewrite Hschedule in Hin, Hin'.
    apply launch_grid_elem in Hin, Hin'.
    apply (texel_index_injective p Hfits) in Hkey; [|lia..].
    by inversion Hkey.
  - intros rest u v f u' v' f'. apply gather_launch_race.
Qed.

Lemma cubemap_gather_launch_order_witness :
  @CubeMapGather.run_threads Samples.library
    (Examples.renderer_gather_params Examples.half_scene)
    (fun _ => CubeMapGather.mkPayload 7 8 9) ([] ++ [(128, 0, 0); (0, 1, 0)]) ∅
  <> @CubeMapGather.run_threads Samples.library
       (Examples.renderer_gather_params Examples.half_scene)
       (fun _ => CubeMapGather.mkPayload 0 0 0) ([] ++ [(0, 1, 0); (128, 0, 0)]) ∅.
Proof.
  pose proof (@cubemap_gather_launch_order Samples.library
                (Examples.renderer_gather_params Examples.half_scene)
                (fun _ => CubeMapGather.mkPayload 7 8 9)
                (fun _ => CubeMapGather.mkPayload 0 0 0) ∅) as (_ & _ & _ & Hrace).
  apply (Hrace [] 128 0 0 0 1 0).
  - vm_compute. reflexivity.
  - vm_compute. discriminate.
Defined.

(** ** Payload registers *)

Lemma digits2_pos_bounds (m : positive) :
  2 ^ (Z.pos (digits2_pos m) - 1) <= Z.pos m < 2 ^ Z.pos (digits2_pos m).
Proof.
  induction m as [m IH|m IH|]; cbn [digits2_pos].
  - rewrite Pos2Z.inj_succ, Z.pow_succ_r by lia.
    replace (Z.succ (Z.pos (digits2_pos m)) - 1) with (Z.succ (Z.pos (digits2_pos m) - 1))
      by lia.
    rewrite Z.pow_succ_r by lia. lia.
  - rewrite Pos2Z.inj_succ, Z.pow_succ_r by lia.
    replace (Z.succ (Z.pos (digits2_pos m)) - 1) with (Z.succ (Z.pos (digits2_pos m) - 1))
      by lia.
    rewrite Z.pow_succ_r by lia. lia.
  - cbn. lia.
Qed.

(** A valid binary32 number is subnormal, with the exponent -149, or has a
    mantissa of 24 bits. *)
Lemma valid_binary32_finite (s : bool) (m : positive) (e : Z) :
  valid_binary F32.prec F32.emax (S754_finite s m e) = true ->
  (Z.pos m < 2 ^ 23 /\ e = - 149) \/
  (2 ^ 23 <= Z.pos m < 2 ^ 24 /\ - 149 <= e <= 104).
Proof.
  unfold valid_binary, bounded, canonical_mantissa, fexp, emin, F32.prec, F32.emax.
  intros [Hcanon Hmax%Z.leb_le]%andb_true_iff. apply Z.eqb_eq in Hcanon.
  pose proof (digits2_pos_bounds m) as [Hlow Hhigh].
  destruct (Z.le_gt_cases 24 (Z.pos (digits2_pos m))) as [Hbig|Hsmall].
  - right. assert (Z.pos (digits2_pos m) = 24) as Hd by lia.
    rewrite Hd in Hlow, Hhigh. change (2 ^ (24 - 1)) with (2 ^ 23) in Hlow. lia.
  - left. split; [|lia].
    apply Z.lt_le_trans with (2 ^ Z.pos (digits2_pos m)); [lia|].
    apply Z.pow_le_mono_r; lia.
Qed.

Lemma bits_of_pattern (sign ex fr : Z) :
  0 <= sign <= 1 -> 0 <= ex < 256 -> 0 <= fr < 2 ^ 23 ->
  let u := sign * 2 ^ 31 + ex * 2 ^ 23 + fr in
  Z.testbit u 31 = (sign =? 1) /\
  Z.land (Z.shiftr u 23) 255 = ex /\
  Z.land u (2 ^ 23 - 1) = fr.
Proof.
  intros Hsign Hex Hfr u. split_and!.
  - rewrite Z.testbit_odd, Z.shiftr_div_pow2 by lia.
    replace u with (ex * 2 ^ 23 + fr + sign * 2 ^ 31) by (unfold u; lia).
    rewrite Z.div_add by lia. rewrite Z.div_small by lia.
    assert (sign = 0 \/ sign = 1) as [-> | ->] by lia; reflexivity.
  - change 255 with (Z.ones 8). rewrite Z.land_ones, Z.shiftr_div_pow2 by lia.
    replace u with (fr + (sign * 2 ^ 8 + ex) * 2 ^ 23) by (unfold u; lia).
    rewrite Z.div_add by lia. rewrite (Z.div_small fr) by lia.
    rewrite Z.add_0_l, Z.add_comm, Z.mod_add by lia. apply Z.mod_small. lia.
  - change (2 ^ 23 - 1) with (Z.ones 23). rewrite Z.land_ones by lia.
    replace u with (fr + (sign * 2 ^ 8 + ex) * 2 ^ 23) by (unfold u; lia).
    rewrite Z.mod_add by lia. apply Z.mod_small. lia.
Qed.

(** The bit pattern of a binary32 number denotes that number. *)
Lemma uint_as_float_float_as_uint (f : float) :
  valid_binary F32.prec F32.emax f = true -> F32.uint_as_float (F32.float_as_uint f) = f.
Proof.
  destruct f as [s|s| |s m e]; intros Hvalid.
  - by destruct s.
  - by destruct s.
  - reflexivity.
  - apply valid_binary32_finite in Hvalid as [[Hm ->]|[Hm He]].
    + unfold F32.float_as_uint. destruct (Z.ltb_spec (Z.pos m) (2 ^ 23)) as [_|?]; [|lia].
      destruct (bits_of_pattern (if s then 1 else 0) 0 (Z.pos m)) as (Hs & Hex & Hfr);
        [destruct s; lia|lia|lia|].
      replace ((if s then 1 else 0) * 2 ^ 31 + 0 * 2 ^ 23 + Z.pos m)
        with ((if s then 2 ^ 31 else 0) + Z.pos m) in * by (destruct s; lia).
      unfold F32.uint_as_float. cbv zeta. rewrite Hs, Hex, Hfr.
      change (0 =? 255) with false. change (0 =? 0) with true. cbv iota.
      by destruct s.
    + unfold F32.float_as_uint. destruct (Z.ltb_spec (Z.pos m) (2 ^ 23)) as [?|_]; [lia|].
      destruct (bits_of_pattern (if s then 1 else 0) (e + 150) (Z.pos m - 2 ^ 23))
        as (Hs & Hex & Hfr); [destruct s; lia|lia|lia|].
      replace ((if s then 1 else 0) * 2 ^ 31 + (e + 150) * 2 ^ 23 + (Z.pos m - 2 ^ 23))
        with ((if s then 2 ^ 31 else 0) + ((e + 150) * 2 ^ 23 + (Z.pos m - 2 ^ 23))) in *
        by (destruct s; lia).
      unfold F32.uint_as_float. cbv zeta. rewrite Hs, Hex, Hfr.
      destruct (Z.eqb_spec (e + 150) 255) as [?|_]; [lia|].
      destruct (Z.eqb_spec (e + 150) 0) as [?|_]; [lia|].
      replace (Z.pos m - 2 ^ 23 + 2 ^ 23) with (Z.pos m) by lia.
      replace (e + 150 - 150) with e by lia.
      by destruct s.
Qed.

(** X9. The per-ray data of the gather and scatter programs survives its
    way through the payload registers: loading what was stored gives back
    the same record, provided its components are binary32 numbers (NaN
    included). *)
Theorem payload_store_load_roundtrip `{DeviceLibrary} (flag : Z) (c : vec3) :
  valid_binary F32.prec F32.emax (v3x c) = true ->
  valid_binary F32.prec F32.emax (v3y c) = true ->
  valid_binary F32.prec F32.emax (v3z c) = true ->
  CubeMapGather.loadRadianceCellGatherPRD
    (CubeMapGather.storeRadianceCellGatherPRD (CubeMapGather.mkPRD c))
  = CubeMapGather.mkPRD c /\
  ScatterHybrid.loadRadianceCellScatterPRD
    (ScatterHybrid.storeRadianceCellScatterPRD (ScatterHybrid.mkPRD flag c))
  = ScatterHybrid.mkPRD flag c /\
  ScatterUnbiased.loadRadianceCellScatterUnbiasedPRD
    (ScatterUnbiased.storeRadianceCellScatterUnbiasedPRD (ScatterUnbiased.mkPRD c))
  = ScatterUnbiased.mkPRD c.
Proof.
  intros Hx Hy Hz. destruct c as [x y z]. cbn [v3x v3y v3z] in *.
  unfold CubeMapGather.loadRadianceCellGatherPRD, CubeMapGather.storeRadianceCellGatherPRD,
    ScatterHybrid.loadRadianceCellScatterPRD, ScatterHybrid.storeRadianceCellScatterPRD,
    ScatterUnbiased.loadRadianceCellScatterUnbiasedPRD,
    ScatterUnbiased.storeRadianceCellScatterUnbiasedPRD.
  cbn [CubeMapGather.p0 CubeMapGather.p1 CubeMapGather.p2 CubeMapGather.resultColor
       ScatterHybrid.p0 ScatterHybrid.p1 ScatterHybrid.p2 ScatterHybrid.p3
       ScatterHybrid.resultColor ScatterHybrid.hitFound
       ScatterUnbiased.p0 ScatterUnbiased.p1 ScatterUnbiased.p2 ScatterUnbiased.resultColor
       v3x v3y v3z].
  rewrite !(uint_as_float_float_as_uint x Hx), !(uint_as_float_float_as_uint y Hy),
    !(uint_as_float_float_as_uint z Hz).
  split_and!; exact eq_refl.
Qed.

Lemma payload_store_load_roundtrip_witness :
  CubeMapGather.loadRadianceCellGatherPRD
    (CubeMapGather.storeRadianceCellGatherPRD
       (CubeMapGather.mkPRD (mkVec3 Samples.half S754_nan (F32.opp F32.PI))))
  = CubeMapGather.mkPRD (mkVec3 Samples.half S754_nan (F32.opp F32.PI)).
Proof.
  apply (@payload_store_load_roundtrip Samples.library 1
           (mkVec3 Samples.half S754_nan (F32.opp F32.PI))); reflexivity.
Defined.

(** ** Scatter passes: what the threads do not depend on *)

Section HybridProbeOnly.
Import ScatterHybrid.
Context `{DeviceLibrary}.

Lemma sample_step_probe (p : LaunchParams) (ctx : ThreadContext) (uninit : Z * Z * Z)
    (seed : Z) :
  Variations.positive_distances (sceneTraversable p) ->
  sample_step p ctx uninit seed
  = (probe_contribution p ctx
       (orient_direction ctx (random_direction seed).1).1
       (orient_direction ctx (random_direction seed).1).2,
     (random_direction seed).2).
Proof.
  intros Hpos. unfold sample_step.
  destruct (random_direction seed) as [d seed']. cbn [fst snd].
  destruct (orient_direction ctx d) as [dir c]. cbn [fst snd]. f_equal.
  unfold select_contribution.
  pose proof (trace_sample_flag p ctx uninit dir) as Hflag.
  unfold TRACING_RANGE in Hflag.
  rewrite (closest_hit_zero_range p F32.zero _ _ (Hpos _ _)) in Hflag.
  destruct Hflag as [_ ->]. reflexivity.
Qed.

Lemma thread_context_other_scene (p : LaunchParams) (trav' : Traversable)
    (prev' : Z -> TextureObject) (uvIndex : Z) :
  thread_context (Variations.with_previous_bounce (with_scene p trav') prev') uvIndex
  = thread_context p uvIndex.
Proof. destruct p. exact eq_refl. Qed.

Lemma probe_contribution_other_scene (p : LaunchParams) (trav' : Traversable)
    (prev' : Z -> TextureObject) (ctx : ThreadContext) (dir : vec3) (c : float) :
  probe_contribution (Variations.with_previous_bounce (with_scene p trav') prev') ctx dir c
  = probe_contribution p ctx dir c.
Proof. destruct p. exact eq_refl. Qed.

Lemma sample_loop_other_scene (p : LaunchParams) (trav' : Traversable)
    (prev' : Z -> TextureObject) (ctx : ThreadContext) (uninit uninit' : Z -> Z * Z * Z)
    (n : nat) (s seed : Z) (total : vec3) :
  Variations.positive_distances (sceneTraversable p) ->
  Variations.positive_distances trav' ->
  sample_loop (Variations.with_previous_bounce (with_scene p trav') prev') ctx uninit' n s
    seed total
  = sample_loop p ctx uninit n s seed total.
Proof.
  intros Hpos Hpos'. revert s seed total.
  induction n as [|n IH]; intros s seed total; [reflexivity|].
  cbn [sample_loop].
  rewrite (sample_step_probe p ctx _ seed Hpos).
  rewrite (sample_step_probe _ ctx _ seed);
    [|destruct p; exact Hpos'].
  rewrite probe_contribution_other_scene. apply IH.
Qed.

End HybridProbeOnly.

(** X10. With its tracing range of zero, a thread of the hybrid scatter
    kernel sees neither the geometry nor the previous bounce: over scenes
    whose intersections all lie at strictly positive distances the thread
    writes the same value to the same texel whatever the scene, the
    textures of the previous bounce and the content of the payload
    registers are. *)
Theorem hybrid_thread_sees_only_probes `{DeviceLibrary}
    (p : ScatterHybrid.LaunchParams) (trav' : Traversable) (prev' : Z -> TextureObject)
    (uninit uninit' : Z -> Z * Z * Z) (uvIndex : Z)
    (surfaces : gmap (Z * Z * Z) float4) :
  Variations.positive_distances (ScatterHybrid.sceneTraversable p) ->
  Variations.positive_distances trav' ->
  ScatterHybrid.raygen
    (Variations.with_previous_bounce (ScatterHybrid.with_scene p trav') prev')
    uninit' uvIndex surfaces
  = ScatterHybrid.raygen p uninit uvIndex surfaces.
Proof.
  intros Hpos Hpos'. unfold ScatterHybrid.raygen, ScatterHybrid.texel_address,
    ScatterHybrid.result_value.
  rewrite thread_context_other_scene.
  rewrite (sample_loop_other_scene p trav' prev' _ uninit uninit') by assumption.
  destruct p. exact eq_refl.
Qed.

Lemma hybrid_thread_sees_only_probes_witness :
  @ScatterHybrid.raygen Samples.library
    (Variations.with_previous_bounce
       (ScatterHybrid.with_scene (Samples.hybrid_params Samples.one_hit) Samples.empty_scene)
       (fun _ _ _ => mkFloat4 F32.zero F32.zero F32.zero F32.zero))
    (fun _ => (1, 2, 3)) 0 ∅
  = @ScatterHybrid.raygen Samples.library (Samples.hybrid_params Samples.one_hit)
      (fun _ => (4, 5, 6)) 0 ∅.
Proof.
  apply (@hybrid_thread_sees_only_probes Samples.library).
  - intros o d. repeat constructor.
  - intros o d. constructor.
Defined.

Section UnbiasedAlbedo.
Import ScatterUnbiased.
Context `{DeviceLibrary}.
Variables (p : LaunchParams) (colors : Z -> vec3).

Lemma sample_step_other_colors (uvIndex : Z) (uninit : Payload) (seed : Z) :
  sample_step (Variations.with_diffuse_colors p colors) uvIndex uninit seed
  = sample_step p uvIndex uninit seed.
Proof. destruct p. exact eq_refl. Qed.

Lemma sample_loop_other_colors (uvIndex : Z) (uninit : Z -> Payload) (n : nat)
    (i seed : Z) (total : vec3) (m : Z) :
  sample_loop (Variations.with_diffuse_colors p colors) uvIndex uninit n i seed total m
  = sample_loop p uvIndex uninit n i seed total m.
Proof.
  revert i seed total m. induction n as [|n IH]; intros i seed total m; [reflexivity|].
  cbn [sample_loop]. rewrite sample_step_other_colors.
  destruct (sample_step p uvIndex (uninit i) seed) as [c seed']. apply IH.
Qed.

End UnbiasedAlbedo.

(** X11. The unbiased scatter kernel reads the diffuse colour of its texel
    and never uses it: on a UV data buffer with any other diffuse colours
    the thread writes the same value at the same position of the octree
    texture. *)
Theorem unbiased_thread_ignores_diffuse_colour `{DeviceLibrary}
    (p : ScatterUnbiased.LaunchParams) (colors : Z -> vec3)
    (uninit : Z -> ScatterUnbiased.Payload) (uvIndex : Z) (texture : OctreeTexture) :
  ScatterUnbiased.diffuseColor
    (ScatterUnbiased.thread_data (Variations.with_diffuse_colors p colors) uvIndex)
  = colors (int32
      (int32 (F32.to_int
                (F32.mul (v2y (ScatterUnbiased.uvsInside p
                   (int32 (ScatterUnbiased.uvsInsideOffsets p
                      (ScatterUnbiased.nonEmptyCellIndex p) + uvIndex))))
                   (F32.of_int (ScatterUnbiased.uvWorldPositions_size p)))
              * ScatterUnbiased.uvWorldPositions_size p)
       + F32.to_int
           (F32.mul (v2x (ScatterUnbiased.uvsInside p
              (int32 (ScatterUnbiased.uvsInsideOffsets p
                 (ScatterUnbiased.nonEmptyCellIndex p) + uvIndex))))
              (F32.of_int (ScatterUnbiased.uvWorldPositions_size p))))) /\
  ScatterUnbiased.raygen (Variations.with_diffuse_colors p colors) uninit uvIndex texture
  = ScatterUnbiased.raygen p uninit uvIndex texture.
Proof.
  split; [destruct p; exact eq_refl|].
  unfold ScatterUnbiased.raygen, ScatterUnbiased.result_value.
  rewrite sample_loop_other_colors.
  replace (ScatterUnbiased.thread_seed (Variations.with_diffuse_colors p colors) uvIndex)
    with (ScatterUnbiased.thread_seed p uvIndex) by (destruct p; exact eq_refl).
  replace (ScatterUnbiased.UVWorldPos (Variations.with_diffuse_colors p colors) uvIndex)
    with (ScatterUnbiased.UVWorldPos p uvIndex) by (destruct p; exact eq_refl).
  reflexivity.
Qed.

(** ** Host side: the buffer of the UVs inside the cells *)

Section UVsInside.
Import Host.

Lemma uvs_inside_loop_spec (cells : list (list vec2)) (offsets : list Z)
    (cellUVs : list vec2) :
  uvs_inside_loop cells offsets cellUVs
  = (offsets ++
       imap (fun i _ =>
               int32 (Z.of_nat (length cellUVs + length (concat (take i cells))))) cells,
     cellUVs ++ concat cells).
Proof.
  revert offsets cellUVs. induction cells as [|uvs rest IH]; intros offsets cellUVs.
  - cbn. by rewrite !app_nil_r.
  - cbn [uvs_inside_loop]. rewrite IH. rewrite imap_cons. cbn [concat take].
    rewrite Nat.add_0_r, <- !app_assoc. cbn [app]. f_equal. f_equal. f_equal.
    apply imap_ext. intros i x _. cbn [compose take concat].
    rewrite !length_app. f_equal. lia.
Qed.

Lemma device_lookup {A : Type} (dflt : A) (v : list A) (i : nat) (x : A) :
  v !! i = Some x -> device dflt v (Z.of_nat i) = x.
Proof.
  intros Hx. unfold device, vector_at.
  destruct (Z.ltb_spec (Z.of_nat i) 0) as [?|_]; [lia|].
  by rewrite Nat2Z.id, Hx.
Qed.

Lemma concat_lookup_cell (cells : list (list vec2)) (i k : nat) (uvs : list vec2) :
  cells !! i = Some uvs ->
  concat cells !! (length (concat (take i cells)) + k)%nat = uvs !! k \/
  (length uvs <= k)%nat.
Proof.
  intros Hcell. destruct (decide (k < length uvs)%nat) as [Hk|Hk]; [left|right; lia].
  assert (Hsplit :
    concat cells = concat (take i cells) ++ uvs ++ concat (drop (S i) cells)).
  { rewrite <- (take_drop_middle cells i uvs Hcell) at 1. by rewrite concat_app. }
  rewrite Hsplit, lookup_app_r by lia.
  replace (length (concat (take i cells)) + k - length (concat (take i cells)))%nat
    with k by lia.
  by rewrite lookup_app_l.
Qed.

Lemma concat_take_length_le (cells : list (list vec2)) (i : nat) :
  (length (concat (take i cells)) <= length (concat cells))%nat.
Proof.
  rewrite <- (take_drop i cells) at 2. rewrite concat_app, length_app. lia.
Qed.

End UVsInside.

(** X12. What [prepareUVsInsideBuffer] uploads is what the scatter threads
    read. The buffer of UVs is the concatenation of the cells, the offset of
    a cell is the number of UVs of the cells before it, and the thread of
    launch index k of a scatter launch over the i-th non-empty cell reads
    the k-th UV inside that cell. *)
Theorem prepared_uvs_reach_scatter_thread
    (nonEmptyCells : list (list vec2)) (p : ScatterHybrid.LaunchParams)
    (i k : nat) (uvs : list vec2) (uv : vec2) (dflt : vec2) :
  let offsets := (Host.prepareUVsInsideBuffer nonEmptyCells).1 in
  let cellUVs := (Host.prepareUVsInsideBuffer nonEmptyCells).2 in
  Z.of_nat (length (concat nonEmptyCells)) < 2 ^ 31 ->
  (forall j, ScatterHybrid.uvsInsideOffsets p j = Host.device 0 offsets j) ->
  (forall j, ScatterHybrid.uvsInside p j = Host.device dflt cellUVs j) ->
  ScatterHybrid.nonEmptyCellIndex p = Z.of_nat i ->
  nonEmptyCells !! i = Some uvs ->
  uvs !! k = Some uv ->
  cellUVs = concat nonEmptyCells /\
  length offsets = length nonEmptyCells /\
  offsets !! i = Some (Z.of_nat (length (concat (take i nonEmptyCells)))) /\
  ScatterHybrid.uv (ScatterHybrid.thread_context p (Z.of_nat k)) = uv.
Proof.
  intros offsets cellUVs Hsize Hoffsets Huvs Hcell Hi Hk.
  unfold offsets, cellUVs, Host.prepareUVsInsideBuffer in *.
  rewrite uvs_inside_loop_spec in *. cbn [fst snd app length Nat.add] in *.
  pose proof (concat_take_length_le nonEmptyCells i) as Hprefix.
  assert (Hoffset :
    imap (fun i0 (_ : list vec2) =>
            int32 (Z.of_nat (length (concat (take i0 nonEmptyCells))))) nonEmptyCells !! i
    = Some (Z.of_nat (length (concat (take i nonEmptyCells))))).
  { rewrite list_lookup_imap, Hi. cbn. f_equal. apply int32_small. lia. }
  split_and!.
  - reflexivity.
  - apply length_imap.
  - exact Hoffset.
  - unfold ScatterHybrid.thread_context. cbn [ScatterHybrid.uv].
    rewrite Huvs, Hoffsets, Hcell. rewrite (device_lookup _ _ _ _ Hoffset).
    destruct (concat_lookup_cell nonEmptyCells i k uvs Hi) as [Hat|Hout].
    + rewrite Hk in Hat. apply lookup_lt_Some in Hat as Hlt.
      rewrite int32_small by lia. rewrite <- Nat2Z.inj_add.
      by apply device_lookup.
    + apply lookup_lt_Some in Hk. lia.
Qed.

Lemma prepared_uvs_reach_scatter_thread_witness :
  ScatterHybrid.uv (ScatterHybrid.thread_context (Examples.scatter_params_on_cell 1) 0)
  = mkVec2 Samples.half Samples.half.
Proof.
  apply (prepared_uvs_reach_scatter_thread Examples.cells
           (Examples.scatter_params_on_cell 1) 1 0 [mkVec2 Samples.half Samples.half]
           (mkVec2 Samples.half Samples.half) (mkVec2 F32.zero F32.zero)).
  - cbn. lia.
  - reflexivity.
  - reflexivity.
  - reflexivity.
  - reflexivity.
  - reflexivity.
Defined.

(** ** Host side: the flip of the direct lighting image *)

Section FlipRows.
Import Host.
Variables (v : list Z) (size : Z).
Hypothesis Hsize : 0 <= size.
Hypothesis Hfits : size * size < 2 ^ 31.

Let n := Z.to_nat size.

(** The inner loop appends the next [k] texels of the row. *)
Lemma flip_row_spec (y : nat) (k x : nat) (acc : list Z) :
  (y < n)%nat -> (x + k <= n)%nat -> (y * n + x + k <= length v)%nat ->
  flip_row v size (Z.of_nat y) k (Z.of_nat x) acc
  = Some (acc ++ take k (drop (y * n + x) v)).
Proof.
  revert x acc. induction k as [|k IH]; intros x acc Hy Hx Hlen.
  - cbn. by rewrite app_nil_r.
  - cbn [flip_row].
    assert (Hidx : Z.of_nat y * size + Z.of_nat x = Z.of_nat (y * n + x)).
    { unfold n. lia. }
    assert (Z.of_nat (y * n + x) < size * size) by (unfold n in *; nia).
    rewrite (int32_small (Z.of_nat y * size)) by (unfold n in *; nia).
    rewrite Hidx, int32_small by lia.
    destruct (lookup_lt_is_Some_2 v (y * n + x)%nat ltac:(lia)) as [c Hc].
    unfold vector_at. destruct (Z.ltb_spec (Z.of_nat (y * n + x)) 0) as [?|_]; [lia|].
    rewrite Nat2Z.id, Hc. cbn [mbind option_bind].
    replace (Z.of_nat x + 1) with (Z.of_nat (S x)) by lia.
    rewrite IH by lia. rewrite (drop_S _ _ _ Hc). cbn [take].
    rewrite <- app_assoc. cbn [app].
    by replace (y * n + S x)%nat with (S (y * n + x)) by lia.
Qed.

(** The inner loop fails when the row reaches beyond the vector. *)
Lemma flip_row_short (y : nat) (k x : nat) (acc : list Z) :
  (y < n)%nat -> (x + k <= n)%nat -> (0 < k)%nat -> (length v < y * n + x + k)%nat ->
  flip_row v size (Z.of_nat y) k (Z.of_nat x) acc = None.
Proof.
  revert x acc. induction k as [|k IH]; intros x acc Hy Hx Hk Hlen.
  - lia.
  - cbn [flip_row].
    assert (Hidx : Z.of_nat y * size + Z.of_nat x = Z.of_nat (y * n + x)).
    { unfold n. lia. }
    assert (Z.of_nat (y * n + x) < size * size) by (unfold n in *; nia).
    rewrite (int32_small (Z.of_nat y * size)) by (unfold n in *; nia).
    rewrite Hidx, int32_small by lia.
    unfold vector_at. destruct (Z.ltb_spec (Z.of_nat (y * n + x)) 0) as [?|_]; [lia|].
    rewrite Nat2Z.id.
    destruct (v !! (y * n + x)%nat) as [c|] eqn:Hc; [|reflexivity].
    cbn [mbind option_bind].
    replace (Z.of_nat x + 1) with (Z.of_nat (S x)) by lia.
    apply lookup_lt_Some in Hc.
    apply IH; lia.
Qed.

Lemma flip_rows_spec (k : nat) (acc : list Z) :
  (k <= n)%nat -> (k * n <= length v)%nat ->
  flip_rows v size k acc = Some (acc ++ concat (row v size <$> reverse (seq 0 k))).
Proof.
  revert acc. induction k as [|k IH]; intros acc Hk Hlen.
  - cbn. by rewrite app_nil_r.
  - cbn [flip_rows].
    pose proof (flip_row_spec k n 0 acc ltac:(lia) ltac:(lia) ltac:(lia)) as Hrow.
    change (Z.of_nat 0) with 0 in Hrow. fold n. rewrite Hrow.
    cbn [mbind option_bind]. rewrite IH by lia.
    rewrite seq_S, reverse_snoc, fmap_cons. cbn [concat Nat.add].
    rewrite <- app_assoc. unfold row at 2. fold n.
    by rewrite Nat.add_0_r.
Qed.

Lemma flip_y_rows :
  (n * n <= length v)%nat ->
  flip_y v size = Some (concat (row v size <$> reverse (seq 0 n))).
Proof. intros Hlen. unfold flip_y. fold n. by rewrite flip_rows_spec. Qed.

Lemma flip_y_short :
  (length v < n * n)%nat -> flip_y v size = None.
Proof.
  intros Hlen. unfold flip_y.
  assert (exists k, Z.to_nat size = S k) as [k Hk].
  { exists (pred n). unfold n in *. nia. }
  rewrite Hk. cbn [flip_rows].
  pose proof (flip_row_short k n 0 []) as Hrow.
  change (Z.of_nat 0) with 0 in Hrow. unfold n in Hrow, Hlen.
  rewrite Hrow; [reflexivity|lia|lia|lia|nia].
Qed.

End FlipRows.

Lemma row_of_concat (rows : list (list Z)) (size : Z) (y : nat) (r : list Z) :
  Forall (fun r => length r = Z.to_nat size) rows ->
  rows !! y = Some r ->
  Host.row (concat rows) size y = r.
Proof.
  unfold Host.row. intros Hrows. revert y.
  induction Hrows as [|r0 rows Hr0 Hrows IH]; intros y Hy; [done|].
  destruct y as [|y]; cbn [concat].
  - injection Hy as ->. cbn [Nat.mul drop]. by apply take_app_length'.
  - cbn [Nat.mul]. rewrite drop_app_add' by done. by apply IH.
Qed.

Lemma concat_of_rows (v : list Z) (size : Z) (m : nat) :
  length v = (m * Z.to_nat size)%nat ->
  concat (Host.row v size <$> seq 0 m) = v.
Proof.
  revert v. induction m as [|m IH]; intros v Hlen.
  - cbn in *. by destruct v.
  - cbn [seq fmap list_fmap concat]. rewrite <- fmap_S_seq, <- list_fmap_compose.
    unfold Host.row at 1. cbn [Nat.mul drop].
    rewrite <- (take_drop (Z.to_nat size) v) at 3. f_equal.
    etrans; [|apply (IH (drop (Z.to_nat size) v))].
    + f_equal. apply list_fmap_ext. intros i y _. unfold compose, Host.row. cbn [Nat.mul].
      by rewrite drop_drop.
    + rewrite length_drop. lia.
Qed.

Lemma rows_have_size (v : list Z) (size : Z) (ys : list nat) :
  (forall y, y ∈ ys -> ((y + 1) * Z.to_nat size <= length v)%nat) ->
  Forall (fun r => length r = Z.to_nat size) (Host.row v size <$> ys).
Proof.
  intros Hys. apply Forall_fmap, Forall_forall. intros y Hy. cbn.
  unfold Host.row. rewrite length_take, length_drop. specialize (Hys y Hy). lia.
Qed.

(** X13. The flip of the direct lighting image before it is written to a
    file. For a texture of [size] rows the loop returns the rows of the
    downloaded vector in reverse order, each row unchanged; it would read
    beyond the vector exactly when the vector holds fewer than size * size
    texels; and flipping twice gives back the image. *)
Theorem flip_y_reverses_rows (direct_lighting_result : list Z) (size : Z) :
  0 <= size -> size * size < 2 ^ 31 ->
  let n := Z.to_nat size in
  ((n * n <= length direct_lighting_result)%nat ->
   Host.flip_y direct_lighting_result size
   = Some (concat (Host.row direct_lighting_result size <$> reverse (seq 0 n)))) /\
  ((length direct_lighting_result < n * n)%nat ->
   Host.flip_y direct_lighting_result size = None) /\
  (length direct_lighting_result = (n * n)%nat ->
   exists result_reversed,
     Host.flip_y direct_lighting_result size = Some result_reversed /\
     length result_reversed = (n * n)%nat /\
     Host.flip_y result_reversed size = Some direct_lighting_result).
Proof.
  intros Hsize Hfits n. split_and!.
  - by apply flip_y_rows.
  - by apply flip_y_short.
  - intros Hlen.
    set (rows := Host.row direct_lighting_result size <$> reverse (seq 0 n)).
    assert (Hrows : Forall (fun r => length r = Z.to_nat size) rows).
    { apply rows_have_size. intros y Hy. apply elem_of_reverse, elem_of_seq in Hy.
      fold n. nia. }
    assert (Hcount : length rows = n).
    { unfold rows. by rewrite length_fmap, length_reverse, length_seq. }
    assert (Hflat : length (concat rows) = (n * n)%nat).
    { clear -Hrows Hcount. fold n in Hrows. revert Hcount. generalize n at 1 3.
      induction Hrows as [|r rows' Hr _ IH]; intros m Hm; cbn in *; [by subst|].
      rewrite length_app, Hr. destruct m as [|m]; [done|].
      rewrite (IH m) by lia. lia. }
    exists (concat rows). split_and!.
    + by apply flip_y_rows; [| |lia].
    + exact Hflat.
    + rewrite flip_y_rows by (try done; fold n; lia). f_equal. fold n.
      assert (Hback : Host.row (concat rows) size <$> seq 0 n = rows).
      { apply list_eq. intros y. rewrite list_lookup_fmap.
        destruct (decide (y < n)%nat) as [Hy|Hy].
        - rewrite lookup_seq_lt by done. cbn.
          destruct (lookup_lt_is_Some_2 rows y ltac:(lia)) as [r Hr].
          rewrite Hr. f_equal. by apply row_of_concat.
        - rewrite lookup_seq_ge by lia. cbn. symmetry. apply lookup_ge_None. lia. }
      rewrite fmap_reverse, Hback. unfold rows.
      rewrite <- fmap_reverse, reverse_involutive.
      apply concat_of_rows. by fold n.
Qed.

Lemma flip_y_reverses_rows_witness :
  Host.flip_y [1; 2; 3; 4] 2 = Some [3; 4; 1; 2].
Proof.
  pose proof (flip_y_reverses_rows [1; 2; 3; 4] 2) as Hflip.
  destruct Hflip as (Hrows & _ & _).
  - lia.
  - lia.
  - apply Hrows. cbn. lia.
Defined.

(** ** Host side: the weighting of the spherical harmonics coefficients *)

Section WeighCoefficients.
Import Host.
Variables (numSamplesPerSH : list Z) (coefficients : list float).
Hypothesis Hfits : Z.of_nat (length coefficients) < 2 ^ 31.

Lemma length_weighted_upto (bound : Z) :
  length (weighted_upto numSamplesPerSH bound coefficients) = length coefficients.
Proof. apply length_imap. Qed.

Lemma weighted_upto_lookup (bound : Z) (j : nat) :
  weighted_upto numSamplesPerSH bound coefficients !! j
  = (fun c => if Z.of_nat j <? bound then weighted numSamplesPerSH j c else c)
      <$> coefficients !! j.
Proof. unfold weighted_upto. by rewrite list_lookup_imap. Qed.

(** One more coefficient of a sub-probe with samples. *)
Lemma weighted_upto_step (P bf : nat) (n : Z) (c : float) :
  numSamplesPerSH !! P = Some n -> 0 < n -> (bf < 9)%nat ->
  coefficients !! (9 * P + bf)%nat = Some c ->
  <[(9 * P + bf)%nat := F32.mul c (applied_weight n)]>
    (weighted_upto numSamplesPerSH (Z.of_nat (9 * P + bf)) coefficients)
  = weighted_upto numSamplesPerSH (Z.of_nat (9 * P + bf) + 1) coefficients.
Proof.
  intros Hn Hpos Hbf Hc. apply list_eq. intros j.
  destruct (decide (j = 9 * P + bf)%nat) as [->|Hne].
  - rewrite list_lookup_insert_eq
      by (rewrite length_weighted_upto; by apply lookup_lt_Some in Hc).
    rewrite weighted_upto_lookup, Hc. cbn [fmap option_fmap option_map].
    destruct (Z.ltb_spec (Z.of_nat (9 * P + bf)) (Z.of_nat (9 * P + bf) + 1)) as [_|?];
      [|lia].
    unfold weighted.
    replace ((9 * P + bf) / 9)%nat with P.
    + rewrite Hn. by destruct (Z.ltb_spec 0 n) as [_|?]; [|lia].
    + apply Nat.div_unique with bf; lia.
  - rewrite list_lookup_insert_ne by done. rewrite !weighted_upto_lookup.
    destruct (coefficients !! j) as [c'|]; [|reflexivity].
    cbn [fmap option_fmap option_map].
    by destruct (Z.ltb_spec (Z.of_nat j) (Z.of_nat (9 * P + bf))),
      (Z.ltb_spec (Z.of_nat j) (Z.of_nat (9 * P + bf) + 1)); try lia.
Qed.

(** A sub-probe without samples keeps its coefficients. *)
Lemma weighted_upto_skip (P : nat) (n : Z) :
  numSamplesPerSH !! P = Some n -> n <= 0 ->
  weighted_upto numSamplesPerSH (Z.of_nat (9 * P)) coefficients
  = weighted_upto numSamplesPerSH (Z.of_nat (9 * P) + 9) coefficients.
Proof.
  intros Hn Hle. apply imap_ext. intros j c _.
  destruct (Z.ltb_spec (Z.of_nat j) (Z.of_nat (9 * P))),
    (Z.ltb_spec (Z.of_nat j) (Z.of_nat (9 * P) + 9)); try lia; try reflexivity.
  unfold weighted. replace (j / 9)%nat with P.
  - rewrite Hn. by destruct (Z.ltb_spec 0 n) as [?|_]; [lia|].
  - apply Nat.div_unique with (j - 9 * P)%nat; lia.
Qed.

Lemma weigh_basis_spec (i sh : nat) (n : Z) (k bf : nat) :
  let P := (8 * i + sh)%nat in
  numSamplesPerSH !! P = Some n -> 0 < n -> (sh < 8)%nat -> (bf + k <= 9)%nat ->
  (9 * P + 9 <= length coefficients)%nat ->
  weigh_basis (weighted_upto numSamplesPerSH (Z.of_nat (9 * P + bf)) coefficients)
    (Z.of_nat (72 * i)) (Z.of_nat (9 * sh)) (applied_weight n) k (Z.of_nat bf)
  = Some (weighted_upto numSamplesPerSH (Z.of_nat (9 * P + bf + k)) coefficients).
Proof.
  intros P Hn Hpos Hsh. revert bf. induction k as [|k IH]; intros bf Hbf Hlen.
  - cbn [weigh_basis]. by rewrite Nat.add_0_r.
  - cbn [weigh_basis].
    rewrite (int32_small (Z.of_nat (72 * i) + Z.of_nat (9 * sh))) by lia.
    rewrite int32_small by lia.
    replace (Z.of_nat (72 * i) + Z.of_nat (9 * sh) + Z.of_nat bf)
      with (Z.of_nat (9 * P + bf)) by (unfold P; lia).
    destruct (lookup_lt_is_Some_2 coefficients (9 * P + bf)%nat ltac:(lia)) as [c Hc].
    unfold vector_at.
    destruct (Z.ltb_spec (Z.of_nat (9 * P + bf)) 0) as [?|_]; [lia|].
    rewrite Nat2Z.id, weighted_upto_lookup, Hc.
    cbn [fmap option_fmap option_map mbind option_bind].
    destruct (Z.ltb_spec (Z.of_nat (9 * P + bf)) (Z.of_nat (9 * P + bf))) as [?|_]; [lia|].
    rewrite (weighted_upto_step P bf n c Hn Hpos ltac:(lia) Hc).
    replace (Z.of_nat (9 * P + bf) + 1) with (Z.of_nat (9 * P + S bf)) by lia.
    replace (Z.of_nat bf + 1) with (Z.of_nat (S bf)) by lia.
    rewrite IH by lia. do 2 f_equal. lia.
Qed.

Lemma weigh_probes_spec (i : nat) (k sh : nat) :
  (sh + k <= 8)%nat ->
  (8 * i + 8 <= length numSamplesPerSH)%nat ->
  (72 * i + 72 <= length coefficients)%nat ->
  weigh_probes numSamplesPerSH
    (weighted_upto numSamplesPerSH (Z.of_nat (9 * (8 * i + sh))) coefficients)
    (Z.of_nat i) (Z.of_nat (72 * i)) k (Z.of_nat sh)
  = Some (weighted_upto numSamplesPerSH (Z.of_nat (9 * (8 * i + sh + k))) coefficients).
Proof.
  revert sh. induction k as [|k IH]; intros sh Hsh Hcounts Hlen.
  - cbn [weigh_probes]. by rewrite Nat.add_0_r.
  - cbn [weigh_probes].
    rewrite (int32_small (Z.of_nat i * 8)) by lia.
    rewrite (int32_small (Z.of_nat i * 8 + Z.of_nat sh)) by lia.
    replace (Z.of_nat i * 8 + Z.of_nat sh) with (Z.of_nat (8 * i + sh)) by lia.
    destruct (lookup_lt_is_Some_2 numSamplesPerSH (8 * i + sh)%nat ltac:(lia)) as [n Hn].
    unfold vector_at at 1.
    destruct (Z.ltb_spec (Z.of_nat (8 * i + sh)) 0) as [?|_]; [lia|].
    rewrite Nat2Z.id, Hn. cbn [mbind option_bind].
    replace (Z.of_nat sh + 1) with (Z.of_nat (S sh)) by lia.
    replace (9 * (8 * i + sh + S k))%nat with (9 * (8 * i + S sh + k))%nat by lia.
    destruct (Z.ltb_spec 0 n) as [Hpos|Hle].
    + unfold Weights.SPHERICAL_HARMONIC_BASIS_FUNCTIONS.
      rewrite (int32_small (Z.of_nat sh * 9)) by lia.
      replace (Z.of_nat sh * 9) with (Z.of_nat (9 * sh)) by lia.
      pose proof (weigh_basis_spec i sh n 9 0 Hn Hpos ltac:(lia) ltac:(lia) ltac:(lia))
        as Hbasis.
      cbv zeta in Hbasis. rewrite Nat.add_0_r in Hbasis.
      change (Z.of_nat 0) with 0 in Hbasis. rewrite Hbasis.
      cbn [mbind option_bind].
      replace (9 * (8 * i + sh) + 9)%nat with (9 * (8 * i + S sh))%nat by lia.
      apply IH; lia.
    + cbn [mbind option_bind].
      rewrite (weighted_upto_skip (8 * i + sh) n Hn Hle).
      replace (Z.of_nat (9 * (8 * i + sh)) + 9) with (Z.of_nat (9 * (8 * i + S sh)))
        by lia.
      apply IH; lia.
Qed.

Lemma weigh_cells_spec (k i : nat) :
  (8 * (i + k) <= length numSamplesPerSH)%nat ->
  (72 * (i + k) <= length coefficients)%nat ->
  weigh_cells numSamplesPerSH
    (weighted_upto numSamplesPerSH (Z.of_nat (72 * i)) coefficients) k (Z.of_nat i)
  = Some (weighted_upto numSamplesPerSH (Z.of_nat (72 * (i + k))) coefficients).
Proof.
  revert i. induction k as [|k IH]; intros i Hcounts Hlen.
  - cbn [weigh_cells]. by rewrite Nat.add_0_r.
  - cbn [weigh_cells]. unfold Weights.SPHERICAL_HARMONIC_BASIS_FUNCTIONS.
    rewrite (int32_small (Z.of_nat i * 8)) by lia.
    rewrite (int32_small (Z.of_nat i * 8 * 9)) by lia.
    replace (Z.of_nat i * 8 * 9) with (Z.of_nat (72 * i)) by lia.
    pose proof (weigh_probes_spec i 8 0 ltac:(lia) ltac:(lia) ltac:(lia)) as Hprobes.
    rewrite Nat.add_0_r in Hprobes. change (Z.of_nat 0) with 0 in Hprobes.
    replace (9 * (8 * i))%nat with (72 * i)%nat in Hprobes by lia.
    rewrite Hprobes. cbn [mbind option_bind].
    replace (9 * (8 * i + 8))%nat with (72 * S i)%nat by lia.
    replace (Z.of_nat i + 1) with (Z.of_nat (S i)) by lia.
    rewrite IH by lia. do 2 f_equal. lia.
Qed.

Lemma weighted_upto_none :
  weighted_upto numSamplesPerSH 0 coefficients = coefficients.
Proof.
  apply list_eq. intros j. rewrite weighted_upto_lookup.
  destruct (coefficients !! j) as [c|]; [|reflexivity].
  cbn [fmap option_fmap option_map].
  by destruct (Z.ltb_spec (Z.of_nat j) 0) as [?|_]; [lia|].
Qed.

End WeighCoefficients.

(** X14. The weighting of the coefficients after the gather launches. On
    vectors that hold the data of [amountCells] cells the loops end and
    leave a vector of the same length in which every coefficient of a
    sub-probe with n > 0 samples has been multiplied, once, by
    1 / (n * 4 * pi), and every other coefficient is the one downloaded:
    those of sub-probes without samples and those beyond the cells. *)
Theorem weigh_coefficients_result (numSamplesPerSH : list Z) (shCoefficients : list float)
    (amountCells : Z) :
  0 <= amountCells ->
  8 * amountCells <= Z.of_nat (length numSamplesPerSH) ->
  72 * amountCells <= Z.of_nat (length shCoefficients) ->
  Z.of_nat (length shCoefficients) < 2 ^ 31 ->
  exists weighed,
    Host.weigh_coefficients numSamplesPerSH shCoefficients amountCells = Some weighed /\
    length weighed = length shCoefficients /\
    (forall (j : nat) (c : float) (n : Z),
       shCoefficients !! j = Some c -> Z.of_nat j < 72 * amountCells ->
       numSamplesPerSH !! (j / 9)%nat = Some n ->
       weighed !! j
       = Some (if 0 <? n then F32.mul c (Host.applied_weight n) else c)) /\
    (forall j : nat, 72 * amountCells <= Z.of_nat j -> weighed !! j = shCoefficients !! j).
Proof.
  intros Hcells Hcounts Hlen Hfits.
  exists (Host.weighted_upto numSamplesPerSH (72 * amountCells) shCoefficients).
  split_and!.
  - unfold Host.weigh_coefficients.
    pose proof (weigh_cells_spec numSamplesPerSH shCoefficients Hfits
                  (Z.to_nat amountCells) 0 ltac:(lia) ltac:(lia)) as Hloop.
    change (Z.of_nat (72 * 0)) with 0 in Hloop. change (Z.of_nat 0) with 0 in Hloop.
    rewrite weighted_upto_none in Hloop. rewrite Hloop. do 2 f_equal. lia.
  - apply length_weighted_upto.
  - intros j c n Hc Hj Hn. rewrite weighted_upto_lookup, Hc.
    cbn [fmap option_fmap option_map].
    destruct (Z.ltb_spec (Z.of_nat j) (72 * amountCells)) as [_|?]; [|lia].
    unfold Host.weighted. by rewrite Hn.
  - intros j Hj. rewrite weighted_upto_lookup.
    destruct (shCoefficients !! j) as [c|]; [|reflexivity].
    cbn [fmap option_fmap option_map].
    by destruct (Z.ltb_spec (Z.of_nat j) (72 * amountCells)) as [?|_]; [lia|].
Qed.

Lemma weigh_coefficients_result_witness :
  exists weighed,
    Host.weigh_coefficients Samples.sh_counts Samples.sh_weights 1 = Some weighed /\
    length weighed = length Samples.sh_weights.
Proof.
  destruct (weigh_coefficients_result Samples.sh_counts Samples.sh_weights 1)
    as (weighed & Hrun & Hlength & _).
  - lia.
  - cbn. lia.
  - cbn. lia.
  - cbn. lia.
  - exists weighed. by split.
Defined.

(** ** [utils.cuh]: the slab test *)

Lemma SFcompare_antisym (a b : float) :
  SFcompare b a = CompOpp <$> SFcompare a b.
Proof.
  destruct a as [sa|sa| |sa ma ea], b as [sb|sb| |sb mb eb];
    try destruct sa; try destruct sb; try reflexivity; cbn.
  - rewrite (Z.compare_antisym eb ea).
    destruct (eb ?= ea); cbn; try reflexivity.
    by rewrite (Pos.compare_cont_antisym ma mb Eq).
  - rewrite (Z.compare_antisym eb ea).
    destruct (eb ?= ea); cbn; try reflexivity.
    by rewrite (Pos.compare_cont_antisym ma mb Eq).
Qed.

Lemma SFcompare_not_nan (a b : float) :
  Utils.is_nan a = false -> Utils.is_nan b = false -> exists c, SFcompare a b = Some c.
Proof.
  destruct a as [sa|sa| |sa ma ea], b as [sb|sb| |sb mb eb]; intros Ha Hb;
    try discriminate; cbn; eauto.
Qed.

Lemma not_gtb_leb (a b : float) :
  Utils.is_nan a = false -> Utils.is_nan b = false ->
  Utils.gtb a b = false -> F32.leb a b = true.
Proof.
  intros Ha Hb. unfold Utils.gtb, F32.leb, SFleb.
  destruct (SFcompare_not_nan a b Ha Hb) as [c ->]. by destruct c.
Qed.

Lemma gtb_leb_swapped (a b : float) :
  Utils.gtb a b = true -> F32.leb b a = true.
Proof.
  unfold Utils.gtb, F32.leb, SFleb. rewrite (SFcompare_antisym a b).
  destruct (SFcompare a b) as [[]|]; try discriminate. reflexivity.
Qed.

(** What the function leaves after the slabs of one more axis: the larger
    of the lower ends and the smaller of the upper ends, or nothing. *)
Lemma slab_step (lo hi lo' hi' : float) :
  Utils.is_nan lo = false -> Utils.is_nan hi = false ->
  Utils.is_nan lo' = false -> Utils.is_nan hi' = false ->
  F32.leb lo hi = true -> F32.leb lo' hi' = true ->
  Utils.gtb lo hi' || Utils.gtb lo' hi = false ->
  F32.leb (if Utils.gtb lo' lo then lo' else lo) (if F32.ltb hi' hi then hi' else hi)
  = true.
Proof.
  intros Hlo Hhi Hlo' Hhi' Hle Hle' [Hcross Hcross']%orb_false_elim.
  destruct (Utils.gtb lo' lo), (F32.ltb hi' hi); auto using not_gtb_leb.
Qed.

Lemma sorted_slab (a b : float) :
  Utils.is_nan a = false -> Utils.is_nan b = false ->
  let s := if Utils.gtb a b then Utils.swap a b else (a, b) in
  F32.leb s.1 s.2 = true /\ Utils.is_nan s.1 = false /\ Utils.is_nan s.2 = false /\
  (s = (a, b) \/ s = (b, a)).
Proof.
  intros Ha Hb. destruct (Utils.gtb a b) eqn:Hgt; cbn.
  - split_and!; auto using gtb_leb_swapped.
  - split_and!; auto using not_gtb_leb.
Qed.

Ltac in_list :=
  first [assumption | repeat first [apply list_elem_of_here | apply list_elem_of_further]].

(** X15. The slab test of [find_distant_point_along_direction]. When none
    of the six quotients is a NaN, the function leaves either the pair
    (NAN, NAN) or two of the quotients with t_min <= t_max. *)
Theorem slab_test_leaves_ordered_interval (o dir cubeMin cubeMax : vec3) :
  Forall (fun q => Utils.is_nan q = false) (Utils.slab_quotients o dir cubeMin cubeMax) ->
  let t := Utils.find_distant_point_along_direction o dir cubeMin cubeMax in
  t = (Utils.NAN, Utils.NAN) \/
  (F32.leb t.1 t.2 = true /\
   t.1 ∈ Utils.slab_quotients o dir cubeMin cubeMax /\
   t.2 ∈ Utils.slab_quotients o dir cubeMin cubeMax).
Proof.
  unfold Utils.slab_quotients, Utils.find_distant_point_along_direction.
  generalize (F32.div (F32.sub (v3x cubeMin) (v3x o)) (v3x dir)).
  generalize (F32.div (F32.sub (v3x cubeMax) (v3x o)) (v3x dir)).
  generalize (F32.div (F32.sub (v3y cubeMin) (v3y o)) (v3y dir)).
  generalize (F32.div (F32.sub (v3y cubeMax) (v3y o)) (v3y dir)).
  generalize (F32.div (F32.sub (v3z cubeMin) (v3z o)) (v3z dir)).
  generalize (F32.div (F32.sub (v3z cubeMax) (v3z o)) (v3z dir)).
  intros z2 z1 y2 y1 x2 x1 Hnan.
  apply Forall_cons in Hnan as [Hx1 Hnan]. apply Forall_cons in Hnan as [Hx2 Hnan].
  apply Forall_cons in Hnan as [Hy1 Hnan]. apply Forall_cons in Hnan as [Hy2 Hnan].
  apply Forall_cons in Hnan as [Hz1 Hnan]. apply Forall_cons in Hnan as [Hz2 _].
  cbv zeta.
  destruct (sorted_slab x1 x2 Hx1 Hx2) as (Hx & Hxlo & Hxhi & Hxs).
  destruct (sorted_slab y1 y2 Hy1 Hy2) as (Hy & Hylo & Hyhi & Hys).
  destruct (sorted_slab z1 z2 Hz1 Hz2) as (Hz & Hzlo & Hzhi & Hzs).
  destruct (if Utils.gtb x1 x2 then Utils.swap x1 x2 else (x1, x2)) as [xlo xhi].
  destruct (if Utils.gtb y1 y2 then Utils.swap y1 y2 else (y1, y2)) as [ylo yhi].
  cbn [fst snd] in *.
  destruct (Utils.gtb xlo yhi || Utils.gtb ylo xhi) eqn:Hxy; [by left|].
  pose proof (slab_step xlo xhi ylo yhi Hxlo Hxhi Hylo Hyhi Hx Hy Hxy) as Hstep.
  set (lo := if Utils.gtb ylo xlo then ylo else xlo) in *.
  set (hi := if F32.ltb yhi xhi then yhi else xhi) in *.
  assert (Hlo : Utils.is_nan lo = false) by (unfold lo; by destruct (Utils.gtb ylo xlo)).
  assert (Hhi : Utils.is_nan hi = false) by (unfold hi; by destruct (F32.ltb yhi xhi)).
  assert (Hlo_in : lo ∈ [x1; x2; y1; y2; z1; z2]).
  { unfold lo. destruct (Utils.gtb ylo xlo), Hxs as [[= -> ->]|[= -> ->]],
      Hys as [[= -> ->]|[= -> ->]]; in_list. }
  assert (Hhi_in : hi ∈ [x1; x2; y1; y2; z1; z2]).
  { unfold hi. destruct (F32.ltb yhi xhi), Hxs as [[= -> ->]|[= -> ->]],
      Hys as [[= -> ->]|[= -> ->]]; in_list. }
  clearbody lo hi.
  destruct (if Utils.gtb z1 z2 then Utils.swap z1 z2 else (z1, z2)) as [zlo zhi].
  cbn [fst snd] in *.
  destruct (Utils.gtb lo zhi || Utils.gtb zlo hi) eqn:Hlz; [by left|].
  right. cbn [fst snd]. split_and!.
  - by apply slab_step.
  - destruct (Utils.gtb zlo lo), Hzs as [[= -> ->]|[= -> ->]]; in_list.
  - destruct (F32.ltb zhi hi), Hzs as [[= -> ->]|[= -> ->]]; in_list.
Qed.

Lemma slab_test_leaves_ordered_interval_witness :
  let t :=
    Utils.find_distant_point_along_direction
      (mkVec3 Samples.half Samples.half Samples.half)
      (mkVec3 (F32.opp F32.one) F32.one F32.two)
      vec3_zero (mkVec3 F32.one F32.one F32.one) in
  t = (Utils.NAN, Utils.NAN) \/
  (F32.leb t.1 t.2 = true /\
   t.1 ∈ Utils.slab_quotients (mkVec3 Samples.half Samples.half Samples.half)
           (mkVec3 (F32.opp F32.one) F32.one F32.two)
           vec3_zero (mkVec3 F32.one F32.one F32.one) /\
   t.2 ∈ Utils.slab_quotients (mkVec3 Samples.half Samples.half Samples.half)
           (mkVec3 (F32.opp F32.one) F32.one F32.two)
           vec3_zero (mkVec3 F32.one F32.one F32.one)).
Proof.
  apply (slab_test_leaves_ordered_interval
           (mkVec3 Samples.half Samples.half Samples.half)
           (mkVec3 (F32.opp F32.one) F32.one F32.two)
           vec3_zero (mkVec3 F32.one F32.one F32.one)).
  vm_compute. repeat constructor.
Defined.

(** ** The default programs *)

Section DefaultProgramFacts.
Import DefaultProgram.
Context `{GlmLibrary} `{GlmGeometry}.
Variable p : LaunchParams.

Lemma getPRD_packPointer (ptr : Z) (memory : Memory) :
  0 <= ptr < 2 ^ 64 -> getPRD (packPointer ptr, memory) = ptr.
Proof. intros Hptr. unfold getPRD. cbn [fst snd]. by apply unpackPointer_packPointer. Qed.

(** The closest-hit program stores, at the address it finds in the
    registers, a colour that depends on the ray and on the intersection
    only. *)
Lemma closesthit_shade (rayDir : vec3) (h : Hit) (pl : Payload) :
  closesthit p rayDir h pl = (pl.1, <[getPRD pl := shade p rayDir h]> pl.2).
Proof.
  unfold shade, closesthit. cbv zeta. cbn [fst snd].
  change (getPRD ((0, 0), ∅)) with 0.
  by rewrite lookup_insert_eq.
Qed.

Lemma trace_pixel_result (ptr ix iy : Z) (memory : Memory) :
  0 <= ptr < 2 ^ 64 ->
  trace_pixel p ptr ix iy memory
  = match closest_hit (traversable p) (position (camera p)) (rayDir p ix iy)
            F32.zero tmax_far with
    | Some h => shade p (rayDir p ix iy) h
    | None => mkVec3 F32.one F32.one F32.one
    end.
Proof.
  intros Hptr. unfold trace_pixel.
  pose proof (getPRD_packPointer ptr (<[ptr := vec3_zero]> memory) Hptr) as Hprd.
  destruct (packPointer ptr) as [u0 u1]. unfold optixTrace.
  destruct (closest_hit _ _ _ _ _) as [h|].
  - rewrite closesthit_shade, Hprd. cbn [fst snd]. by rewrite lookup_insert_eq.
  - unfold miss. rewrite Hprd. cbn [fst snd]. by rewrite lookup_insert_eq.
Qed.

Lemma white_pixel : pixel_rgba (mkVec3 F32.one F32.one F32.one) = 0xffffffff.
Proof. by vm_compute. Qed.

End DefaultProgramFacts.

(** X16. In the default ray generation program a ray that misses the scene
    gives an opaque white pixel: the miss program stores (1, 1, 1) through
    the pointer packed into the two payload registers, and the pixel of
    the launch index receives 0xffffffff. *)
Theorem default_raygen_miss_is_white `{GlmLibrary} `{GlmGeometry}
    (p : DefaultProgram.LaunchParams) (ptr ix iy : Z) (memory : DefaultProgram.Memory)
    (colorBuffer : gmap Z Z) :
  0 <= ptr < 2 ^ 64 ->
  closest_hit (DefaultProgram.traversable p)
    (DefaultProgram.position (DefaultProgram.camera p)) (DefaultProgram.rayDir p ix iy)
    F32.zero tmax_far = None ->
  DefaultProgram.raygen p ptr ix iy memory colorBuffer
  = <[DefaultProgram.fbIndex p ix iy := 0xffffffff]> colorBuffer.
Proof.
  intros Hptr Hmiss. unfold DefaultProgram.raygen.
  rewrite (trace_pixel_result p ptr ix iy memory Hptr), Hmiss.
  by rewrite white_pixel.
Qed.

Lemma default_raygen_miss_is_white_witness :
  @DefaultProgram.raygen Samples.glm Examples.geometry
    (Examples.default_params Samples.empty_scene) 0x7ffd00001000 1 2 ∅ ∅
  = {[9 := 0xffffffff]}.
Proof.
  apply (@default_raygen_miss_is_white Samples.glm Examples.geometry
           (Examples.default_params Samples.empty_scene) 0x7ffd00001000 1 2 ∅ ∅).
  - lia.
  - reflexivity.
Defined.

(** X17. The per-ray data of the default programs travels through the
    pointer in the two payload registers. Whatever the address of the
    local variable and the content of the local memory, the thread writes
    one pixel, the one of its launch index; the pixel is opaque; and for a
    ray that hits the scene its colour is the one the closest-hit program
    computes for the intersection. *)
Theorem default_raygen_writes_one_pixel `{GlmLibrary} `{GlmGeometry}
    (p : DefaultProgram.LaunchParams) (ptr ix iy : Z) (memory : DefaultProgram.Memory)
    (colorBuffer : gmap Z Z) :
  0 <= ptr < 2 ^ 64 ->
  let after := DefaultProgram.raygen p ptr ix iy memory colorBuffer in
  after = DefaultProgram.raygen p 0 ix iy ∅ colorBuffer /\
  (forall k, k <> DefaultProgram.fbIndex p ix iy -> after !! k = colorBuffer !! k) /\
  (exists c, after !! DefaultProgram.fbIndex p ix iy = Some c /\ Z.shiftr c 24 = 255) /\
  (forall h,
     closest_hit (DefaultProgram.traversable p)
       (DefaultProgram.position (DefaultProgram.camera p)) (DefaultProgram.rayDir p ix iy)
       F32.zero tmax_far = Some h ->
     after !! DefaultProgram.fbIndex p ix iy
     = Some (DefaultProgram.pixel_rgba
               (DefaultProgram.shade p (DefaultProgram.rayDir p ix iy) h))).
Proof.
  intros Hptr after. unfold after, DefaultProgram.raygen.
  rewrite (trace_pixel_result p ptr ix iy memory Hptr).
  rewrite (trace_pixel_result p 0 ix iy ∅ ltac:(lia)).
  split_and!.
  - reflexivity.
  - intros k Hk. by apply lookup_insert_ne.
  - eexists. split; [apply lookup_insert_eq|]. apply pack_rgba_alpha.
  - intros h ->. apply lookup_insert_eq.
Qed.

Lemma default_raygen_writes_one_pixel_witness :
  @DefaultProgram.raygen Samples.glm Examples.geometry
    (Examples.default_params Samples.one_hit) 0x7ffd00001000 1 2 {[0x7ffd00001000 := vec3_zero]}
    {[3 := 7]} !! 3 = Some 7.
Proof.
  pose proof (@default_raygen_writes_one_pixel Samples.glm Examples.geometry
    (Examples.default_params Samples.one_hit) 0x7ffd00001000 1 2
    {[0x7ffd00001000 := vec3_zero]} {[3 := 7]}) as Hpixel.
  destruct Hpixel as (_ & Hframe & _).
  - lia.
  - rewrite Hframe; [reflexivity|]. by vm_compute.
Defined.

(** X18. Layout of the frame buffer of the default program. For a frame
    whose pixels fit the [int] arithmetic, the pixel of launch index
    (ix, iy) is at position ix + iy * width, inside the frame, and two
    launch indices never share a pixel. *)
Theorem default_frame_layout (p : DefaultProgram.LaunchParams) :
  let w := (DefaultProgram.frame_size p).1 in
  let h := (DefaultProgram.frame_size p).2 in
  0 <= w -> 0 <= h -> w * h < 2 ^ 31 ->
  (forall ix iy, 0 <= ix < w -> 0 <= iy < h ->
     DefaultProgram.fbIndex p ix iy = ix + iy * w /\
     0 <= DefaultProgram.fbIndex p ix iy < w * h) /\
  (forall ix iy ix' iy',
     0 <= ix < w -> 0 <= iy < h -> 0 <= ix' < w -> 0 <= iy' < h ->
     DefaultProgram.fbIndex p ix iy = DefaultProgram.fbIndex p ix' iy' ->
     ix = ix' /\ iy = iy').
Proof.
  intros w h Hw Hh Hfits.
  assert (Hflat : forall ix iy, 0 <= ix < w -> 0 <= iy < h ->
            DefaultProgram.fbIndex p ix iy = ix + iy * w /\ 0 <= ix + iy * w < w * h).
  { intros ix iy Hix Hiy. unfold DefaultProgram.fbIndex. fold w.
    assert (0 <= iy * w /\ ix + iy * w < w * h) as [? ?] by nia.
    rewrite (int32_small (iy * w)) by lia.
    rewrite int32_small by lia. rewrite uint32_small by lia. lia. }
  split.
  - intros ix iy Hix Hiy. destruct (Hflat ix iy Hix Hiy) as [-> ?]. by split.
  - intros ix iy ix' iy' Hix Hiy Hix' Hiy'.
    destruct (Hflat ix iy Hix Hiy) as [-> _], (Hflat ix' iy' Hix' Hiy') as [-> _].
    intros Heq. assert (iy = iy') by nia. split; [nia|done].
Qed.

Lemma default_frame_layout_witness :
  DefaultProgram.fbIndex (Examples.default_params Samples.empty_scene) 1 2 = 9.
Proof.
  pose proof (default_frame_layout (Examples.default_params Samples.empty_scene))
    as Hlayout.
  cbv zeta in Hlayout. destruct Hlayout as [Hflat _].
  - cbn. lia.
  - cbn. lia.
  - cbn. lia.
  - apply (Hflat 1 2); cbn; lia.
Defined.

(** ** From the direct lighting pass to the gather pass *)

Lemma opaque_colour_kept (c : Z) :
  0 <= c < 2 ^ 32 -> Z.shiftr c 24 = 255 -> Z.lor 0xff000000 (Z.land c 0x00ffffff) = c.
Proof.
  intros Hc Halpha. apply Z.bits_inj'. intros n Hn.
  change 0xff000000 with (Z.shiftl (Z.ones 8) 24).
  change 0x00ffffff with (Z.ones 24).
  rewrite Z.lor_spec, Z.land_spec, Z.shiftl_spec, !Z.testbit_ones by lia.
  destruct (Z.ltb_spec n 24) as [Hlow|Hhigh].
  - destruct (Z.leb_spec 0 (n - 24)), (Z.leb_spec 0 n); try lia.
    cbn. by rewrite andb_true_r.
  - destruct (Z.leb_spec 0 (n - 24)), (Z.leb_spec 0 n); try lia.
    rewrite andb_false_r, orb_false_r. cbn [andb].
    replace (Z.testbit c n) with (Z.testbit (Z.shiftr c 24) (n - 24))
      by (rewrite Z.shiftr_spec by lia; f_equal; lia).
    rewrite Halpha. change 255 with (Z.ones 8). rewrite Z.testbit_ones by lia.
    by destruct (Z.leb_spec 0 (n - 24)); [|lia].
Qed.

(** X19. What the direct lighting pass stores, the gather pass hands on
    unchanged: when the ray of a gather thread hits a texel that holds the
    packed colour of a light, the thread writes that same colour to its
    cubemap texel. A texel that the direct lighting pass never wrote still
    holds the 0 of its initialisation, and the thread writes opaque black,
    the colour it writes for a ray that misses the scene. *)
Theorem cubemap_gather_hands_on_light_colour `{DeviceLibrary}
    (p : CubeMapGather.LaunchParams) (uninit : CubeMapGather.Payload) (u v f : Z) (h : Hit)
    (cubeMaps : gmap Z Z) :
  closest_hit (CubeMapGather.sceneTraversable p) (CubeMapGather.probePosition p)
    (normalize
       (convert_uv_to_cube_xyz f
          (F32.div (F32.of_int u) (F32.of_int (CubeMapGather.cubeMapResolution p)))
          (F32.div (F32.of_int v) (F32.of_int (CubeMapGather.cubeMapResolution p)))))
    F32.zero tmax_far = Some h ->
  let source :=
    CubeMapGather.lightSourceTexture_colorBuffer p (GatherLayout.source_index p h) in
  (forall l : DirectLighting.LightData,
     source = DirectLighting.light_rgba l ->
     CubeMapGather.raygen p uninit u v f cubeMaps
     = <[CubeMapGather.texel_index p u v f := DirectLighting.light_rgba l]> cubeMaps) /\
  (source = 0 ->
   CubeMapGather.raygen p uninit u v f cubeMaps
   = <[CubeMapGather.texel_index p u v f := black]> cubeMaps).
Proof.
  intros Hhit source.
  assert (Hwritten :
    CubeMapGather.raygen p uninit u v f cubeMaps
    = <[CubeMapGather.texel_index p u v f
        := Z.lor 0xff000000 (Z.land source 0x00ffffff)]> cubeMaps).
  { unfold CubeMapGather.raygen.
    apply (f_equal (fun x => <[CubeMapGather.texel_index p u v f := x]> cubeMaps)).
    unfold CubeMapGather.trace_texel, optixTrace. rewrite Hhit.
    apply gather_hit_rgba. }
  rewrite Hwritten. split.
  - intros l ->. f_equal. unfold DirectLighting.light_rgba.
    apply opaque_colour_kept; [apply pack_rgba_range|apply pack_rgba_alpha].
  - by intros ->.
Qed.

Lemma cubemap_gather_hands_on_light_colour_witness :
  @CubeMapGather.raygen Samples.library (Samples.gather_params Samples.one_hit)
    (CubeMapGather.mkPayload 7 8 9) 1 0 5 ∅
  = {[21 := DirectLighting.light_rgba Samples.light]}.
Proof.
  apply (@cubemap_gather_hands_on_light_colour Samples.library
           (Samples.gather_params Samples.one_hit)
           (CubeMapGather.mkPayload 7 8 9) 1 0 5
           (mkHit F32.one 0 0 Samples.quarter Samples.quarter) ∅).
  - reflexivity.
  - by vm_compute.
Defined.

(** ** The probes of the hybrid scatter pass *)

Lemma probeOffset_flat (p : ScatterHybrid.LaunchParams) (uvIndex : Z) :
  Variations.cell_in_grid p ->
  let c := ScatterHybrid.cellCoords p in
  ScatterHybrid.probeOffset (ScatterHybrid.thread_context p uvIndex)
  = (i3z c * ScatterHybrid.probeWidthRes p * ScatterHybrid.probeHeightRes p
     + i3y c * ScatterHybrid.probeWidthRes p + i3x c) * 6.
Proof.
  unfold Variations.cell_in_grid. cbv zeta. intros (Hx & Hy & Hz & Hfits).
  unfold ScatterHybrid.thread_context. cbn [ScatterHybrid.probeOffset].
  set (x := i3x (ScatterHybrid.cellCoords p)) in *.
  set (y := i3y (ScatterHybrid.cellCoords p)) in *.
  set (z := i3z (ScatterHybrid.cellCoords p)) in *.
  set (w := ScatterHybrid.probeWidthRes p) in *.
  set (ht := ScatterHybrid.probeHeightRes p) in *.
  assert (0 <= z * w) by nia.
  assert (z * w <= z * w * ht) by nia.
  assert (0 <= y * w) by nia.
  rewrite (int32_small (z * w)) by lia.
  rewrite (int32_small (z * w * ht)) by lia.
  rewrite (int32_small (y * w)) by lia.
  rewrite (int32_small (z * w * ht + y * w)) by lia.
  rewrite (int32_small (z * w * ht + y * w + x)) by lia.
  rewrite int32_small by lia. reflexivity.
Qed.

(** X20. The cubemaps of the probes do not overlap. For cells of a probe
    grid that fits the [int] arithmetic, the index of the cubemap texture
    that a hybrid scatter thread samples for a face determines both the
    cell and the face: launches over two cells of the same grid read the
    same texture only for the same cell and the same face. *)
Theorem hybrid_probe_textures_disjoint (p p' : ScatterHybrid.LaunchParams)
    (uvIndex uvIndex' face face' : Z) :
  Variations.cell_in_grid p -> Variations.cell_in_grid p' ->
  ScatterHybrid.probeWidthRes p' = ScatterHybrid.probeWidthRes p ->
  ScatterHybrid.probeHeightRes p' = ScatterHybrid.probeHeightRes p ->
  0 <= face < 6 -> 0 <= face' < 6 ->
  int32 (ScatterHybrid.probeOffset (ScatterHybrid.thread_context p uvIndex) + face)
  = int32 (ScatterHybrid.probeOffset (ScatterHybrid.thread_context p' uvIndex') + face') ->
  ScatterHybrid.cellCoords p = ScatterHybrid.cellCoords p' /\ face = face'.
Proof.
  intros Hcell Hcell' Hw Hh Hface Hface'.
  rewrite (probeOffset_flat p uvIndex Hcell), (probeOffset_flat p' uvIndex' Hcell').
  cbv zeta. unfold Variations.cell_in_grid in Hcell, Hcell'. cbv zeta in Hcell, Hcell'.
  rewrite Hw, Hh in *.
  destruct (ScatterHybrid.cellCoords p) as [x y z], (ScatterHybrid.cellCoords p') as [x' y' z'].
  cbn [i3x i3y i3z] in *.
  set (w := ScatterHybrid.probeWidthRes p) in *.
  set (ht := ScatterHybrid.probeHeightRes p) in *.
  destruct Hcell as (Hx & Hy & Hz & Hfits), Hcell' as (Hx' & Hy' & Hz' & Hfits').
  assert (0 <= z * w /\ 0 <= z' * w) as [? ?] by nia.
  assert (0 <= z * w * ht /\ 0 <= y * w /\ 0 <= z' * w * ht /\ 0 <= y' * w)
    as (? & ? & ? & ?) by nia.
  rewrite !int32_small by lia. intros Heq.
  assert (Hcells : z * w * ht + y * w + x = z' * w * ht + y' * w + x') by lia.
  assert (face = face') by lia.
  assert (Hrow : 0 <= y * w + x < w * ht /\ 0 <= y' * w + x' < w * ht) by nia.
  assert (z = z') by nia. subst z'.
  assert (y = y') by nia. subst y'.
  assert (x = x') by lia. by subst.
Qed.

Lemma hybrid_probe_textures_disjoint_witness :
  ScatterHybrid.cellCoords (Samples.hybrid_params Samples.one_hit)
  = ScatterHybrid.cellCoords (Samples.hybrid_params Samples.empty_scene) /\ 3 = 3.
Proof.
  apply (hybrid_probe_textures_disjoint (Samples.hybrid_params Samples.one_hit)
           (Samples.hybrid_params Samples.empty_scene) 0 1 3 3);
    try reflexivity; try lia; unfold Variations.cell_in_grid; cbn; lia.
Defined.

(** ** The projection of a UV coordinate: triangles without area *)

Lemma mul_comm (x y : float) : F32.mul x y = F32.mul y x.
Proof.
  unfold F32.mul.
  destruct x as [sx|sx| |sx mx ex], y as [sy|sy| |sy my ey]; cbn [SFmul];
    try reflexivity; try (by rewrite xorb_comm).
  by rewrite xorb_comm, Pos.mul_comm, Z.add_comm.
Qed.

Lemma mul_finite_factors (x y : float) :
  F32.is_finite (F32.mul x y) = true ->
  F32.is_finite x = true /\ F32.is_finite y = true.
Proof. destruct x as [sx|sx| |sx mx ex], y as [sy|sy| |sy my ey]; cbn; auto. Qed.

Lemma sub_self (x : float) :
  F32.is_finite (F32.sub x x) = true -> F32.sub x x = S754_zero false.
Proof.
  unfold F32.sub. destruct x as [s|s| |s m e]; cbn [SFsub].
  - by destruct s.
  - by destruct s.
  - discriminate.
  - intros _. by rewrite Z.sub_diag.
Qed.

Lemma sub_self_finite (x : float) :
  F32.is_finite x = true -> F32.sub x x = S754_zero false.
Proof.
  unfold F32.sub. destruct x as [s|s| |s m e]; cbn [SFsub]; try discriminate.
  - by destruct s.
  - intros _. by rewrite Z.sub_diag.
Qed.

Lemma mul_zero_r (x : float) (s : bool) :
  F32.is_finite x = true -> F32.is_zero (F32.mul x (S754_zero s)) = true.
Proof. by destruct x. Qed.

Lemma mul_zero_l (x : float) (s : bool) :
  F32.is_finite x = true -> F32.is_zero (F32.mul (S754_zero s) x) = true.
Proof. by destruct x. Qed.

Lemma sub_zeros (a b : float) :
  F32.is_zero a = true -> F32.is_zero b = true -> F32.is_zero (F32.sub a b) = true.
Proof. destruct a as [[]| | |], b as [[]| | |]; by try discriminate. Qed.

Lemma half_of_zero (a : float) :
  F32.is_zero a = true -> F32.eqb (F32.div a F32.two) F32.zero = true.
Proof. destruct a as [[]| | |]; try discriminate; intros _; by vm_compute. Qed.

Lemma area_without_extent (a b c : vec2) :
  F32.is_finite (F32.mul (v2x (vec2_sub a c)) (v2y (vec2_sub b c))) = true ->
  F32.is_finite (F32.mul (v2y (vec2_sub a c)) (v2x (vec2_sub b c))) = true ->
  a = b \/ b = c \/ a = c ->
  F32.eqb (UVMapping.area a b c) F32.zero = true.
Proof.
  intros Hp1 Hp2 Hequal. unfold UVMapping.area. cbv zeta.
  apply half_of_zero.
  destruct (mul_finite_factors _ _ Hp1) as [H1x H2y].
  destruct (mul_finite_factors _ _ Hp2) as [H1y H2x].
  destruct Hequal as [Heq|[Heq|Heq]]; subst.
  - rewrite (mul_comm (v2y (vec2_sub b c)) (v2x (vec2_sub b c))).
    by rewrite (sub_self_finite _ Hp1).
  - unfold vec2_sub in *. cbn [v2x v2y] in *.
    rewrite (sub_self _ H2x), (sub_self _ H2y).
    apply sub_zeros; by apply mul_zero_r.
  - unfold vec2_sub in *. cbn [v2x v2y] in *.
    rewrite (sub_self _ H1x), (sub_self _ H1y).
    apply sub_zeros; by apply mul_zero_l.
Qed.

(** X21. A triangle two of whose corners share a texture coordinate has
    the area zero and is never the one [UVto3D] answers with. This holds
    whenever the two products of the area computation are finite: with an
    overflow the area is a NaN, which neither compares equal to zero nor
    below it. *)
Theorem UVto3D_skips_triangle_without_extent `{GlmLibrary}
    (g : UVMapping.GameObject) (t : ivec3) :
  let uv1 := UVMapping.texcoord_of g (i3x t) in
  let uv2 := UVMapping.texcoord_of g (i3y t) in
  let uv3 := UVMapping.texcoord_of g (i3z t) in
  F32.is_finite (F32.mul (v2x (vec2_sub uv1 uv3)) (v2y (vec2_sub uv2 uv3))) = true ->
  F32.is_finite (F32.mul (v2y (vec2_sub uv1 uv3)) (v2x (vec2_sub uv2 uv3))) = true ->
  uv1 = uv2 \/ uv2 = uv3 \/ uv1 = uv3 ->
  UVMapping.degenerate g t = true /\
  (forall uv, UVMapping.point_in_triangle uv (g, t) = false) /\
  (forall uv rest,
     UVMapping.first_match uv ((g, t) :: rest) = UVMapping.first_match uv rest).
Proof.
  intros uv1 uv2 uv3 Hp1 Hp2 Hequal.
  assert (Hdegenerate : UVMapping.degenerate g t = true).
  { unfold UVMapping.degenerate, UVMapping.uv_area. by apply area_without_extent. }
  assert (Hout : forall uv, UVMapping.point_in_triangle uv (g, t) = false).
  { intros uv. unfold UVMapping.point_in_triangle.
    destruct (UVMapping.barycentric g t uv) as [[a1 a2] a3].
    by rewrite Hdegenerate. }
  split_and!; [done|done|].
  intros uv rest. cbn [UVMapping.first_match]. by rewrite Hout.
Qed.

Lemma UVto3D_skips_triangle_without_extent_witness :
  @UVMapping.degenerate Samples.glm Samples.game_object (mkIVec3 1 1 1) = true.
Proof.
  apply (@UVto3D_skips_triangle_without_extent Samples.glm Samples.game_object
           (mkIVec3 1 1 1)).
  - reflexivity.
  - reflexivity.
  - by left.
Defined.
